(** * serialJson: length-delimited, checksummed frames over a serial link

    A shallow embedding of the Go sources of the repository

      - go-mod-jsoncom/serialcomm  (receiver.go, sender.go, serialcomm.go, utils.go)
      - send/send.go, receive/receive.go
      - serialJson/send/send.go

    Go's fixed-width integers are integers of [Z] with the wrap-around written
    out, byte slices are lists of [Byte.byte], [bytes.Buffer] is the list of
    its unread bytes, and the serial port is an explicit state. *)

From Stdlib Require Import ZArith List Lia Bool String.
From Stdlib Require Import Strings.Byte.
Import ListNotations.
Open Scope string_scope.
Open Scope list_scope.
Open Scope Z_scope.

(** ** Go scalars *)

Module GoInt.

Definition uint16 (x : Z) : Z := x mod 2 ^ 16.
Definition uint32 (x : Z) : Z := x mod 2 ^ 32.

(** [uint32(b)] for a byte [b]. *)
Definition b2z (b : byte) : Z := Z.of_N (Byte.to_N b).

(** The conversion [byte(x)]: the low eight bits. *)
Definition z2b (x : Z) : byte :=
  match Byte.of_N (Z.to_N (x mod 256)) with
  | Some b => b
  | None => x00
  end.

(** [len(s)] as a Go [int]. *)
Definition len {A} (s : list A) : Z := Z.of_nat (List.length s).

End GoInt.
Import GoInt.

(** ** encoding/binary, [binary.BigEndian]

    The decoders index their argument, so a short slice is a run-time panic:
    [None]. *)

Module BigEndian.

Definition PutUint32 (v : Z) : list byte :=
  [ z2b (Z.shiftr v 24); z2b (Z.shiftr v 16); z2b (Z.shiftr v 8); z2b v ].

Definition PutUint16 (v : Z) : list byte :=
  [ z2b (Z.shiftr v 8); z2b v ].

Definition Uint32 (b : list byte) : option Z :=
  match b with
  | b0 :: b1 :: b2 :: b3 :: _ =>
      Some (Z.lor (Z.lor (Z.lor (b2z b3) (Z.shiftl (b2z b2) 8))
                         (Z.shiftl (b2z b1) 16))
                  (Z.shiftl (b2z b0) 24))
  | _ => None
  end.

Definition Uint16 (b : list byte) : option Z :=
  match b with
  | b0 :: b1 :: _ => Some (Z.lor (b2z b1) (Z.shiftl (b2z b0) 8))
  | _ => None
  end.

End BigEndian.

(** ** bytes.Buffer (the unread portion) *)

Module Buffer.

Definition t := list byte.

Definition Len (b : t) : Z := len b.
Definition Write (b : t) (p : list byte) : t := b ++ p.
Definition Reset (b : t) : t := [].

(** [Next(n)] hands out the next [n] bytes, or all of them when fewer are
    buffered, and advances past them. *)
Definition Next (n : Z) (b : t) : list byte * t :=
  (firstn (Z.to_nat n) b, skipn (Z.to_nat n) b).

Definition Contains (b : t) (d : byte) : bool :=
  existsb (Byte.eqb d) b.

(** [ReadBytes(delim)]: the bytes up to and including the first [delim];
    without one, everything is consumed and the error is [io.EOF]. *)
Fixpoint ReadBytes (d : byte) (b : t) : list byte * t * bool :=
  match b with
  | [] => ([], [], false)
  | x :: r =>
      if Byte.eqb x d then ([x], r, true)
      else let '(l, r', ok) := ReadBytes d r in (x :: l, r', ok)
  end.

End Buffer.

(** ** github.com/sigurn/crc16

    Modelled from the spec: the checksum package is a dependency of the
    sources and its code is not part of the repository. It is taken as the
    table-driven CRC of its documentation, with the parameters the spec
    gives for CRC-16/MODBUS: a [Table] carries the parameters of the algorithm
    and 256 words, made by [MakeTable] from the polynomial; [Checksum] is
    [Complete (Update (Init t) data t) t]; [Update] reverses the bits of
    each input byte when [RefIn] is set, [Complete] those of the register
    when [RefOut] is set. The zero value of [Table] has zero parameters and
    256 zero words. [calculateCRC16_is_modbus] below shows the MODBUS
    instance equal to the bitwise definition of CRC-16/MODBUS. *)

Module Crc16.

(** Modelled from the spec: the parameters of a CRC-16 algorithm, as the
    package lists them. *)
Record Params := mkParams {
  Poly : Z; Init : Z; RefIn : bool; RefOut : bool; XorOut : Z; Check : Z;
  Name : string }.

(** Modelled from the spec: CRC-16/MODBUS has polynomial 0x8005, initial
    value 0xFFFF, reflected input and output, no final xor, check value
    0x4B37. *)
Definition CRC16_MODBUS : Params :=
  mkParams 0x8005 0xFFFF true true 0x0000 0x4B37 "CRC-16/MODBUS".

(** Modelled from the spec: the parameters and the 256-word table. *)
Record Table := mkTable { params : Params; data : list Z }.

(** Modelled from the spec: the zero value [crc16.Table{}], all parameters
    and all 256 words zero. *)
Definition zeroTable : Table :=
  mkTable (mkParams 0 0 false false 0 0 "") (repeat 0 256).

(** Modelled from the spec: one turn of the inner loop of [MakeTable], a
    16-bit left shift with the polynomial xored in when the top bit was set. *)
Definition shiftStep (poly crc : Z) : Z :=
  let bit := negb (Z.land crc 0x8000 =? 0) in
  let crc := uint16 (Z.shiftl crc 1) in
  if bit then Z.lxor crc poly else crc.

(** Modelled from the spec: the table word for the byte [n]. *)
Definition tableEntry (poly n : Z) : Z :=
  Nat.iter 8 (shiftStep poly) (uint16 (Z.shiftl n 8)).

(** Modelled from the spec: [MakeTable(params)]. *)
Definition MakeTable (p : Params) : Table :=
  mkTable p (map (fun n => tableEntry (Poly p) (Z.of_nat n)) (seq 0 256)).

(** Modelled from the spec: [table.data[i]]. *)
Definition at_ (t : Table) (i : Z) : Z := nth (Z.to_nat i) (data t) 0.

(** Modelled from the spec: bit reversal of the low [w] bits, for
    [ReverseByte] and [ReverseUint16]. *)
Fixpoint reverseBits (w : nat) (x : Z) : Z :=
  match w with
  | O => 0
  | S w' => Z.lor (Z.shiftl (Z.land x 1) (Z.of_nat w'))
                  (reverseBits w' (Z.shiftr x 1))
  end.

Definition ReverseByte (d : Z) : Z := reverseBits 8 d.
Definition ReverseUint16 (c : Z) : Z := reverseBits 16 c.

(** Modelled from the spec: the body of the loop of [Update], for one input
    byte: [crc = crc<<8 ^ table.data[byte(crc>>8)^d]]. *)
Definition updateByte (t : Table) (crc : Z) (b : byte) : Z :=
  let d := if RefIn (params t) then ReverseByte (b2z b) else b2z b in
  Z.lxor (uint16 (Z.shiftl crc 8))
         (at_ t (Z.lxor (Z.shiftr crc 8 mod 256) d)).

(** Modelled from the spec: [Update(crc, data, table)]. *)
Definition Update (crc : Z) (bs : list byte) (t : Table) : Z :=
  fold_left (updateByte t) bs crc.

(** Modelled from the spec: [Complete(crc, table)]. *)
Definition Complete (crc : Z) (t : Table) : Z :=
  if RefOut (params t)
  then Z.lxor (ReverseUint16 crc) (XorOut (params t))
  else Z.lxor crc (XorOut (params t)).

(** Modelled from the spec: [Checksum(data, table)]. *)
Definition Checksum (bs : list byte) (t : Table) : Z :=
  Complete (Update (Init (params t)) bs t) t.

End Crc16.

(** ** The records of the wire schema (identical in every package) *)

Module Reading.
Record t := mk {
  ID : string; Origin : Z; DeviceName : string; ResourceName : string;
  ProfileName : string; ValueType : string; Value : string }.
End Reading.

Module Event.
Record t := mk {
  APIVersion : string; ID : string; DeviceName : string;
  ProfileName : string; SourceName : string; Origin : Z;
  Readings : list Reading.t }.
End Event.

Module Payload.
Record t := mk { APIVersion : string; RequestID : string; Event : Event.t }.
Definition zero : t := mk "" "" (Event.mk "" "" "" "" "" 0 []).
End Payload.

Module Message.
Record t := mk {
  APIVersion : string; ReceivedTopic : string; CorrelationID : string;
  RequestID : string; ErrorCode : Z; Payload : string; ContentType : string }.
Definition zero : t := mk "" "" "" "" 0 "" "".
End Message.

(** ** The decoders of Go's standard library

    [json.Unmarshal] into a [Message] or a [Payload] and
    [base64.StdEncoding.DecodeString] are collaborators of the framing code;
    the receivers take them as a record, [None] standing for a non-nil
    error. *)

Record GoLib := mkGoLib {
  json_Unmarshal_Message : list byte -> option Message.t;
  base64_DecodeString : string -> option (list byte);
  json_Unmarshal_Payload : list byte -> option Payload.t }.

(** What the receivers do to the outside: a feedback token written to the
    port, a call of the configured [ReadCallback], a decoded message printed
    to the log. *)
Inductive Effect :=
| Feedback (msg : string)
| Callback (msg : Message.t) (payload : Payload.t)
| Printed (msg : Message.t).

(** One turn of a receive loop sees what [port.Read] returned: an error, or
    the [n] bytes [data[:n]] ([n = 0] when the read timed out), together with
    the clock reading of that turn. *)
Inductive ReadResult :=
| ReadError
| ReadOk (now : Z) (data : list byte).

(** The state a receive loop keeps between turns. *)
Record Recv := mkRecv {
  buffer : Buffer.t;
  expectedLength : Z;
  lastDataTime : Z }.

Definition fresh (t0 : Z) : Recv := mkRecv [] 0 t0.

(** [buffer.Reset(); expectedLength = 0]. *)
Definition reset (st : Recv) : Recv :=
  mkRecv (Buffer.Reset (buffer st)) 0 (lastDataTime st).

Definition with_buffer (st : Recv) (b : Buffer.t) : Recv :=
  mkRecv b (expectedLength st) (lastDataTime st).

(** [timeout = 5 * time.Second], in nanoseconds. *)
Definition timeout : Z := 5 * 1000000000.

(** Running a loop body over the successive read results; [None] is a panic. *)
Fixpoint run (body : Recv -> ReadResult -> option (Recv * list Effect))
             (st : Recv) (rs : list ReadResult) : option (Recv * list Effect) :=
  match rs with
  | [] => Some (st, [])
  | r :: rs' =>
      match body st r with
      | None => None
      | Some (st1, e1) =>
          match run body st1 rs' with
          | None => None
          | Some (st2, e2) => Some (st2, e1 ++ e2)
          end
      end
  end.

(** ** The serial port as the senders use it

    [written] logs the argument of every successful [Write]; [credit] is the
    number of writes the port still accepts before it starts failing
    ([None]: it never fails). *)

Record Port := mkPort { written : list (list byte); credit : option nat }.

Definition Port_Write (p : Port) (b : list byte) : Port * bool :=
  match credit p with
  | None => (mkPort (written p ++ [b]) None, true)
  | Some (S k) => (mkPort (written p ++ [b]) (Some k), true)
  | Some O => (p, false)
  end.

Definition wire (p : Port) : list byte := List.concat (written p).

(** [data[i:e]]. *)
Definition slice (data : list byte) (i e : Z) : list byte :=
  firstn (Z.to_nat (e - i)) (skipn (Z.to_nat i) data).

(** ** go-mod-jsoncom/serialcomm *)

Module Serialcomm.

Record SerialConfig := mkConfig {
  PortName : string;
  BaudRate : Z;
  ReadTimeout : Z;
  MaxLength : Z;
  (** [true] when the handler is not nil; calling it is the [Callback] effect. *)
  ReadCallback : bool }.

(** utils.go *)
Definition calculateCRC16 (data : list byte) : Z :=
  let table := Crc16.MakeTable Crc16.CRC16_MODBUS in
  Crc16.Checksum data table.

(** receiver.go, lines 90-133: a complete frame is in the buffer. *)
Definition frameStage (lib : GoLib) (cfg : SerialConfig) (st : Recv)
  : option (Recv * list Effect) :=
  if (expectedLength st >? 0)
     && (Buffer.Len (buffer st) >=? expectedLength st + 2) then
    let '(dataPacket, b1) := Buffer.Next (expectedLength st) (buffer st) in
    let '(crcBytes, b2) := Buffer.Next 2 b1 in
    match BigEndian.Uint16 crcBytes with
    | None => None
    | Some receivedCRC =>
        let calculatedCRC := calculateCRC16 dataPacket in
        let st := with_buffer st b2 in
        if negb (receivedCRC =? calculatedCRC) then
          Some (reset st, [Feedback "RETRY"])
        else
          match json_Unmarshal_Message lib dataPacket with
          | None => Some (reset st, [Feedback "RETRY"])
          | Some msg =>
              match base64_DecodeString lib (Message.Payload msg) with
              | None => Some (st, [])
              | Some payloadBytes =>
                  match json_Unmarshal_Payload lib payloadBytes with
                  | None => Some (st, [])
                  | Some payload =>
                      Some (reset st,
                            (if ReadCallback cfg then [Callback msg payload]
                             else [])
                            ++ [Feedback "OK"])
                  end
              end
          end
    end
  else Some (st, []).

(** receiver.go, lines 61-135: the body of the loop of [Start]. *)
Definition step (lib : GoLib) (cfg : SerialConfig) (st : Recv)
           (r : ReadResult) : option (Recv * list Effect) :=
  match r with
  | ReadError => Some (st, [])
  | ReadOk now data =>
      if len data =? 0 then
        if (now - lastDataTime st >? timeout)
           && (Buffer.Len (buffer st) >? 0)
        then Some (reset st, [Feedback "RETRY"])
        else Some (st, [])
      else
        let st := mkRecv (Buffer.Write (buffer st) data)
                         (expectedLength st) now in
        if (expectedLength st =? 0) && (Buffer.Len (buffer st) >=? 4) then
          let '(lengthBytes, b1) := Buffer.Next 4 (buffer st) in
          match BigEndian.Uint32 lengthBytes with
          | None => None
          | Some n =>
              let st := mkRecv b1 n now in
              if (n >? uint32 (MaxLength cfg)) || (n =? 0)
              then Some (reset st, [Feedback "RETRY"])
              else frameStage lib cfg st
          end
        else frameStage lib cfg st
  end.

(** The bound the length is compared with: [uint32(s.config.MaxLength)]. *)
Definition MaxFrameLength (cfg : SerialConfig) : Z := uint32 (MaxLength cfg).

(** sender.go: the frame is assembled in memory and written at once. *)
Definition Send_frame (data : list byte) : list byte :=
  let crc := calculateCRC16 data in
  BigEndian.PutUint32 (uint32 (len data)) ++ data ++ BigEndian.PutUint16 crc.

Definition Send (p : Port) (data : list byte) : Port * bool :=
  Port_Write p (Send_frame data).

(** The receiver object: [stopCh] is only ever closed, never sent on. *)
Inductive chan := ChanOpen | ChanClosed.

Record serialReceiverImpl := mkImpl {
  config : SerialConfig;
  stopCh : chan;
  started : bool }.

(** A call returns (with its error, [None] for nil) or panics. *)
Inductive Outcome :=
| Returns (s : serialReceiverImpl) (err : option string)
| Panics (msg : string).

Definition NewSerialReceiver (cfg : SerialConfig) : serialReceiverImpl :=
  mkImpl cfg ChanOpen false.

Definition Start (s : serialReceiverImpl) : Outcome :=
  Returns (mkImpl (config s) (stopCh s) true) None.

Definition Close (s : serialReceiverImpl) : Outcome :=
  if started s then
    match stopCh s with
    | ChanOpen => Returns (mkImpl (config s) ChanClosed (started s)) None
    | ChanClosed => Panics "close of closed channel"
    end
  else Returns s None.

(** The [select] at the head of the worker's loop: the receive from
    [stopCh] is ready exactly when the channel is closed. *)
Definition workerStops (s : serialReceiverImpl) : bool :=
  match stopCh s with ChanClosed => true | ChanOpen => false end.

End Serialcomm.

(** ** receive/receive.go *)

Module Receive.

(** An empty table is handed to the checksum. *)
Definition calculateCRC16 (data : list byte) : Z :=
  Crc16.Checksum data Crc16.zeroTable.

(** [(b >= 32 && b <= 126) || b == 10] *)
Definition keep (b : byte) : bool :=
  ((b2z b >=? 32) && (b2z b <=? 126)) || (b2z b =? 10).

(** Lines 97-115: the read bytes are filtered and appended, then the length
    prefix is taken when four bytes are there; no check of its value. *)
Definition feed (st : Recv) (now : Z) (data : list byte) : option Recv :=
  let cleanData := filter keep data in
  let st := mkRecv (Buffer.Write (buffer st) cleanData)
                   (expectedLength st) now in
  if (expectedLength st =? 0) && (Buffer.Len (buffer st) >=? 4) then
    let '(lengthBytes, b1) := Buffer.Next 4 (buffer st) in
    match BigEndian.Uint32 lengthBytes with
    | None => None
    | Some n => Some (mkRecv b1 n now)
    end
  else Some st.

(** The condition of line 118. *)
Definition frameReady (st : Recv) : bool :=
  (expectedLength st >? 0)
  && (Buffer.Len (buffer st) >=? expectedLength st + 2)
  && Buffer.Contains (buffer st) x0a.

(** [dataPacket := buffer.Next(int(expectedLength))] of line 120. *)
Definition dataPacketOf (st : Recv) : list byte :=
  fst (Buffer.Next (expectedLength st) (buffer st)).

(** Lines 118-178. *)
Definition frameStage (lib : GoLib) (st : Recv) : option (Recv * list Effect) :=
  if frameReady st then
    let dataPacket := dataPacketOf st in
    let b1 := snd (Buffer.Next (expectedLength st) (buffer st)) in
    let '(crcBytes, b2) := Buffer.Next 2 b1 in
    match BigEndian.Uint16 crcBytes with
    | None => None
    | Some receivedCRC =>
        let calculatedCRC := calculateCRC16 dataPacket in
        if negb (receivedCRC =? calculatedCRC) then
          Some (reset st, [Feedback "RETRY"])
        else
          let '(_, b3, found) := Buffer.ReadBytes x0a b2 in
          if negb found then Some (with_buffer st b3, [])
          else
            match json_Unmarshal_Message lib dataPacket with
            | None => Some (reset st, [Feedback "RETRY"])
            | Some message => Some (reset st, [Feedback "OK"; Printed message])
            end
    end
  else Some (st, []).

(** Lines 82-181: the body of the loop of [main]. *)
Definition step (lib : GoLib) (st : Recv) (r : ReadResult)
  : option (Recv * list Effect) :=
  match r with
  | ReadError => Some (st, [])
  | ReadOk now data =>
      if len data =? 0 then
        if (now - lastDataTime st >? timeout)
           && (Buffer.Len (buffer st) >? 0)
        then Some (reset st, [])
        else Some (st, [])
      else
        match feed st now data with
        | None => None
        | Some st => frameStage lib st
        end
  end.

End Receive.

(** ** sendData (send/send.go and serialJson/send/send.go)

    The two copies differ in their [calculateCRC16] only. *)

Section SendData.

Variable calculateCRC16 : list byte -> Z.

Definition chunkSize : Z := 20.

(** The chunk loop, [for i := 0; i < len(data); i += chunkSize]; the
    counter grows by 20 each turn, so [fuel] turns are enough when
    [len data - i <= 20 * fuel]. The result is [None] when the fuel runs
    out, else the port and whether every write succeeded. *)
Fixpoint chunkLoop (fuel : nat) (p : Port) (data : list byte) (i : Z)
  : option (Port * bool) :=
  if i <? len data then
    match fuel with
    | O => None
    | S fuel' =>
        let end_ := i + chunkSize in
        let end_ := if end_ >? len data then len data else end_ in
        let chunk := slice data i end_ in
        let '(p, ok) := Port_Write p chunk in
        if ok then chunkLoop fuel' p data (i + chunkSize)
        else Some (p, false)
    end
  else Some (p, true).

Definition sendData (p : Port) (data : list byte) : option (Port * bool) :=
  let length := uint32 (len data) in
  let lengthBytes := BigEndian.PutUint32 length in
  let '(p, ok) := Port_Write p lengthBytes in
  if negb ok then Some (p, false)
  else
    let crc := calculateCRC16 data in
    let crcBytes := BigEndian.PutUint16 crc in
    match chunkLoop (List.length data) p data 0 with
    | None => None
    | Some (p, false) => Some (p, false)
    | Some (p, true) =>
        let '(p, ok) := Port_Write p crcBytes in
        if negb ok then Some (p, false)
        else Some (Port_Write p [x0a])
    end.

End SendData.

(** ** The retry loops of the two senders

    A run of [main] ends by returning after the last log line ([Done]) or in
    [log.Fatalf] ([Fatal], exit status 1). [replies attempt] is what the
    transport answers in that turn of the loop: [None] for a non-nil error,
    else the string read. *)

Inductive Exit := Done | Fatal (msg : string) | OutOfFuel.

Record Outcome := mkOutcome { exit : Exit; sends : nat; port : Port }.

Definition maxRetries : Z := 3.

Module Send.

(** send/send.go *)
Definition calculateCRC16 (data : list byte) : Z :=
  Crc16.Checksum data Crc16.zeroTable.

Definition sendData := sendData calculateCRC16.

(** Lines 139-167. [replies] gives the result of [port.Read(feedback)]:
    a read that timed out yields the empty string without error. *)
Fixpoint retryLoop (replies : Z -> option string) (data : list byte)
         (fuel : nat) (attempt : Z) (sends : nat) (p : Port) : Outcome :=
  if attempt <=? maxRetries then
    match fuel with
    | O => mkOutcome OutOfFuel sends p
    | S fuel' =>
        match sendData p data with
        | None => mkOutcome OutOfFuel sends p
        | Some (p, false) => mkOutcome (Fatal "send failed") (S sends) p
        | Some (p, true) =>
            let sends := S sends in
            match replies attempt with
            | None => retryLoop replies data fuel' (attempt + 1) sends p
            | Some feedbackStr =>
                if String.eqb feedbackStr "OK" then mkOutcome Done sends p
                else if String.eqb feedbackStr "RETRY" then
                  retryLoop replies data fuel' (attempt + 1) sends p
                else if attempt =? maxRetries then
                  mkOutcome (Fatal "max retries reached") sends p
                else retryLoop replies data fuel' (attempt + 1) sends p
            end
        end
    end
  else mkOutcome Done sends p.

Definition main (replies : Z -> option string) (data : list byte) (p : Port)
  : Outcome :=
  retryLoop replies data (Z.to_nat maxRetries) 1 0 p.

End Send.

Module SerialJsonSend.

(** serialJson/send/send.go *)
Definition calculateCRC16 (data : list byte) : Z :=
  let table := Crc16.MakeTable Crc16.CRC16_MODBUS in
  Crc16.Checksum data table.

Definition sendData := sendData calculateCRC16.

(** Lines 111-129. [reads] lists what the successive calls of [port.Read]
    return ([None] for an error, else the bytes that came), each with the
    time since [start] at which the loop tests its condition before the
    call; a script that ends stands for the time being over. [got] is
    [feedback[:totalRead]]; the slice handed to [Read] has room for what is
    left of the ten bytes. The result is the token, or [None] for the error. *)
Fixpoint readFeedback (timeout : Z) (reads : list (Z * option string))
         (got : string) : option string :=
  match reads with
  | [] => None
  | (elapsed, r) :: rest =>
      if elapsed <? timeout then
        match r with
        | None => None
        | Some s =>
            let got :=
              String.append got (substring 0 (10 - String.length got) s) in
            if (0 <? String.length got)%nat
               && (String.eqb got "OK" || String.eqb got "RETRY")
            then Some got
            else readFeedback timeout rest got
        end
      else None
  end.

(** Lines 170-202. [replies attempt] is the result of [readFeedback] in
    that turn. *)
Fixpoint retryLoop (replies : Z -> option string) (data : list byte)
         (fuel : nat) (attempt : Z) (sends : nat) (p : Port) : Outcome :=
  if attempt <=? maxRetries then
    match fuel with
    | O => mkOutcome OutOfFuel sends p
    | S fuel' =>
        if attempt =? maxRetries then
          mkOutcome (Fatal "max retries reached") sends p
        else
          match sendData p data with
          | None => mkOutcome OutOfFuel sends p
          | Some (p, false) => mkOutcome (Fatal "send failed") (S sends) p
          | Some (p, true) =>
              let sends := S sends in
              match replies attempt with
              | None => retryLoop replies data fuel' (attempt + 1) sends p
              | Some feedback =>
                  if String.eqb feedback "OK" then mkOutcome Done sends p
                  else if String.eqb feedback "RETRY" then
                    retryLoop replies data fuel' (attempt + 1) sends p
                  else retryLoop replies data fuel' (attempt + 1) sends p
              end
          end
    end
  else mkOutcome Done sends p.

(** [scripts attempt] is what the port delivers while [readFeedback] waits,
    up to [3*time.Second], in that turn. *)
Definition main (scripts : Z -> list (Z * option string)) (data : list byte)
           (p : Port) : Outcome :=
  retryLoop (fun attempt => readFeedback (3 * 1000000000) (scripts attempt) "")
            data (Z.to_nat maxRetries) 1 0 p.

End SerialJsonSend.

(** ** Concrete data for the examples *)

Fixpoint bytes_eqb (a b : list byte) : bool :=
  match a, b with
  | [], [] => true
  | x :: a', y :: b' => Byte.eqb x y && bytes_eqb a' b'
  | _, _ => false
  end.

(** The seven bytes of the JSON text with the single member a = 1. *)
Definition json_a1 : list byte := [x7b; x22; x61; x22; x3a; x31; x7d].

(** The JSON text with the single member payload = e30= (18 bytes); e30= is
    the base64 form of the two bytes of the empty JSON object. *)
Definition json_payload_e30 : list byte :=
  [x7b; x22; x70; x61; x79; x6c; x6f; x61; x64; x22; x3a; x22;
   x65; x33; x30; x3d; x22; x7d].

Definition json_empty_object : list byte := [x7b; x7d].

(** The answers of Go's decoders on the texts above: unknown members are
    skipped, so [json_a1] gives the zero [Message]; the empty string is the
    base64 form of no bytes; no bytes are not a JSON document; the empty
    object gives the zero [Payload]. Texts outside this table are answered
    with an error; no example below feeds one. *)
Definition sampleLib : GoLib :=
  mkGoLib
    (fun bs =>
       if bytes_eqb bs json_a1 then Some Message.zero
       else if bytes_eqb bs json_payload_e30
            then Some (Message.mk "" "" "" "" 0 "e30=" "")
            else None)
    (fun s =>
       if String.eqb s "" then Some []
       else if String.eqb s "e30=" then Some json_empty_object
            else None)
    (fun bs =>
       if bytes_eqb bs json_empty_object then Some Payload.zero else None).

Definition demoConfig : Serialcomm.SerialConfig :=
  Serialcomm.mkConfig "COM7" 115200 300000000 4096 true.

Definition idlePort : Port := mkPort [] None.

(** The nine ASCII digits, the input of the catalogue's check value. *)
Definition digits : list byte := [x31; x32; x33; x34; x35; x36; x37; x38; x39].

(** Flipping bit [k mod 8] of byte [k / 8]. *)
Definition flipByte (j : nat) (b : byte) : byte :=
  z2b (Z.lxor (b2z b) (Z.shiftl 1 (Z.of_nat j))).

Fixpoint flipBit (k : nat) (bs : list byte) : list byte :=
  match bs with
  | [] => []
  | b :: r => if (k <? 8)%nat then flipByte k b :: r
              else b :: flipBit (k - 8) r
  end.

(** ** Auxiliary notions for the statements *)

(** The table every MODBUS path builds. *)
Definition modbusTable : Crc16.Table := Crc16.MakeTable Crc16.CRC16_MODBUS.

(** Successive non-failing reads, each with its clock reading. *)
Definition reads (chunks : list (Z * list byte)) : list ReadResult :=
  map (fun c => ReadOk (fst c) (snd c)) chunks.

Definition lastTime (t0 : Z) (chunks : list (Z * list byte)) : Z :=
  last (map fst chunks) t0.

(** The receiver state once the bytes [sofar] of a frame announcing [n]
    payload bytes have come in, the last of them at time [t]. *)
Definition absorbed (n : Z) (sofar : list byte) (t : Z) : Recv :=
  if (List.length sofar <? 4)%nat then mkRecv sofar 0 t
  else mkRecv (skipn 4 sofar) n t.

(** CRC-16/MODBUS in the words of the spec, bit by bit: the register starts
    at 0xFFFF; each byte is xored into its low half and shifted out least
    significant bit first, the polynomial 0x8005 (0xA001 in this bit order)
    being xored in whenever a one falls out; no final xor. *)
Definition modbusBit (crc : Z) : Z :=
  if Z.testbit crc 0 then Z.lxor (Z.shiftr crc 1) 0xA001 else Z.shiftr crc 1.

Definition modbusByte (crc : Z) (b : byte) : Z :=
  Nat.iter 8 modbusBit (Z.lxor crc (b2z b)).

Definition modbusReference (data : list byte) : Z :=
  fold_left modbusByte data 0xFFFF.

(** Transport scripts for the retry loop of send/send.go: what its one
    [port.Read] returns in each turn. *)
Definition allRetry : Z -> option string := fun _ => Some "RETRY".
Definition okOnSecond : Z -> option string :=
  fun attempt => if attempt =? 2 then Some "OK" else Some "RETRY".
Definition allSilent : Z -> option string := fun _ => Some "".
Definition allErrors : Z -> option string := fun _ => None.

(** Transport scripts for the retry loop of serialJson/send/send.go: the
    reads of [readFeedback] in each turn. In [retryInTwo] the token comes in
    two pieces; in [silence] every read returns no bytes after the 500 ms
    read timeout, until the three seconds are over. *)
Definition retryAtOnce : Z -> list (Z * option string) :=
  fun _ => [(0, Some "RETRY")].
Definition retryInTwo : Z -> list (Z * option string) :=
  fun _ => [(0, Some "RE"); (10000000, Some "TRY")].
Definition okSecondTime : Z -> list (Z * option string) :=
  fun attempt => if attempt =? 2 then [(0, Some "OK")] else [(0, Some "RETRY")].
Definition silence : Z -> list (Z * option string) :=
  fun _ => [(0, Some ""); (510000000, Some ""); (1020000000, Some "");
            (1530000000, Some ""); (2040000000, Some "");
            (2550000000, Some ""); (3060000000, Some "")].
Definition readErrors : Z -> list (Z * option string) :=
  fun _ => [(0, None)].

(** A byte sequence cut into reads of 3, 6 and the remaining bytes. *)
Definition split3 (bs : list byte) : list (Z * list byte) :=
  [(1, firstn 3 bs); (2, firstn 6 (skipn 3 bs)); (3, skipn 9 bs)].

(** The bytes the filter of receive/receive.go lets through, and what holds
    of every state its loop reaches. *)
Definition kept (b : byte) : Prop := Receive.keep b = true.

Definition RInv (st : Recv) : Prop :=
  Forall kept (buffer st)
  /\ (expectedLength st = 0
      \/ Forall kept (BigEndian.PutUint32 (expectedLength st)))
  /\ 0 <= expectedLength st < 2 ^ 32.

(** ** The receiver program kept in serialcomm/utils.go (lines 18-217)

    A third copy of the receive loop: MODBUS checksum, a length bound of
    10000, feedback on every rejection, and the search for a line feed
    anywhere in the buffer before a frame is taken. [port.Flush] empties the
    driver's queues; what later reads return is given with the reads. *)

Module CheckedReceive.

Definition maxLength : Z := 10000.

(** Lines 69-77. *)
Definition calculateCRC16 (data : list byte) : Z :=
  let table := Crc16.MakeTable Crc16.CRC16_MODBUS in
  Crc16.Checksum data table.

(** The condition of line 162. *)
Definition frameReady (st : Recv) : bool :=
  (expectedLength st >? 0)
  && (Buffer.Len (buffer st) >=? expectedLength st + 2)
  && Buffer.Contains (buffer st) x0a.

(** Lines 162-212. *)
Definition frameStage (lib : GoLib) (st : Recv) : option (Recv * list Effect) :=
  if frameReady st then
    let '(dataPacket, b1) := Buffer.Next (expectedLength st) (buffer st) in
    let '(crcBytes, b2) := Buffer.Next 2 b1 in
    match BigEndian.Uint16 crcBytes with
    | None => None
    | Some receivedCRC =>
        let calculatedCRC := calculateCRC16 dataPacket in
        if negb (receivedCRC =? calculatedCRC) then
          Some (reset st, [Feedback "RETRY"])
        else
          let '(_, b3, found) := Buffer.ReadBytes x0a b2 in
          if negb found then Some (with_buffer st b3, [])
          else
            match json_Unmarshal_Message lib dataPacket with
            | None => Some (reset st, [Feedback "RETRY"])
            | Some message => Some (reset st, [Feedback "OK"; Printed message])
            end
    end
  else Some (st, []).

(** Lines 116-216: the body of the loop of [main]. *)
Definition step (lib : GoLib) (st : Recv) (r : ReadResult)
  : option (Recv * list Effect) :=
  match r with
  | ReadError => Some (st, [])
  | ReadOk now data =>
      if len data =? 0 then
        if (now - lastDataTime st >? timeout)
           && (Buffer.Len (buffer st) >? 0)
        then Some (reset st, [Feedback "RETRY"])
        else Some (st, [])
      else
        let st := mkRecv (Buffer.Write (buffer st) data)
                         (expectedLength st) now in
        if (expectedLength st =? 0) && (Buffer.Len (buffer st) >=? 4) then
          let '(lengthBytes, b1) := Buffer.Next 4 (buffer st) in
          match BigEndian.Uint32 lengthBytes with
          | None => None
          | Some n =>
              let st := mkRecv b1 n now in
              if (n >? maxLength) || (n =? 0)
              then Some (reset st, [Feedback "RETRY"])
              else frameStage lib st
          end
        else frameStage lib st
  end.

End CheckedReceive.

(** ** Further notions for the statements *)

(** The payload cut as the chunk loop of [sendData] cuts it: slices of 20
    bytes, the last one shorter when the length is no multiple of 20. *)
Fixpoint chunksOf (fuel : nat) (data : list byte) : list (list byte) :=
  match fuel, data with
  | _, [] => []
  | O, _ => []
  | S fuel', _ => firstn 20 data :: chunksOf fuel' (skipn 20 data)
  end.

(** The writes of one [sendData], in order. *)
Definition frameWrites (crc : list byte -> Z) (data : list byte)
  : list (list byte) :=
  [BigEndian.PutUint32 (uint32 (len data))]
  ++ chunksOf (List.length data) data
  ++ [BigEndian.PutUint16 (crc data); [x0a]].

(** Writing a list of slices in order, up to the first write the port
    refuses. *)
Fixpoint writeAll (p : Port) (ws : list (list byte)) : Port * bool :=
  match ws with
  | [] => (p, true)
  | w :: r =>
      let '(p1, ok) := Port_Write p w in
      if ok then writeAll p1 r else (p1, false)
  end.

(** How many writes a port still accepts, when that is bounded. *)
Definition accepts (p : Port) (k : nat) : bool :=
  match credit p with
  | None => true
  | Some c => (k <=? c)%nat
  end.

(** The frame [sendData] puts on the wire. *)
Definition sendData_frame (crc : list byte -> Z) (data : list byte) : list byte :=
  BigEndian.PutUint32 (uint32 (len data)) ++ data
  ++ BigEndian.PutUint16 (crc data) ++ [x0a].

Definition isToken (s : string) : bool :=
  String.eqb s "OK" || String.eqb s "RETRY".

Definition isOK (r : option string) : bool :=
  match r with
  | Some s => String.eqb s "OK"
  | None => false
  end.

(** The shapes of what one turn of the serialcomm loop does to the outside. *)
Definition turnShape (e : list Effect) : Prop :=
  e = [] \/ e = [Feedback "RETRY"] \/ e = [Feedback "OK"]
  \/ exists msg payload, e = [Callback msg payload; Feedback "OK"].

Fixpoint countOK (e : list Effect) : nat :=
  match e with
  | [] => O
  | Feedback s :: r => if String.eqb s "OK" then S (countOK r) else countOK r
  | _ :: r => countOK r
  end.

Fixpoint countCallback (e : list Effect) : nat :=
  match e with
  | [] => O
  | Callback _ _ :: r => S (countCallback r)
  | _ :: r => countCallback r
  end.

(** The frame of [data] as [k] transmissions put it on the wire. *)
Fixpoint resend (crc : list byte -> Z) (data : list byte) (k : nat)
  : list byte :=
  match k with
  | O => []
  | S k' => sendData_frame crc data ++ resend crc data k'
  end.

(** What one turn may do to the outside, and the bound its state keeps. *)
Definition tidy (cfg : Serialcomm.SerialConfig) (e : list Effect) : Prop :=
  countCallback e = (if Serialcomm.ReadCallback cfg then countOK e else 0%nat)
  /\ Forall (fun x => x = Feedback "OK" \/ x = Feedback "RETRY"
                      \/ exists msg payload, x = Callback msg payload) e.

Definition bounded (cfg : Serialcomm.SerialConfig) (st : Recv) : Prop :=
  0 <= expectedLength st <= Serialcomm.MaxFrameLength cfg
  /\ (expectedLength st = 0 -> Buffer.Len (buffer st) < 4).

(** * Properties *)

(** ** Bytes and big-endian words *)

Lemma b2z_range b : 0 <= b2z b < 256.
Proof.
  unfold b2z. pose proof (Byte.to_N_bounded b). lia.
Qed.

Lemma z2b_b2z b : z2b (b2z b) = b.
Proof.
  unfold z2b. rewrite Z.mod_small by apply b2z_range.
  unfold b2z. rewrite N2Z.id, Byte.of_to_N. reflexivity.
Qed.

Lemma b2z_z2b x : b2z (z2b x) = x mod 256.
Proof.
  unfold z2b, b2z.
  assert (H : 0 <= x mod 256 < 256) by (apply Z.mod_pos_bound; lia).
  destruct (Byte.of_N (Z.to_N (x mod 256))) eqn:E.
  - apply Byte.to_of_N in E. rewrite E. lia.
  - apply Byte.of_N_None_iff in E. lia.
Qed.

Lemma b2z_inj a b : b2z a = b2z b -> a = b.
Proof. intros H. rewrite <- (z2b_b2z a), <- (z2b_b2z b), H. reflexivity. Qed.

Lemma lor_shiftl_add a b k :
  0 <= k -> 0 <= a < 2 ^ k -> Z.lor a (Z.shiftl b k) = a + b * 2 ^ k.
Proof.
  intros Hk Ha.
  assert (L : Z.land a (Z.shiftl b k) = 0).
  { apply Z.bits_inj'. intros n Hn. rewrite Z.land_spec, Z.bits_0.
    destruct (Z.ltb_spec n k).
    - rewrite Z.shiftl_spec_low by lia. apply andb_false_r.
    - destruct (Z.eq_dec a 0) as [->|Hz]; [now rewrite Z.bits_0|].
      rewrite (Z.bits_above_log2 a n); [reflexivity|lia|].
      assert (Z.log2 a < k) by (apply Z.log2_lt_pow2; lia). lia. }
  rewrite <- Z.lxor_lor, <- Z.add_nocarry_lxor by assumption.
  rewrite Z.shiftl_mul_pow2 by lia. reflexivity.
Qed.

Lemma Uint32_value b0 b1 b2 b3 r :
  BigEndian.Uint32 (b0 :: b1 :: b2 :: b3 :: r)
  = Some (b2z b3 + b2z b2 * 2^8 + b2z b1 * 2^16 + b2z b0 * 2^24).
Proof.
  pose proof (b2z_range b0). pose proof (b2z_range b1).
  pose proof (b2z_range b2). pose proof (b2z_range b3).
  unfold BigEndian.Uint32.
  rewrite (lor_shiftl_add (b2z b3)) by lia.
  rewrite (lor_shiftl_add _ (b2z b1)) by lia.
  rewrite (lor_shiftl_add _ (b2z b0)) by lia.
  reflexivity.
Qed.

Lemma Uint16_value b0 b1 r :
  BigEndian.Uint16 (b0 :: b1 :: r) = Some (b2z b1 + b2z b0 * 2^8).
Proof.
  pose proof (b2z_range b1). unfold BigEndian.Uint16.
  rewrite lor_shiftl_add by lia. reflexivity.
Qed.

Lemma Uint32_PutUint32 n r :
  0 <= n < 2 ^ 32 -> BigEndian.Uint32 (BigEndian.PutUint32 n ++ r) = Some n.
Proof.
  intros Hn. unfold BigEndian.PutUint32. cbn [app].
  rewrite Uint32_value, !b2z_z2b, !Z.shiftr_div_pow2 by lia.
  f_equal. change (2^8) with 256. change (2^16) with 65536. change (2^24) with 16777216.
  change (2^32) with 4294967296 in Hn.
  Z.div_mod_to_equations. lia.
Qed.

Lemma Uint16_PutUint16 n r :
  0 <= n < 2 ^ 16 -> BigEndian.Uint16 (BigEndian.PutUint16 n ++ r) = Some n.
Proof.
  intros Hn. unfold BigEndian.PutUint16. cbn [app].
  rewrite Uint16_value, !b2z_z2b, !Z.shiftr_div_pow2 by lia.
  f_equal. change (2^8) with 256. change (2^16) with 65536 in Hn.
  Z.div_mod_to_equations. lia.
Qed.

Lemma PutUint32_Uint32 b0 b1 b2 b3 r n :
  BigEndian.Uint32 (b0 :: b1 :: b2 :: b3 :: r) = Some n ->
  BigEndian.PutUint32 n = [b0; b1; b2; b3].
Proof.
  rewrite Uint32_value. intros [= <-].
  pose proof (b2z_range b0). pose proof (b2z_range b1).
  pose proof (b2z_range b2). pose proof (b2z_range b3).
  unfold BigEndian.PutUint32.
  rewrite <- (z2b_b2z b0) at 2. rewrite <- (z2b_b2z b1) at 2.
  rewrite <- (z2b_b2z b2) at 2. rewrite <- (z2b_b2z b3) at 2.
  repeat f_equal; apply b2z_inj; rewrite !b2z_z2b, ?Z.shiftr_div_pow2 by lia;
    change (2^8) with 256; change (2^16) with 65536; change (2^24) with 16777216;
    Z.div_mod_to_equations; lia.
Qed.

Lemma Uint32_range bs n : BigEndian.Uint32 bs = Some n -> 0 <= n < 2 ^ 32.
Proof.
  destruct bs as [|b0 [|b1 [|b2 [|b3 r]]]]; try discriminate.
  rewrite Uint32_value. intros [= <-].
  pose proof (b2z_range b0). pose proof (b2z_range b1).
  pose proof (b2z_range b2). pose proof (b2z_range b3).
  change (2^8) with 256; change (2^16) with 65536; change (2^24) with 16777216.
  change (2^32) with 4294967296. lia.
Qed.

Lemma Uint16_inj a b x y :
  List.length a = 2%nat -> List.length b = 2%nat ->
  BigEndian.Uint16 a = Some x -> BigEndian.Uint16 b = Some y -> x = y -> a = b.
Proof.
  destruct a as [|a0 [|a1 [|? ?]]]; try discriminate.
  destruct b as [|c0 [|c1 [|? ?]]]; try discriminate.
  intros _ _. rewrite !Uint16_value. intros [= <-] [= <-] H.
  pose proof (b2z_range a0). pose proof (b2z_range a1).
  pose proof (b2z_range c0). pose proof (b2z_range c1).
  change (2^8) with 256 in H.
  assert (b2z a0 = b2z c0) by lia. assert (b2z a1 = b2z c1) by lia.
  f_equal; [now apply b2z_inj | f_equal; now apply b2z_inj].
Qed.

(** ** The checksum: bit-level facts *)

Ltac tb :=
  repeat first
    [ rewrite Z.lxor_spec | rewrite Z.lor_spec | rewrite Z.land_spec
    | rewrite Z.testbit_mod_pow2 by lia
    | rewrite Z.shiftl_spec by lia | rewrite Z.shiftr_spec by lia
    | rewrite Z.bits_0 ].

Ltac xor_solve :=
  apply Z.bits_inj'; intros ? ?; rewrite ?Z.lxor_spec, ?Z.bits_0;
  repeat match goal with
         | |- context [Z.testbit ?a ?n] => destruct (Z.testbit a n)
         end; reflexivity.

Ltac bool_fin :=
  repeat match goal with
         | |- context [Z.testbit ?a ?k] => destruct (Z.testbit a k)
         | |- context [?a <? ?b] => destruct (Z.ltb_spec a b); try lia
         end; try reflexivity.

Lemma mod_pow2_lxor k a b :
  0 <= k -> Z.lxor a b mod 2 ^ k = Z.lxor (a mod 2 ^ k) (b mod 2 ^ k).
Proof.
  intros Hk. apply Z.bits_inj'; intros n Hn. tb.
  destruct (n <? k); reflexivity.
Qed.

Lemma lxor_range k a b :
  0 <= k -> 0 <= a < 2 ^ k -> 0 <= b < 2 ^ k -> 0 <= Z.lxor a b < 2 ^ k.
Proof.
  intros Hk Ha Hb.
  rewrite <- (Z.mod_small a (2 ^ k)), <- (Z.mod_small b (2 ^ k)) by assumption.
  rewrite <- mod_pow2_lxor by assumption. apply Z.mod_pos_bound. lia.
Qed.

Lemma testbit_high x k n : 0 <= x < 2 ^ k -> k <= n -> Z.testbit x n = false.
Proof.
  intros Hx Hn. destruct (Z.eq_dec x 0) as [->|Hz]; [apply Z.bits_0|].
  apply Z.bits_above_log2; [lia|].
  assert (0 <= k). { destruct (Z.le_gt_cases 0 k); [assumption|]. rewrite Z.pow_neg_r in Hx; lia. }
  assert (Z.log2 x < k) by (apply Z.log2_lt_pow2; lia). lia.
Qed.

Lemma range_of_bits x k :
  0 <= k -> 0 <= x -> (forall n, k <= n -> Z.testbit x n = false) -> 0 <= x < 2 ^ k.
Proof.
  intros Hk Hx H.
  replace x with (x mod 2 ^ k); [apply Z.mod_pos_bound; lia|].
  apply Z.bits_inj'; intros n Hn. tb.
  destruct (Z.ltb_spec n k); [reflexivity|]. symmetry. apply H. lia.
Qed.

Section Shift.
Variable poly : Z.
Hypothesis poly_range : 0 <= poly < 2 ^ 16.
Hypothesis poly_odd : Z.testbit poly 0 = true.

Local Abbreviation S := (Crc16.shiftStep poly).

Lemma shiftStep_spec c :
  Crc16.shiftStep poly c
  = Z.lxor (uint16 (Z.shiftl c 1)) (if Z.testbit c 15 then poly else 0).
Proof.
  unfold Crc16.shiftStep. change 0x8000 with (2 ^ 15).
  destruct (Z.testbit c 15) eqn:E.
  - assert (H : Z.testbit (Z.land c (2 ^ 15)) 15 = true).
    { rewrite Z.land_spec, E, Z.pow2_bits_eqb by lia. reflexivity. }
    destruct (Z.eqb_spec (Z.land c (2 ^ 15)) 0) as [e|]; [|reflexivity].
    rewrite e, Z.bits_0 in H. discriminate.
  - assert (H : Z.land c (2 ^ 15) = 0).
    { apply Z.bits_inj'; intros n Hn.
      rewrite Z.land_spec, Z.bits_0, Z.pow2_bits_eqb by lia.
      destruct (Z.eqb_spec 15 n) as [<-|]; [now rewrite E|apply andb_false_r]. }
    rewrite H. cbn [Z.eqb negb]. now rewrite Z.lxor_0_r.
Qed.

Lemma shiftStep_lxor a b : S (Z.lxor a b) = Z.lxor (S a) (S b).
Proof.
  rewrite !shiftStep_spec.
  unfold uint16. rewrite Z.shiftl_lxor, mod_pow2_lxor by lia.
  rewrite Z.lxor_spec.
  set (x := Z.shiftl a 1 mod 2 ^ 16). set (y := Z.shiftl b 1 mod 2 ^ 16).
  destruct (Z.testbit a 15), (Z.testbit b 15); cbn [xorb]; xor_solve.
Qed.

Lemma shiftStep_range c : 0 <= S c < 2 ^ 16.
Proof.
  rewrite shiftStep_spec. apply lxor_range; [lia| |].
  - apply Z.mod_pos_bound. lia.
  - destruct (Z.testbit c 15); lia.
Qed.

Lemma below_top_bit d : 0 <= d < 2 ^ 16 -> Z.testbit d 15 = false -> d < 2 ^ 15.
Proof.
  intros Hd E. apply (range_of_bits d 15); [lia|lia|].
  intros n Hn. destruct (Z.eq_dec n 15) as [->|]; [assumption|].
  apply (testbit_high d 16); lia.
Qed.

Lemma shiftStep_zero d : 0 <= d < 2 ^ 16 -> S d = 0 -> d = 0.
Proof.
  intros Hd. rewrite shiftStep_spec.
  destruct (Z.testbit d 15) eqn:E; intros H.
  - apply (f_equal (fun z => Z.testbit z 0)) in H.
    rewrite Z.lxor_spec, Z.bits_0, poly_odd in H. unfold uint16 in H.
    rewrite Z.testbit_mod_pow2, Z.shiftl_spec, Z.testbit_neg_r in H by lia.
    discriminate.
  - pose proof (below_top_bit d Hd E) as Hs.
    rewrite Z.lxor_0_r in H. unfold uint16 in H.
    rewrite Z.shiftl_mul_pow2, Z.mod_small in H by lia. lia.
Qed.

Lemma shiftStep_inj a b :
  0 <= a < 2 ^ 16 -> 0 <= b < 2 ^ 16 -> S a = S b -> a = b.
Proof.
  intros Ha Hb H. apply Z.lxor_eq. apply shiftStep_zero.
  - apply lxor_range; lia.
  - rewrite shiftStep_lxor, H. apply Z.lxor_nilpotent.
Qed.

Lemma iter_range k c : 0 <= c < 2 ^ 16 -> 0 <= Nat.iter k S c < 2 ^ 16.
Proof. intros Hc. destruct k; [assumption|]. rewrite !Nat.iter_succ. apply shiftStep_range. Qed.

Lemma iter_lxor k a b :
  Nat.iter k S (Z.lxor a b) = Z.lxor (Nat.iter k S a) (Nat.iter k S b).
Proof.
  induction k; [reflexivity|]. rewrite !Nat.iter_succ. rewrite IHk. apply shiftStep_lxor.
Qed.

Lemma iter_inj k a b :
  0 <= a < 2 ^ 16 -> 0 <= b < 2 ^ 16 ->
  Nat.iter k S a = Nat.iter k S b -> a = b.
Proof.
  intros Ha Hb. induction k; [trivial|]. rewrite !Nat.iter_succ. intros H.
  apply IHk. apply shiftStep_inj; [apply iter_range| apply iter_range|]; assumption.
Qed.

Lemma iter_small k lo :
  (k <= 8)%nat -> 0 <= lo < 256 -> Nat.iter k S lo = lo * 2 ^ Z.of_nat k.
Proof.
  intros Hk Hlo. induction k.
  - cbn. lia.
  - rewrite !Nat.iter_succ. rewrite IHk by lia. rewrite shiftStep_spec.
    assert (P : 0 < 2 ^ Z.of_nat k <= 2 ^ 7).
    { split; [apply Z.pow_pos_nonneg; lia|apply Z.pow_le_mono_r; lia]. }
    assert (B : 0 <= lo * 2 ^ Z.of_nat k < 2 ^ 15) by nia.
    rewrite (testbit_high _ 15 15 B) by lia. rewrite Z.lxor_0_r.
    unfold uint16. rewrite Z.shiftl_mul_pow2, Z.mod_small by lia.
    rewrite Nat2Z.inj_succ, Z.pow_succ_r by lia. lia.
Qed.

Lemma at_MakeTable p i :
  0 <= i < 256 ->
  Crc16.at_ (Crc16.MakeTable p) i = Crc16.tableEntry (Crc16.Poly p) i.
Proof.
  intros Hi. unfold Crc16.at_, Crc16.MakeTable. cbn [Crc16.data].
  set (f := fun n : nat => Crc16.tableEntry (Crc16.Poly p) (Z.of_nat n)).
  rewrite (nth_indep _ 0 (f 0%nat)) by (rewrite length_map, length_seq; lia).
  rewrite map_nth, seq_nth by lia. unfold f. f_equal. lia.
Qed.
End Shift.

Lemma reverseBits_nonneg w x : 0 <= x -> 0 <= Crc16.reverseBits w x.
Proof.
  revert x. induction w; intros x Hx; cbn [Crc16.reverseBits]; [lia|].
  apply Z.lor_nonneg. split.
  - apply Z.shiftl_nonneg. apply Z.land_nonneg. right. lia.
  - apply IHw. apply Z.shiftr_nonneg. assumption.
Qed.

Lemma testbit_one m : Z.testbit 1 m = (m =? 0).
Proof. change 1 with (2 ^ 0). rewrite Z.pow2_bits_eqb by lia. apply Z.eqb_sym. Qed.

Lemma reverseBits_testbit w x n :
  0 <= n ->
  Z.testbit (Crc16.reverseBits w x) n
  = (n <? Z.of_nat w) && Z.testbit x (Z.of_nat w - 1 - n).
Proof.
  revert x n. induction w; intros x n Hn.
  - cbn [Crc16.reverseBits]. rewrite Z.bits_0.
    destruct (Z.ltb_spec n (Z.of_nat 0)); [lia|reflexivity].
  - cbn [Crc16.reverseBits].
    rewrite Z.lor_spec, Z.shiftl_spec, Z.land_spec, testbit_one, IHw by lia.
    destruct (Z.ltb_spec n (Z.of_nat w)), (Z.ltb_spec n (Z.of_nat (S w)));
      try lia; cbn [andb].
    + rewrite Z.shiftr_spec by lia.
      destruct (Z.eqb_spec (n - Z.of_nat w) 0); [lia|].
      rewrite andb_false_r. cbn [orb]. f_equal. lia.
    + destruct (Z.eqb_spec (n - Z.of_nat w) 0); [|lia].
      rewrite andb_true_r, orb_false_r. f_equal. lia.
Qed.

Lemma reverseBits_range w x : 0 <= x -> 0 <= Crc16.reverseBits w x < 2 ^ Z.of_nat w.
Proof.
  intros Hx. apply range_of_bits; [lia|now apply reverseBits_nonneg|].
  intros n Hn. rewrite reverseBits_testbit by lia.
  destruct (Z.ltb_spec n (Z.of_nat w)); [lia|reflexivity].
Qed.

Lemma reverseBits_inj w a b :
  0 <= a < 2 ^ Z.of_nat w -> 0 <= b < 2 ^ Z.of_nat w ->
  Crc16.reverseBits w a = Crc16.reverseBits w b -> a = b.
Proof.
  intros Ha Hb H. apply Z.bits_inj'; intros n Hn.
  destruct (Z.ltb_spec n (Z.of_nat w)) as [L|L].
  - apply (f_equal (fun z => Z.testbit z (Z.of_nat w - 1 - n))) in H.
    rewrite !reverseBits_testbit in H by lia.
    replace (Z.of_nat w - 1 - (Z.of_nat w - 1 - n)) with n in H by lia.
    destruct (Z.ltb_spec (Z.of_nat w - 1 - n) (Z.of_nat w)); [|lia].
    exact H.
  - rewrite (testbit_high a _ n Ha), (testbit_high b _ n Hb) by lia. reflexivity.
Qed.

Lemma poly_modbus_range : 0 <= 0x8005 < 2 ^ 16. Proof. lia. Qed.

Lemma updateByte_iter c b :
  0 <= c < 2 ^ 16 ->
  Crc16.updateByte modbusTable c b
  = Nat.iter 8 (Crc16.shiftStep 0x8005)
             (Z.lxor c (Z.shiftl (Crc16.ReverseByte (b2z b)) 8)).
Proof.
  intros Hc. unfold Crc16.updateByte, modbusTable.
  cbn [Crc16.params Crc16.MakeTable Crc16.RefIn Crc16.CRC16_MODBUS].
  fold modbusTable.
  pose proof (reverseBits_range 8 (b2z b) (proj1 (b2z_range b))) as Hr.
  fold (Crc16.ReverseByte (b2z b)) in Hr. change (2 ^ Z.of_nat 8) with 256 in Hr.
  set (r := Crc16.ReverseByte (b2z b)) in *.
  set (hi := Z.shiftr c 8 mod 256). set (lo := c mod 256).
  assert (Hhi : 0 <= hi < 256) by (apply Z.mod_pos_bound; lia).
  assert (Hlo : 0 <= lo < 256) by (apply Z.mod_pos_bound; lia).
  assert (Hi : 0 <= Z.lxor hi r < 256) by (apply (lxor_range 8); lia).
  assert (E : Z.lxor c (Z.shiftl r 8) = Z.lxor (Z.shiftl (Z.lxor hi r) 8) lo).
  { apply Z.bits_inj'; intros n Hn. unfold hi, lo.
    change 256 with (2 ^ 8).
    destruct (Z.ltb_spec n 8); tb.
    - rewrite !(Z.testbit_neg_r _ (n - 8)) by lia. bool_fin.
    - replace (n - 8 + 8) with n by lia.
      destruct (Z.ltb_spec (n - 8) 8); [bool_fin|].
      rewrite (testbit_high c 16 n) by lia. bool_fin. }
  rewrite E, iter_lxor by lia.
  rewrite (iter_small 0x8005 8 lo) by lia.
  unfold modbusTable. rewrite at_MakeTable by lia.
  cbn [Crc16.Poly Crc16.CRC16_MODBUS]. unfold Crc16.tableEntry.
  rewrite Z.lxor_comm. f_equal.
  - f_equal. unfold uint16. rewrite Z.shiftl_mul_pow2 by lia.
    apply Z.mod_small. change (2 ^ 8) with 256. change (2 ^ 16) with 65536. lia.
  - unfold uint16, lo. rewrite Z.shiftl_mul_pow2 by lia.
    change (2 ^ Z.of_nat 8) with 256. change (2 ^ 8) with 256.
    change (2 ^ 16) with 65536 in *. Z.div_mod_to_equations. lia.
Qed.

Lemma poly_modbus_odd : Z.testbit 0x8005 0 = true. Proof. reflexivity. Qed.

Lemma shifted_byte_range c b :
  0 <= c < 2 ^ 16 ->
  0 <= Z.lxor c (Z.shiftl (Crc16.ReverseByte (b2z b)) 8) < 2 ^ 16.
Proof.
  intros Hc. apply lxor_range; [lia|assumption|].
  pose proof (reverseBits_range 8 (b2z b) (proj1 (b2z_range b))) as Hr.
  fold (Crc16.ReverseByte (b2z b)) in Hr. change (2 ^ Z.of_nat 8) with 256 in Hr.
  rewrite Z.shiftl_mul_pow2 by lia. change (2 ^ 8) with 256.
  change (2 ^ 16) with 65536. lia.
Qed.

Lemma updateByte_range c b :
  0 <= c < 2 ^ 16 -> 0 <= Crc16.updateByte modbusTable c b < 2 ^ 16.
Proof.
  intros Hc. rewrite updateByte_iter by assumption.
  apply iter_range; [exact poly_modbus_range|now apply shifted_byte_range].
Qed.

Lemma Update_range bs c :
  0 <= c < 2 ^ 16 -> 0 <= Crc16.Update c bs modbusTable < 2 ^ 16.
Proof.
  revert c. unfold Crc16.Update.
  induction bs as [|b bs IH]; intros c Hc; cbn [fold_left]; [assumption|].
  apply IH. now apply updateByte_range.
Qed.

Lemma lxor_cancel_r a b c : Z.lxor a c = Z.lxor b c -> a = b.
Proof.
  intros H. apply (f_equal (fun z => Z.lxor z c)) in H.
  now rewrite !Z.lxor_assoc, Z.lxor_nilpotent, !Z.lxor_0_r in H.
Qed.

Lemma lxor_cancel_l a b c : Z.lxor c a = Z.lxor c b -> a = b.
Proof. rewrite !(Z.lxor_comm c). apply lxor_cancel_r. Qed.

Lemma updateByte_inj_crc c1 c2 b :
  0 <= c1 < 2 ^ 16 -> 0 <= c2 < 2 ^ 16 ->
  Crc16.updateByte modbusTable c1 b = Crc16.updateByte modbusTable c2 b ->
  c1 = c2.
Proof.
  intros H1 H2. rewrite !updateByte_iter by assumption. intros H.
  apply iter_inj in H;
    [|exact poly_modbus_range|exact poly_modbus_odd
     |now apply shifted_byte_range|now apply shifted_byte_range].
  now apply lxor_cancel_r in H.
Qed.

Lemma updateByte_inj_byte c b1 b2 :
  0 <= c < 2 ^ 16 ->
  Crc16.updateByte modbusTable c b1 = Crc16.updateByte modbusTable c b2 ->
  b1 = b2.
Proof.
  intros Hc. rewrite !updateByte_iter by assumption. intros H.
  apply iter_inj in H;
    [|exact poly_modbus_range|exact poly_modbus_odd
     |now apply shifted_byte_range|now apply shifted_byte_range].
  apply lxor_cancel_l in H. rewrite !Z.shiftl_mul_pow2 in H by lia.
  apply b2z_inj. apply (reverseBits_inj 8).
  - change (2 ^ Z.of_nat 8) with 256. apply b2z_range.
  - change (2 ^ Z.of_nat 8) with 256. apply b2z_range.
  - unfold Crc16.ReverseByte in H. lia.
Qed.

Lemma Update_inj bs c1 c2 :
  0 <= c1 < 2 ^ 16 -> 0 <= c2 < 2 ^ 16 ->
  Crc16.Update c1 bs modbusTable = Crc16.Update c2 bs modbusTable -> c1 = c2.
Proof.
  revert c1 c2. unfold Crc16.Update.
  induction bs as [|b bs IH]; intros c1 c2 H1 H2; cbn [fold_left]; [trivial|].
  intros H. apply IH in H; try now apply updateByte_range.
  now apply updateByte_inj_crc in H.
Qed.

Lemma calculateCRC16_unfold data :
  Serialcomm.calculateCRC16 data
  = Crc16.ReverseUint16 (Crc16.Update 0xFFFF data modbusTable).
Proof.
  unfold Serialcomm.calculateCRC16, Crc16.Checksum, Crc16.Complete.
  cbn [Crc16.params Crc16.MakeTable Crc16.RefOut Crc16.XorOut Crc16.Init
       Crc16.CRC16_MODBUS].
  now rewrite Z.lxor_0_r.
Qed.

Lemma calculateCRC16_range data :
  0 <= Serialcomm.calculateCRC16 data < 2 ^ 16.
Proof.
  rewrite calculateCRC16_unfold. apply (reverseBits_range 16).
  apply Update_range. lia.
Qed.

Lemma calculateCRC16_byte_change pre b b' suf :
  b <> b' ->
  Serialcomm.calculateCRC16 (pre ++ b :: suf)
  <> Serialcomm.calculateCRC16 (pre ++ b' :: suf).
Proof.
  intros Hb H. rewrite !calculateCRC16_unfold in H.
  assert (R : 0 <= Crc16.Update 0xFFFF pre modbusTable < 2 ^ 16)
    by (apply Update_range; lia).
  apply (reverseBits_inj 16) in H;
    try (change (2 ^ Z.of_nat 16) with (2 ^ 16); apply Update_range; lia).
  unfold Crc16.Update in H. rewrite !fold_left_app in H. cbn [fold_left] in H.
  fold (Crc16.Update 0xFFFF pre modbusTable) in H.
  apply (Update_inj suf) in H; try now apply updateByte_range.
  now apply updateByte_inj_byte in H.
Qed.

Lemma zero_updateByte b : Crc16.updateByte Crc16.zeroTable 0 b = 0.
Proof.
  unfold Crc16.updateByte, Crc16.at_, Crc16.zeroTable.
  cbn [Crc16.params Crc16.RefIn Crc16.data].
  rewrite nth_repeat. reflexivity.
Qed.

Lemma zeroTable_Checksum data : Crc16.Checksum data Crc16.zeroTable = 0.
Proof.
  unfold Crc16.Checksum, Crc16.Complete, Crc16.Update.
  cbn [Crc16.params Crc16.zeroTable Crc16.RefOut Crc16.XorOut Crc16.Init].
  fold Crc16.zeroTable. rewrite Z.lxor_0_r.
  induction data as [|b r IH]; cbn [fold_left]; [reflexivity|].
  now rewrite zero_updateByte.
Qed.

(** *** The MODBUS paths compute CRC-16/MODBUS *)

Lemma rev16_testbit x n :
  0 <= n -> Z.testbit (Crc16.ReverseUint16 x) n = (n <? 16) && Z.testbit x (15 - n).
Proof.
  intros Hn. unfold Crc16.ReverseUint16. rewrite reverseBits_testbit by assumption.
  reflexivity.
Qed.

Lemma rev16_lxor a b :
  Crc16.ReverseUint16 (Z.lxor a b)
  = Z.lxor (Crc16.ReverseUint16 a) (Crc16.ReverseUint16 b).
Proof.
  apply Z.bits_inj'; intros n Hn.
  rewrite Z.lxor_spec, !rev16_testbit, Z.lxor_spec by assumption.
  destruct (n <? 16); reflexivity.
Qed.

Lemma rev16_shift x :
  Crc16.ReverseUint16 (uint16 (Z.shiftl x 1))
  = Z.shiftr (Crc16.ReverseUint16 x) 1.
Proof.
  apply Z.bits_inj'; intros n Hn. unfold uint16.
  rewrite Z.shiftr_spec, !rev16_testbit by lia.
  destruct (Z.ltb_spec n 16), (Z.ltb_spec (n + 1) 16); try lia; cbn [andb].
  all: rewrite Z.testbit_mod_pow2, Z.shiftl_spec by lia.
  all: destruct (Z.ltb_spec (15 - n) 16); [|lia]; cbn [andb].
  - f_equal. lia.
  - apply Z.testbit_neg_r. lia.
Qed.

Lemma rev16_shiftStep x :
  Crc16.ReverseUint16 (Crc16.shiftStep 0x8005 x)
  = modbusBit (Crc16.ReverseUint16 x).
Proof.
  rewrite shiftStep_spec, rev16_lxor, rev16_shift. unfold modbusBit.
  rewrite rev16_testbit by lia. cbn [Z.ltb Z.compare andb]. change (15 - 0) with 15.
  destruct (Z.testbit x 15).
  - reflexivity.
  - now rewrite Z.lxor_0_r.
Qed.

Lemma rev16_iter k x :
  Crc16.ReverseUint16 (Nat.iter k (Crc16.shiftStep 0x8005) x)
  = Nat.iter k modbusBit (Crc16.ReverseUint16 x).
Proof.
  induction k; [reflexivity|]. rewrite !Nat.iter_succ, rev16_shiftStep.
  now rewrite IHk.
Qed.

Lemma rev16_shifted_byte b :
  Crc16.ReverseUint16 (Z.shiftl (Crc16.ReverseByte (b2z b)) 8) = b2z b.
Proof.
  pose proof (b2z_range b) as Hb.
  apply Z.bits_inj'; intros n Hn. rewrite rev16_testbit by assumption.
  destruct (Z.ltb_spec n 16); cbn [andb].
  - rewrite Z.shiftl_spec by lia.
    destruct (Z.ltb_spec n 8).
    + unfold Crc16.ReverseByte. rewrite reverseBits_testbit by lia.
      change (Z.of_nat 8) with 8.
      destruct (Z.ltb_spec (15 - n - 8) 8); [|lia]. cbn [andb]. f_equal. lia.
    + rewrite Z.testbit_neg_r by lia. symmetry.
      apply (testbit_high _ 8); [assumption|lia].
  - symmetry. apply (testbit_high _ 8); [assumption|lia].
Qed.

Lemma rev16_updateByte c b :
  0 <= c < 2 ^ 16 ->
  Crc16.ReverseUint16 (Crc16.updateByte modbusTable c b)
  = modbusByte (Crc16.ReverseUint16 c) b.
Proof.
  intros Hc. rewrite updateByte_iter by assumption.
  rewrite rev16_iter, rev16_lxor, rev16_shifted_byte. reflexivity.
Qed.

Lemma rev16_Update bs : forall c,
  0 <= c < 2 ^ 16 ->
  Crc16.ReverseUint16 (Crc16.Update c bs modbusTable)
  = fold_left modbusByte bs (Crc16.ReverseUint16 c).
Proof.
  unfold Crc16.Update.
  induction bs as [|b bs IH]; intros c Hc; cbn [fold_left]; [reflexivity|].
  rewrite IH by now apply updateByte_range. now rewrite rev16_updateByte.
Qed.

Lemma calculateCRC16_is_modbus data :
  Serialcomm.calculateCRC16 data = modbusReference data.
Proof.
  rewrite calculateCRC16_unfold, rev16_Update by lia. reflexivity.
Qed.

(** ** Feeding one frame to the serialcomm receiver *)

Lemma last_default {A} (l : list A) (x d1 d2 : A) :
  last (x :: l) d1 = last (x :: l) d2.
Proof.
  revert x. induction l as [|y l IH]; intros x; [reflexivity|].
  change (last (y :: l) d1 = last (y :: l) d2). apply IH.
Qed.

Lemma lastTime_cons t x cs :
  cs <> [] -> lastTime t (x :: cs) = lastTime (fst x) cs.
Proof.
  destruct cs as [|c cs]; [easy|]. intros _. unfold lastTime.
  cbn [map]. change (last (fst c :: map fst cs) t = last (fst c :: map fst cs) (fst x)).
  apply last_default.
Qed.

Lemma app_eq_prefix {A} (a b c d : list A) :
  a ++ b = c ++ d -> (List.length c <= List.length a)%nat ->
  firstn (List.length c) a = c /\ skipn (List.length c) a ++ b = d.
Proof.
  intros H L. split.
  - apply (f_equal (firstn (List.length c))) in H.
    rewrite !firstn_app, Nat.sub_diag, firstn_O, app_nil_r, firstn_all in H.
    replace (List.length c - List.length a)%nat with 0%nat in H by lia.
    now rewrite firstn_O, app_nil_r in H.
  - apply (f_equal (skipn (List.length c))) in H.
    rewrite !skipn_app, Nat.sub_diag, skipn_all in H.
    replace (List.length c - List.length a)%nat with 0%nat in H by lia.
    exact H.
Qed.

Lemma len_app {A} (a b : list A) : len (a ++ b) = len a + len b.
Proof. unfold len. rewrite length_app. lia. Qed.

Lemma len_nonneg {A} (a : list A) : 0 <= len a.
Proof. unfold len. lia. Qed.

Section FrameFeeding.
Variable lib : GoLib.
Variable cfg : Serialcomm.SerialConfig.
Variables hdr pkt crc : list byte.
Variable n : Z.
Hypothesis Hhdr : List.length hdr = 4%nat.
Hypothesis HU : BigEndian.Uint32 hdr = Some n.
Hypothesis Hn : 0 < n <= Serialcomm.MaxFrameLength cfg.
Hypothesis Hpkt : len pkt = n.
Hypothesis Hcrc : List.length crc = 2%nat.

Lemma frameStage_waiting buf now :
  len buf < n + 2 ->
  Serialcomm.frameStage lib cfg (mkRecv buf n now) = Some (mkRecv buf n now, []).
Proof.
  intros H. unfold Serialcomm.frameStage, Buffer.Len. cbn [expectedLength buffer].
  destruct (Z.geb_spec (len buf) (n + 2)); [lia|].
  now rewrite andb_false_r.
Qed.

Lemma step_absorb sofar data rest t now :
  sofar ++ data ++ rest = hdr ++ pkt ++ crc -> data <> [] ->
  Serialcomm.step lib cfg (absorbed n sofar t) (ReadOk now data)
  = match rest with
    | [] => Serialcomm.frameStage lib cfg (mkRecv (pkt ++ crc) n now)
    | _ => Some (absorbed n (sofar ++ data) now, [])
    end.
Proof.
  intros E Hd. set (tgt := absorbed n (sofar ++ data) now).
  assert (Ld : (0 < List.length data)%nat) by (destruct data; [easy|cbn; lia]).
  assert (Ltot : (List.length sofar + List.length data + List.length rest
                  = 4 + Z.to_nat n + 2)%nat).
  { apply (f_equal (@List.length byte)) in E. rewrite !length_app in E.
    unfold len in Hpkt. lia. }
  assert (Tail : (4 <= List.length (sofar ++ data))%nat ->
            Serialcomm.frameStage lib cfg
              (mkRecv (skipn 4 (sofar ++ data)) n now)
            = match rest with
              | [] => Serialcomm.frameStage lib cfg (mkRecv (pkt ++ crc) n now)
              | _ => Some (tgt, [])
              end).
  { intros L4. rewrite app_assoc in E.
    destruct (app_eq_prefix _ _ _ _ E) as [_ E2]; [lia|]. rewrite Hhdr in E2.
    destruct rest as [|r0 rest'].
    - rewrite app_nil_r in E2. now rewrite E2.
    - rewrite frameStage_waiting.
      + unfold tgt, absorbed. destruct (Nat.ltb_spec (List.length (sofar ++ data)) 4); [lia|reflexivity].
      + apply (f_equal (@List.length byte)) in E2.
        rewrite !length_app in E2. cbn [List.length] in E2.
        unfold len in *. lia. }
  unfold Serialcomm.step.
  replace (len data =? 0) with false by (unfold len; lia).
  unfold absorbed.
  destruct (Nat.ltb_spec (List.length sofar) 4) as [Ls|Ls];
    unfold Buffer.Write, Buffer.Len, Buffer.Next;
    cbn [buffer expectedLength lastDataTime].
  - cbn [Z.eqb andb].
    destruct (Z.geb_spec (len (sofar ++ data)) 4) as [G|G].
    + change (Z.to_nat 4) with 4%nat.
      assert (L4 : (4 <= List.length (sofar ++ data))%nat) by (unfold len in G; lia).
      rewrite app_assoc in E.
      destruct (app_eq_prefix _ _ _ _ E) as [E1 _]; [lia|]. rewrite Hhdr in E1.
      rewrite E1, HU.
      unfold Serialcomm.MaxFrameLength in Hn.
      replace (n >? uint32 (Serialcomm.MaxLength cfg)) with false by lia.
      replace (n =? 0) with false by lia. cbn [orb].
      apply Tail. assumption.
    + destruct rest as [|r0 rest'].
      * cbn [List.length] in Ltot. unfold len in *. rewrite length_app in G. lia.
      * unfold Serialcomm.frameStage. cbn [expectedLength Z.gtb Z.compare andb].
        unfold tgt, absorbed.
        destruct (Nat.ltb_spec (List.length (sofar ++ data)) 4); [reflexivity|].
        unfold len in G. lia.
  - replace (n =? 0) with false by lia. cbn [andb].
    assert (S4 : skipn 4 sofar ++ data = skipn 4 (sofar ++ data)).
    { rewrite skipn_app. replace (4 - List.length sofar)%nat with 0%nat by lia.
      reflexivity. }
    rewrite S4. apply Tail. rewrite length_app. lia.
Qed.

Lemma run_absorb chunks : forall sofar t,
  chunks <> [] ->
  Forall (fun c => snd c <> []) chunks ->
  sofar ++ List.concat (map snd chunks) = hdr ++ pkt ++ crc ->
  forall res,
    Serialcomm.frameStage lib cfg
      (mkRecv (pkt ++ crc) n (lastTime t chunks)) = Some res ->
    run (Serialcomm.step lib cfg) (absorbed n sofar t) (reads chunks) = Some res.
Proof.
  induction chunks as [|[now data] cs IH]; intros sofar t Hne Hall E res Hres;
    [easy|].
  apply Forall_cons_iff in Hall. destruct Hall as [Hd Hcs]. cbn [snd] in Hd.
  cbn [reads map fst snd run]. cbn [map List.concat snd] in E.
  rewrite (step_absorb sofar data (List.concat (map snd cs)) t now E Hd).
  destruct cs as [|c cs'].
  - cbn [map List.concat]. unfold lastTime in Hres. cbn in Hres. rewrite Hres.
    destruct res as [st e]. cbn. now rewrite app_nil_r.
  - assert (Hc : List.concat (map snd (c :: cs')) <> []).
    { apply Forall_cons_iff in Hcs. destruct Hcs as [Hc0 _]. cbn.
      destruct (snd c); [easy|discriminate]. }
    destruct (List.concat (map snd (c :: cs'))) eqn:Ec; [easy|]. rewrite <- Ec in *.
    fold (reads (c :: cs')).
    rewrite (IH (sofar ++ data) now) with (res := res); [destruct res; reflexivity|discriminate|assumption| |].
    + now rewrite <- app_assoc.
    + rewrite lastTime_cons in Hres by discriminate. exact Hres.
Qed.
End FrameFeeding.

Lemma frameStage_complete lib cfg pkt crc n now rc :
  len pkt = n -> 0 < n -> List.length crc = 2%nat ->
  BigEndian.Uint16 crc = Some rc ->
  Serialcomm.frameStage lib cfg (mkRecv (pkt ++ crc) n now)
  = if negb (rc =? Serialcomm.calculateCRC16 pkt) then
      Some (mkRecv [] 0 now, [Feedback "RETRY"])
    else
      match json_Unmarshal_Message lib pkt with
      | None => Some (mkRecv [] 0 now, [Feedback "RETRY"])
      | Some msg =>
          match base64_DecodeString lib (Message.Payload msg) with
          | None => Some (mkRecv [] n now, [])
          | Some payloadBytes =>
              match json_Unmarshal_Payload lib payloadBytes with
              | None => Some (mkRecv [] n now, [])
              | Some payload =>
                  Some (mkRecv [] 0 now,
                        (if Serialcomm.ReadCallback cfg
                         then [Callback msg payload] else [])
                        ++ [Feedback "OK"])
              end
          end
      end.
Proof.
  intros Hp Hn Hc HU. unfold Serialcomm.frameStage, Buffer.Len, Buffer.Next.
  cbn [buffer expectedLength].
  replace (n >? 0) with true by lia.
  replace (len (pkt ++ crc) >=? n + 2) with true
    by (rewrite len_app; unfold len in *; lia).
  cbn [andb].
  assert (L : Z.to_nat n = List.length pkt) by (unfold len in Hp; lia).
  rewrite L, firstn_app, Nat.sub_diag, firstn_O, app_nil_r, firstn_all.
  rewrite skipn_app, Nat.sub_diag, skipn_all. cbn [app skipn].
  change (Z.to_nat 2) with 2%nat. rewrite <- Hc, firstn_all, skipn_all, HU.
  reflexivity.
Qed.

Lemma Send_frame_shape cfg P :
  0 < len P <= Serialcomm.MaxFrameLength cfg ->
  Serialcomm.Send_frame P
  = BigEndian.PutUint32 (len P) ++ P
    ++ BigEndian.PutUint16 (Serialcomm.calculateCRC16 P)
  /\ BigEndian.Uint32 (BigEndian.PutUint32 (len P)) = Some (len P).
Proof.
  intros H. unfold Serialcomm.MaxFrameLength, uint32 in H.
  assert (B : 0 <= len P < 2 ^ 32).
  { pose proof (Z.mod_pos_bound (Serialcomm.MaxLength cfg) (2 ^ 32)). lia. }
  split.
  - unfold Serialcomm.Send_frame, uint32. now rewrite Z.mod_small.
  - rewrite <- (app_nil_r (BigEndian.PutUint32 (len P))).
    now apply Uint32_PutUint32.
Qed.

Lemma Uint16_of_crc P :
  BigEndian.Uint16 (BigEndian.PutUint16 (Serialcomm.calculateCRC16 P))
  = Some (Serialcomm.calculateCRC16 P).
Proof.
  rewrite <- (app_nil_r (BigEndian.PutUint16 _)).
  apply Uint16_PutUint16, calculateCRC16_range.
Qed.

(** C1 (round trip), as the code has it. Let [P] be a payload whose length
    is positive and at most [uint32(MaxLength)], which [json.Unmarshal] turns
    into a [Message] whose [payload] member is base64 text of a JSON document
    that unmarshals into a [Payload], and let a callback be configured. Then
    feeding what [Send] writes for [P] to a fresh receiver, in one read or cut
    into any number of non-empty reads, calls the callback exactly once with
    the decoded message and payload, writes exactly one OK and nothing else,
    and leaves the buffer empty and [expectedLength] unset. *)
Theorem roundtrip lib cfg P msg payloadBytes payload chunks t0 :
  0 < len P <= Serialcomm.MaxFrameLength cfg ->
  json_Unmarshal_Message lib P = Some msg ->
  base64_DecodeString lib (Message.Payload msg) = Some payloadBytes ->
  json_Unmarshal_Payload lib payloadBytes = Some payload ->
  Serialcomm.ReadCallback cfg = true ->
  chunks <> [] ->
  Forall (fun c => snd c <> []) chunks ->
  List.concat (map snd chunks) = Serialcomm.Send_frame P ->
  run (Serialcomm.step lib cfg) (fresh t0) (reads chunks)
  = Some (mkRecv [] 0 (lastTime t0 chunks),
          [Callback msg payload; Feedback "OK"]).
Proof.
  intros HP Hm Hb Hp Hcb Hne Hall E.
  destruct (Send_frame_shape cfg P HP) as [F HU]. rewrite F in E.
  change (fresh t0) with (absorbed (len P) [] t0).
  apply (run_absorb lib cfg (BigEndian.PutUint32 (len P)) P
           (BigEndian.PutUint16 (Serialcomm.calculateCRC16 P)) (len P));
    try assumption; try reflexivity.
  rewrite (frameStage_complete _ _ _ _ _ _ (Serialcomm.calculateCRC16 P));
    try reflexivity; try lia; [|apply Uint16_of_crc].
  rewrite Z.eqb_refl. cbn [negb]. rewrite Hm, Hb, Hp, Hcb. reflexivity.
Qed.

Lemma roundtrip_witness :
  0 < len json_payload_e30 <= Serialcomm.MaxFrameLength demoConfig
  /\ json_Unmarshal_Message sampleLib json_payload_e30
     = Some (Message.mk "" "" "" "" 0 "e30=" "")
  /\ run (Serialcomm.step sampleLib demoConfig) (fresh 0)
       (reads (split3 (Serialcomm.Send_frame json_payload_e30)))
     = Some (mkRecv [] 0 3,
             [Callback (Message.mk "" "" "" "" 0 "e30=" "") Payload.zero;
              Feedback "OK"]).
Proof.
  split; [vm_compute; split; [reflexivity|discriminate]|].
  split; [reflexivity|].
  apply (roundtrip sampleLib demoConfig json_payload_e30
           (Message.mk "" "" "" "" 0 "e30=" "") json_empty_object Payload.zero
           (split3 (Serialcomm.Send_frame json_payload_e30)) 0).
  - vm_compute; split; [reflexivity|discriminate].
  - reflexivity.
  - reflexivity.
  - reflexivity.
  - reflexivity.
  - discriminate.
  - repeat constructor; discriminate.
  - vm_compute. reflexivity.
Defined.

(** C1 as stated fails: the seven bytes of the JSON text with the single
    member a = 1 have an accepted length and unmarshal into a [Message], yet
    feeding their frame to a fresh receiver, whole or in reads of 3, 6 and 4
    bytes, yields no callback and no OK (the [payload] member is empty, and
    no bytes are not a JSON document). *)
Lemma roundtrip_counterexample :
  0 < len json_a1 <= Serialcomm.MaxFrameLength demoConfig
  /\ json_Unmarshal_Message sampleLib json_a1 = Some Message.zero
  /\ Serialcomm.ReadCallback demoConfig = true
  /\ run (Serialcomm.step sampleLib demoConfig) (fresh 0)
       (reads [(1, Serialcomm.Send_frame json_a1)])
     = Some (mkRecv [] 7 1, [])
  /\ run (Serialcomm.step sampleLib demoConfig) (fresh 0)
       (reads (split3 (Serialcomm.Send_frame json_a1)))
     = Some (mkRecv [] 7 3, []).
Proof.
  split; [vm_compute; split; [reflexivity|discriminate]|].
  repeat split; vm_compute; reflexivity.
Qed.

Lemma len_nonempty {A} (l : list A) : l <> [] -> (len l =? 0) = false.
Proof.
  destruct l; [easy|]. intros _. apply Z.eqb_neq. unfold len.
  cbn [List.length]. lia.
Qed.

Lemma run_app body rs1 : forall rs2 st st1 e1,
  run body st rs1 = Some (st1, e1) ->
  run body st (rs1 ++ rs2)
  = match run body st1 rs2 with
    | None => None
    | Some (st2, e2) => Some (st2, e1 ++ e2)
    end.
Proof.
  induction rs1 as [|r rs1 IH]; intros rs2 st st1 e1; cbn [run app].
  - intros [= <- <-]. now destruct (run body st rs2) as [[? ?]|].
  - destruct (body st r) as [[sa ea]|]; [|discriminate].
    destruct (run body sa rs1) as [[sb eb]|] eqn:E; [|discriminate].
    intros [= <- <-]. rewrite (IH rs2 sa sb eb E).
    destruct (run body sb rs2) as [[? ?]|]; [|reflexivity].
    now rewrite app_assoc.
Qed.

Lemma lastTime_step t c cs : lastTime t (c :: cs) = lastTime (fst c) cs.
Proof.
  destruct cs as [|c' cs]; [reflexivity|]. apply lastTime_cons. discriminate.
Qed.

Lemma frameStage_complete_more lib cfg pkt crc more n now rc :
  len pkt = n -> 0 < n -> List.length crc = 2%nat ->
  BigEndian.Uint16 crc = Some rc ->
  Serialcomm.frameStage lib cfg (mkRecv (pkt ++ crc ++ more) n now)
  = if negb (rc =? Serialcomm.calculateCRC16 pkt) then
      Some (mkRecv [] 0 now, [Feedback "RETRY"])
    else
      match json_Unmarshal_Message lib pkt with
      | None => Some (mkRecv [] 0 now, [Feedback "RETRY"])
      | Some msg =>
          match base64_DecodeString lib (Message.Payload msg) with
          | None => Some (mkRecv more n now, [])
          | Some payloadBytes =>
              match json_Unmarshal_Payload lib payloadBytes with
              | None => Some (mkRecv more n now, [])
              | Some payload =>
                  Some (mkRecv [] 0 now,
                        (if Serialcomm.ReadCallback cfg
                         then [Callback msg payload] else [])
                        ++ [Feedback "OK"])
              end
          end
      end.
Proof.
  intros Hp Hn Hc HU. unfold Serialcomm.frameStage, Buffer.Len, Buffer.Next.
  cbn [buffer expectedLength].
  replace (n >? 0) with true by lia.
  replace (len (pkt ++ crc ++ more) >=? n + 2) with true.
  2:{ symmetry. apply Z.geb_le. rewrite !len_app. unfold len in *. lia. }
  cbn [andb].
  assert (L : Z.to_nat n = List.length pkt) by (unfold len in Hp; lia).
  rewrite L, firstn_app, Nat.sub_diag, firstn_O, app_nil_r, firstn_all.
  rewrite skipn_app, Nat.sub_diag, skipn_all. cbn [app skipn].
  change (Z.to_nat 2) with 2%nat.
  rewrite <- Hc, firstn_app, Nat.sub_diag, firstn_O, app_nil_r, firstn_all.
  rewrite skipn_app, Nat.sub_diag, skipn_all. cbn [app skipn].
  rewrite HU. reflexivity.
Qed.

Lemma step_absorb_more lib cfg hdr pkt crc n sofar d1 more t now :
  List.length hdr = 4%nat -> BigEndian.Uint32 hdr = Some n ->
  0 < n <= Serialcomm.MaxFrameLength cfg ->
  sofar ++ d1 = hdr ++ pkt ++ crc -> d1 <> [] ->
  Serialcomm.step lib cfg (absorbed n sofar t) (ReadOk now (d1 ++ more))
  = Serialcomm.frameStage lib cfg (mkRecv (pkt ++ crc ++ more) n now).
Proof.
  intros Hhdr HU Hn E Hd.
  assert (Ld : (0 < List.length d1)%nat) by (destruct d1; [easy|cbn; lia]).
  assert (E4 : skipn 4 (sofar ++ d1) = pkt ++ crc).
  { rewrite E, <- Hhdr, skipn_app, Nat.sub_diag, skipn_all. reflexivity. }
  assert (F4 : firstn 4 (sofar ++ d1) = hdr).
  { rewrite E, <- Hhdr, firstn_app, Nat.sub_diag, firstn_O, app_nil_r.
    apply firstn_all. }
  assert (L4 : (4 <= List.length (sofar ++ d1))%nat).
  { rewrite E, length_app. lia. }
  unfold Serialcomm.step.
  rewrite (len_nonempty (d1 ++ more)) by (destruct d1; [easy|discriminate]).
  unfold absorbed.
  destruct (Nat.ltb_spec (List.length sofar) 4) as [Ls|Ls];
    unfold Buffer.Write, Buffer.Len, Buffer.Next;
    cbn [buffer expectedLength lastDataTime].
  - cbn [Z.eqb andb]. rewrite app_assoc.
    replace (len ((sofar ++ d1) ++ more) >=? 4) with true.
    2:{ symmetry. apply Z.geb_le. rewrite len_app.
        pose proof (len_nonneg more). unfold len in *. lia. }
    change (Z.to_nat 4) with 4%nat.
    rewrite firstn_app, skipn_app.
    replace (4 - List.length (sofar ++ d1))%nat with 0%nat by lia.
    rewrite firstn_O, app_nil_r, F4, E4, HU. cbn [skipn].
    unfold Serialcomm.MaxFrameLength in Hn.
    replace (n >? uint32 (Serialcomm.MaxLength cfg)) with false by lia.
    replace (n =? 0) with false by lia. cbn [orb].
    now rewrite <- app_assoc.
  - replace (n =? 0) with false by lia. cbn [andb].
    rewrite skipn_app in E4.
    replace (4 - List.length sofar)%nat with 0%nat in E4 by lia.
    change (skipn 0 d1) with d1 in E4.
    rewrite app_assoc, E4. now rewrite <- app_assoc.
Qed.

Lemma run_absorb_prefix lib cfg hdr pkt crc n :
  List.length hdr = 4%nat -> BigEndian.Uint32 hdr = Some n ->
  0 < n <= Serialcomm.MaxFrameLength cfg ->
  len pkt = n -> List.length crc = 2%nat ->
  forall chunks sofar t rest,
    Forall (fun c => snd c <> []) chunks -> rest <> [] ->
    sofar ++ List.concat (map snd chunks) ++ rest = hdr ++ pkt ++ crc ->
    run (Serialcomm.step lib cfg) (absorbed n sofar t) (reads chunks)
    = Some (absorbed n (sofar ++ List.concat (map snd chunks))
                     (lastTime t chunks), []).
Proof.
  intros Hhdr HU Hn Hpkt Hcrc.
  induction chunks as [|[now data] cs IH]; intros sofar t rest Hall Hrest E.
  - cbn. now rewrite app_nil_r.
  - apply Forall_cons_iff in Hall. destruct Hall as [Hd Hcs]. cbn [snd] in Hd.
    cbn [reads map fst snd run List.concat] in *.
    rewrite <- !app_assoc in E.
    rewrite (step_absorb lib cfg hdr pkt crc n Hhdr HU Hn Hpkt Hcrc sofar data
               (List.concat (map snd cs) ++ rest) t now E Hd).
    destruct (List.concat (map snd cs) ++ rest) eqn:ER.
    { apply app_eq_nil in ER. destruct ER as [_ ER]. contradiction. }
    rewrite <- ER in E. clear ER.
    fold (reads cs).
    rewrite (IH (sofar ++ data) now rest Hcs Hrest)
      by (now rewrite <- !app_assoc).
    rewrite lastTime_step. cbn [fst app]. now rewrite <- app_assoc.
Qed.

(** *** Flipping one bit *)
Lemma flipByte_neq j b : (j < 8)%nat -> flipByte j b <> b.
Proof.
  intros Hj H. apply (f_equal b2z) in H. unfold flipByte in H.
  rewrite b2z_z2b in H.
  assert (P : 0 < 2 ^ Z.of_nat j <= 2 ^ 7).
  { split; [apply Z.pow_pos_nonneg; lia|apply Z.pow_le_mono_r; lia]. }
  rewrite Z.shiftl_mul_pow2, Z.mul_1_l in H by lia.
  change 256 with (2 ^ 8) in H. rewrite Z.mod_small in H.
  - rewrite <- (Z.lxor_0_r (b2z b)) in H at 2. apply lxor_cancel_l in H. lia.
  - apply lxor_range; [lia|apply b2z_range|]. change (2 ^ 8) with 256.
    change (2 ^ 7) with 128 in P. lia.
Qed.

Lemma flipBit_length k bs : List.length (flipBit k bs) = List.length bs.
Proof.
  revert k. induction bs as [|b r IH]; intros k; cbn [flipBit]; [reflexivity|].
  destruct (k <? 8)%nat; cbn [List.length]; [reflexivity|]. now rewrite IH.
Qed.

Lemma flipBit_app_l k a b :
  (k < 8 * List.length a)%nat -> flipBit k (a ++ b) = flipBit k a ++ b.
Proof.
  revert k. induction a as [|x a IH]; intros k Hk; cbn [List.length] in Hk; [lia|].
  cbn [app flipBit]. destruct (Nat.ltb_spec k 8); [reflexivity|].
  cbn [app]. f_equal. apply IH. lia.
Qed.

Lemma flipBit_app_r k a b :
  (8 * List.length a <= k)%nat ->
  flipBit k (a ++ b) = a ++ flipBit (k - 8 * List.length a) b.
Proof.
  revert k. induction a as [|x a IH]; intros k Hk; cbn [List.length] in *.
  - cbn [app]. f_equal. lia.
  - cbn [app flipBit]. destruct (Nat.ltb_spec k 8); [lia|].
    f_equal. rewrite IH by lia. do 2 f_equal. lia.
Qed.

Lemma flipBit_split k a :
  (k < 8 * List.length a)%nat ->
  exists pre b b' suf, b <> b' /\ a = pre ++ b :: suf /\ flipBit k a = pre ++ b' :: suf.
Proof.
  revert k. induction a as [|x a IH]; intros k Hk; cbn [List.length] in Hk; [lia|].
  cbn [flipBit]. destruct (Nat.ltb_spec k 8).
  - exists [], x, (flipByte k x), a. repeat split.
    intros E. symmetry in E. now apply flipByte_neq in E.
  - destruct (IH (k - 8)%nat) as (pre & b & b' & suf & N & E1 & E2); [lia|].
    exists (x :: pre), b, b', suf. repeat split; [assumption| |]; cbn [app]; now f_equal.
Qed.

Lemma flipped_frame_mismatch P k :
  (k < 8 * (List.length P + 2))%nat ->
  exists pkt' crc' rc,
    flipBit k (P ++ BigEndian.PutUint16 (Serialcomm.calculateCRC16 P))
    = pkt' ++ crc'
    /\ len pkt' = len P
    /\ List.length crc' = 2%nat
    /\ BigEndian.Uint16 crc' = Some rc
    /\ rc <> Serialcomm.calculateCRC16 pkt'.
Proof.
  intros Hk.
  set (crcb := BigEndian.PutUint16 (Serialcomm.calculateCRC16 P)).
  destruct (Nat.ltb_spec k (8 * List.length P)) as [L|L].
  - destruct (flipBit_split k P L) as (pre & b & b' & suf & N & E1 & E2).
    exists (flipBit k P), crcb, (Serialcomm.calculateCRC16 P).
    split; [now apply flipBit_app_l|].
    split; [unfold len; now rewrite flipBit_length|].
    split; [reflexivity|]. split; [apply Uint16_of_crc|].
    rewrite E2. rewrite E1 at 1. now apply calculateCRC16_byte_change.
  - set (k' := (k - 8 * List.length P)%nat).
    assert (Lc : List.length (flipBit k' crcb) = 2%nat)
      by (rewrite flipBit_length; reflexivity).
    destruct (flipBit_split k' crcb) as (pre & b & b' & suf & N & E1 & E2).
    { subst k'. change (List.length crcb) with 2%nat. lia. }
    destruct (flipBit k' crcb) as [|c0 [|c1 [|? ?]]] eqn:Ef; try discriminate.
    exists P, [c0; c1], (b2z c1 + b2z c0 * 2 ^ 8).
    split; [rewrite flipBit_app_r by assumption; fold k'; now rewrite Ef|].
    split; [reflexivity|]. split; [reflexivity|]. split; [apply Uint16_value|].
    intros C.
    assert (Q : crcb = [c0; c1]).
    { apply (Uint16_inj _ _ (Serialcomm.calculateCRC16 P) (b2z c1 + b2z c0 * 2 ^ 8));
        try reflexivity; [apply Uint16_of_crc|apply Uint16_value|now symmetry]. }
    rewrite E1, E2 in Q. apply app_inv_head in Q. injection Q as Q.
    contradiction.
Qed.

(** C7 (single-bit integrity). Take a frame of the serialcomm sender whose
    length is accepted, and flip any one bit of its payload or of its two
    checksum bytes. The checksum the receiver recomputes over the payload it
    extracts then differs from the one it received. Let the damaged frame
    come in any number of non-empty reads, the last of which may carry any
    further bytes [more] behind the frame. Then a fresh receiver ends with an
    empty buffer, the bytes behind the frame discarded with it, and with
    [expectedLength] unset, having written exactly one RETRY and called the
    callback not at all. *)
Theorem single_bit lib cfg P k init tl d1 more t0 :
  0 < len P <= Serialcomm.MaxFrameLength cfg ->
  (k < 8 * (List.length P + 2))%nat ->
  Forall (fun c => snd c <> []) init ->
  d1 <> [] ->
  List.concat (map snd init) ++ d1
  = BigEndian.PutUint32 (uint32 (len P))
    ++ flipBit k (P ++ BigEndian.PutUint16 (Serialcomm.calculateCRC16 P)) ->
  (exists pkt' crc' rc,
     flipBit k (P ++ BigEndian.PutUint16 (Serialcomm.calculateCRC16 P))
     = pkt' ++ crc'
     /\ len pkt' = len P
     /\ BigEndian.Uint16 crc' = Some rc
     /\ rc <> Serialcomm.calculateCRC16 pkt')
  /\ run (Serialcomm.step lib cfg) (fresh t0)
         (reads (init ++ [(tl, d1 ++ more)]))
     = Some (mkRecv [] 0 tl, [Feedback "RETRY"]).
Proof.
  intros HP Hk Hall Hd E.
  destruct (flipped_frame_mismatch P k Hk)
    as (pkt' & crc' & rc & Ef & Lp & Lc & U & N).
  split; [now exists pkt', crc', rc|].
  destruct (Send_frame_shape cfg P HP) as [F HU].
  assert (U32 : uint32 (len P) = len P).
  { unfold Serialcomm.MaxFrameLength, uint32 in *.
    pose proof (Z.mod_pos_bound (Serialcomm.MaxLength cfg) (2 ^ 32)).
    apply Z.mod_small. lia. }
  rewrite U32, Ef in E.
  unfold reads. rewrite map_app. fold (reads init). cbn [map fst snd].
  change (fresh t0) with (absorbed (len P) [] t0).
  rewrite (run_app _ _ _ _ _ _
             (run_absorb_prefix lib cfg (BigEndian.PutUint32 (len P)) pkt' crc'
                (len P) eq_refl HU HP Lp Lc init [] t0 d1 Hall Hd E)).
  cbn [run app].
  rewrite (step_absorb_more lib cfg (BigEndian.PutUint32 (len P)) pkt' crc'
             (len P) _ d1 more _ tl eq_refl HU HP E Hd).
  rewrite (frameStage_complete_more _ _ _ _ _ _ _ rc); try assumption; try lia.
  destruct (Z.eqb_spec rc (Serialcomm.calculateCRC16 pkt')); [contradiction|].
  reflexivity.
Qed.

Lemma single_bit_witness :
  0 < len json_a1 <= Serialcomm.MaxFrameLength demoConfig
  /\ (10 < 8 * (List.length json_a1 + 2))%nat
  /\ run (Serialcomm.step sampleLib demoConfig) (fresh 0)
       (reads ([(1, [x00; x00; x00]); (2, [x07; x7b; x26; x61; x22; x3a])]
               ++ [(3, [x31; x7d; x89; x94] ++ [x0a; x41])]))
     = Some (mkRecv [] 0 3, [Feedback "RETRY"]).
Proof.
  split; [vm_compute; split; [reflexivity|discriminate]|].
  split; [vm_compute; repeat constructor|].
  apply (single_bit sampleLib demoConfig json_a1 10
           [(1, [x00; x00; x00]); (2, [x07; x7b; x26; x61; x22; x3a])]
           3 [x31; x7d; x89; x94] [x0a; x41] 0).
  - vm_compute; split; [reflexivity|discriminate].
  - vm_compute; repeat constructor.
  - repeat constructor; discriminate.
  - discriminate.
  - vm_compute. reflexivity.
Defined.

(** The loop of [Start] never panics: both decoders get the bytes they index. *)
Lemma Serialcomm_frameStage_total lib cfg st :
  exists res, Serialcomm.frameStage lib cfg st = Some res.
Proof.
  unfold Serialcomm.frameStage, Buffer.Next, Buffer.Len.
  destruct ((expectedLength st >? 0) && _) eqn:G; [|eauto].
  apply andb_true_iff in G. destruct G as [G1 G2].
  assert (L : (2 <= List.length (skipn (Z.to_nat (expectedLength st)) (buffer st)))%nat).
  { rewrite length_skipn. unfold len in G2. lia. }
  destruct (skipn (Z.to_nat (expectedLength st)) (buffer st)) as [|c0 [|c1 r]];
    try (cbn [List.length] in L; lia).
  change (Z.to_nat 2) with 2%nat. cbn [firstn skipn]. rewrite Uint16_value.
  destruct (negb _); [eauto|].
  destruct (json_Unmarshal_Message lib _); [|eauto].
  destruct (base64_DecodeString lib _); [|eauto].
  destruct (json_Unmarshal_Payload lib _); eauto.
Qed.

Lemma Serialcomm_step_total lib cfg st r :
  exists res, Serialcomm.step lib cfg st r = Some res.
Proof.
  destruct r as [|now data]; cbn [Serialcomm.step]; [eauto|].
  destruct (len data =? 0).
  - destruct (_ && _); eauto.
  - unfold Buffer.Write, Buffer.Len, Buffer.Next. cbn [buffer expectedLength].
    destruct ((expectedLength st =? 0) && _) eqn:G;
      [|apply Serialcomm_frameStage_total].
    apply andb_true_iff in G. destruct G as [_ G]. apply Z.geb_le in G.
    change (Z.to_nat 4) with 4%nat.
    destruct (buffer st ++ data) as [|b0 [|b1 [|b2 [|b3 r]]]];
      try (unfold len in G; cbn [List.length] in G; lia).
    cbn [firstn skipn]. rewrite Uint32_value.
    destruct (_ || _); [eauto|apply Serialcomm_frameStage_total].
Qed.

(** ** The senders *)

Lemma wire_snoc w c c' b : wire (mkPort (w ++ [b]) c) = wire (mkPort w c') ++ b.
Proof. unfold wire. cbn [written]. rewrite concat_app. cbn. now rewrite app_nil_r. Qed.

Lemma Port_Write_wire p b p' :
  Port_Write p b = (p', true) -> wire p' = wire p ++ b.
Proof.
  unfold Port_Write. destruct p as [w [[|k]|]]; cbn [credit written];
    intros [= <-]; apply wire_snoc.
Qed.

Lemma Port_Write_written p b p' :
  Port_Write p b = (p', true) -> written p' = written p ++ [b].
Proof.
  unfold Port_Write. destruct p as [w [[|k]|]]; cbn [credit written];
    intros [= <-]; reflexivity.
Qed.

Lemma Port_Write_idle p b :
  credit p = None ->
  exists p', Port_Write p b = (p', true) /\ credit p' = None.
Proof.
  intros H. unfold Port_Write. rewrite H. eexists. split; reflexivity.
Qed.

Lemma slice_step data i :
  0 <= i < len data ->
  slice data i (if i + chunkSize >? len data then len data else i + chunkSize)
    ++ skipn (Z.to_nat (i + chunkSize)) data
  = skipn (Z.to_nat i) data.
Proof.
  intros Hi. unfold slice, chunkSize, len in *.
  destruct (Z.gtb_spec (i + 20) (Z.of_nat (List.length data))).
  - rewrite (skipn_all2 (n := Z.to_nat (i + 20))) by lia.
    rewrite app_nil_r. apply firstn_all2. rewrite length_skipn. lia.
  - replace (Z.to_nat (i + 20)) with (Z.to_nat (i + 20 - i) + Z.to_nat i)%nat by lia.
    rewrite <- skipn_skipn. apply firstn_skipn.
Qed.

Lemma chunkLoop_wire data : forall fuel i p p',
  0 <= i -> len data - i <= chunkSize * Z.of_nat fuel ->
  chunkLoop fuel p data i = Some (p', true) ->
  wire p' = wire p ++ skipn (Z.to_nat i) data.
Proof.
  induction fuel as [|fuel IH]; intros i p p' Hi Hf; cbn [chunkLoop];
    destruct (Z.ltb_spec i (len data)) as [L|L].
  - unfold chunkSize in Hf. lia.
  - intros [= <-]. rewrite skipn_all2 by (unfold len in L; lia).
    now rewrite app_nil_r.
  - destruct (Port_Write p _) as [p1 [|]] eqn:W; [|discriminate].
    intros H. apply IH in H; [|unfold chunkSize in *; lia..].
    apply Port_Write_wire in W. rewrite H, W, <- app_assoc.
    f_equal. apply slice_step. lia.
  - intros [= <-]. rewrite skipn_all2 by (unfold len in L; lia).
    now rewrite app_nil_r.
Qed.

Lemma chunkLoop_idle data : forall fuel i p,
  0 <= i -> len data - i <= chunkSize * Z.of_nat fuel -> credit p = None ->
  exists p', chunkLoop fuel p data i = Some (p', true) /\ credit p' = None.
Proof.
  induction fuel as [|fuel IH]; intros i p Hi Hf Hc; cbn [chunkLoop];
    destruct (Z.ltb_spec i (len data)) as [L|L].
  - unfold chunkSize in Hf. lia.
  - now exists p.
  - destruct (Port_Write_idle p
       (slice data i (if i + chunkSize >? len data then len data else i + chunkSize)) Hc)
      as (p1 & W & C1).
    rewrite W. apply IH; [unfold chunkSize in *; lia..|assumption].
  - now exists p.
Qed.

Lemma slice_len data i :
  0 <= i < len data ->
  0 < len (slice data i (if i + chunkSize >? len data then len data
                         else i + chunkSize)) <= chunkSize.
Proof.
  intros Hi. unfold slice, chunkSize, len in *.
  rewrite length_firstn, length_skipn.
  destruct (Z.gtb_spec (i + 20) (Z.of_nat (List.length data))); lia.
Qed.

Lemma chunkLoop_written data : forall fuel i p p',
  0 <= i -> len data - i <= chunkSize * Z.of_nat fuel ->
  chunkLoop fuel p data i = Some (p', true) ->
  exists chunks,
    written p' = written p ++ chunks
    /\ List.concat chunks = skipn (Z.to_nat i) data
    /\ Forall (fun c => 0 < len c <= chunkSize) chunks.
Proof.
  induction fuel as [|fuel IH]; intros i p p' Hi Hf; cbn [chunkLoop];
    destruct (Z.ltb_spec i (len data)) as [L|L].
  - unfold chunkSize in Hf. lia.
  - intros [= <-]. exists []. rewrite app_nil_r, skipn_all2 by (unfold len in L; lia).
    repeat split. constructor.
  - destruct (Port_Write p _) as [p1 [|]] eqn:W; [|discriminate].
    intros H. apply IH in H; [|unfold chunkSize in *; lia..].
    destruct H as (chunks & Hw & Hc & Hall).
    apply Port_Write_written in W.
    eexists (_ :: chunks). rewrite Hw, W, <- app_assoc. split; [reflexivity|].
    split.
    + cbn [List.concat]. rewrite Hc. apply slice_step. lia.
    + constructor; [apply slice_len; lia|assumption].
  - intros [= <-]. exists []. rewrite app_nil_r, skipn_all2 by (unfold len in L; lia).
    repeat split. constructor.
Qed.

Lemma sendData_written crc p data p' :
  sendData crc p data = Some (p', true) ->
  exists chunks,
    written p' = written p ++ [BigEndian.PutUint32 (uint32 (len data))]
                 ++ chunks ++ [BigEndian.PutUint16 (crc data); [x0a]]
    /\ List.concat chunks = data
    /\ Forall (fun c => 0 < len c <= chunkSize) chunks.
Proof.
  unfold sendData.
  destruct (Port_Write p _) as [p1 [|]] eqn:W1; cbn [negb]; [|discriminate].
  destruct (chunkLoop _ p1 data 0) as [[p2 [|]]|] eqn:CL; try discriminate.
  destruct (Port_Write p2 _) as [p3 [|]] eqn:W3; cbn [negb]; [|discriminate].
  intros [= W4].
  apply Port_Write_written in W1, W3, W4.
  apply chunkLoop_written in CL; [|lia|unfold chunkSize, len; lia].
  destruct CL as (chunks & Hw & Hc & Hall). exists chunks.
  split; [|split; assumption].
  rewrite W4, W3, Hw, W1, <- !app_assoc. reflexivity.
Qed.

Lemma sendData_wire crc p data p' :
  sendData crc p data = Some (p', true) ->
  wire p' = wire p ++ BigEndian.PutUint32 (uint32 (len data)) ++ data
            ++ BigEndian.PutUint16 (crc data) ++ [x0a].
Proof.
  unfold sendData.
  destruct (Port_Write p _) as [p1 [|]] eqn:W1; cbn [negb]; [|discriminate].
  destruct (chunkLoop _ p1 data 0) as [[p2 [|]]|] eqn:CL; try discriminate.
  destruct (Port_Write p2 _) as [p3 [|]] eqn:W3; cbn [negb]; [|discriminate].
  intros [= W4].
  apply Port_Write_wire in W1, W3, W4.
  apply chunkLoop_wire in CL; [|lia|unfold chunkSize, len; lia].
  rewrite W4, W3, CL, W1. cbn [Z.to_nat skipn]. now rewrite <- !app_assoc.
Qed.

Lemma sendData_idle crc p data :
  credit p = None ->
  exists p', sendData crc p data = Some (p', true) /\ credit p' = None.
Proof.
  intros Hc. unfold sendData.
  destruct (Port_Write_idle p (BigEndian.PutUint32 (uint32 (len data))) Hc)
    as (p1 & W1 & C1).
  rewrite W1. cbn [negb].
  destruct (chunkLoop_idle data (List.length data) 0 p1) as (p2 & CL & C2);
    [lia|unfold chunkSize, len; lia|assumption|].
  rewrite CL.
  destruct (Port_Write_idle p2 (BigEndian.PutUint16 (crc data)) C2)
    as (p3 & W3 & C3).
  rewrite W3. cbn [negb].
  destruct (Port_Write_idle p3 [x0a] C3) as (p4 & W4 & C4).
  exists p4. now rewrite W4.
Qed.

(** C5 (encoding layout), as the code has it. On a port that accepts every
    write, and for a payload shorter than 2^32 bytes, both copies of
    [sendData] succeed and put on the wire the big-endian 4-byte length, the
    payload (in writes of at most 20 bytes each, which leaves the byte
    sequence as it is), the big-endian 2-byte value of their [calculateCRC16]
    over the whole payload, and the terminator byte 0x0A; [Send] of the
    serialcomm package writes length, payload and checksum in one write and
    no terminator. *)
Theorem encoding_layout data p :
  credit p = None -> len data < 2 ^ 32 ->
  (exists p' chunks,
     Send.sendData p data = Some (p', true)
     /\ written p' = written p ++ [BigEndian.PutUint32 (len data)] ++ chunks
                     ++ [BigEndian.PutUint16 (Send.calculateCRC16 data); [x0a]]
     /\ List.concat chunks = data
     /\ Forall (fun c => 0 < len c <= 20) chunks
     /\ wire p' = wire p ++ BigEndian.PutUint32 (len data) ++ data
                  ++ BigEndian.PutUint16 (Send.calculateCRC16 data) ++ [x0a])
  /\ (exists p' chunks,
     SerialJsonSend.sendData p data = Some (p', true)
     /\ written p' = written p ++ [BigEndian.PutUint32 (len data)] ++ chunks
                     ++ [BigEndian.PutUint16 (SerialJsonSend.calculateCRC16 data);
                         [x0a]]
     /\ List.concat chunks = data
     /\ Forall (fun c => 0 < len c <= 20) chunks
     /\ wire p' = wire p ++ BigEndian.PutUint32 (len data) ++ data
                  ++ BigEndian.PutUint16 (SerialJsonSend.calculateCRC16 data)
                  ++ [x0a])
  /\ (exists p', Serialcomm.Send p data = (p', true)
     /\ written p' = written p
                     ++ [BigEndian.PutUint32 (len data) ++ data
                         ++ BigEndian.PutUint16 (Serialcomm.calculateCRC16 data)]
     /\ wire p' = wire p ++ BigEndian.PutUint32 (len data) ++ data
                  ++ BigEndian.PutUint16 (Serialcomm.calculateCRC16 data)).
Proof.
  intros Hc Hl.
  assert (U : uint32 (len data) = len data)
    by (apply Z.mod_small; unfold len in *; lia).
  split; [|split].
  - destruct (sendData_idle Send.calculateCRC16 p data Hc) as (p' & E & _).
    destruct (sendData_written _ _ _ _ E) as (chunks & Hw & Hcc & Hall).
    exists p', chunks. rewrite U in Hw. repeat split; try assumption.
    apply sendData_wire in E. now rewrite U in E.
  - destruct (sendData_idle SerialJsonSend.calculateCRC16 p data Hc) as (p' & E & _).
    destruct (sendData_written _ _ _ _ E) as (chunks & Hw & Hcc & Hall).
    exists p', chunks. rewrite U in Hw. repeat split; try assumption.
    apply sendData_wire in E. now rewrite U in E.
  - destruct (Port_Write_idle p (Serialcomm.Send_frame data) Hc) as (p' & E & _).
    exists p'. split; [exact E|].
    pose proof (Port_Write_written _ _ _ E) as Hw.
    apply Port_Write_wire in E.
    unfold Serialcomm.Send_frame in E, Hw. rewrite U in E, Hw. now split.
Qed.

Lemma encoding_layout_witness :
  credit idlePort = None /\ len json_a1 < 2 ^ 32
  /\ exists p', Serialcomm.Send idlePort json_a1 = (p', true)
     /\ written p' = written idlePort
                     ++ [BigEndian.PutUint32 (len json_a1) ++ json_a1
                         ++ BigEndian.PutUint16 (Serialcomm.calculateCRC16 json_a1)]
     /\ wire p' = wire idlePort ++ BigEndian.PutUint32 (len json_a1) ++ json_a1
                  ++ BigEndian.PutUint16 (Serialcomm.calculateCRC16 json_a1).
Proof.
  split; [reflexivity|]. split; [reflexivity|].
  apply (encoding_layout json_a1 idlePort); reflexivity.
Defined.

(** C5 as stated fails for [Send]: the thirteen bytes written for the
    seven-byte payload end with the checksum; no terminator follows. *)
Lemma encoding_layout_counterexample :
  wire (fst (Serialcomm.Send idlePort json_a1))
  = [x00; x00; x00; x07; x7b; x22; x61; x22; x3a; x31; x7d; x89; x94]
  /\ wire (fst (Serialcomm.Send idlePort json_a1))
     <> BigEndian.PutUint32 (len json_a1) ++ json_a1
        ++ BigEndian.PutUint16 (Serialcomm.calculateCRC16 json_a1) ++ [x0a].
Proof. split; [vm_compute; reflexivity|vm_compute; discriminate]. Qed.

(** ** The retry loops *)

Ltac send_once :=
  match goal with
  | Hc : credit ?p = None |- context [Send.sendData ?p ?d] =>
      let p' := fresh "p" in let E := fresh "E" in let C := fresh "C" in
      destruct (sendData_idle Send.calculateCRC16 p d Hc) as (p' & E & C);
      change (sendData Send.calculateCRC16 p d) with (Send.sendData p d) in E;
      rewrite E; clear E Hc
  | Hc : credit ?p = None |- context [SerialJsonSend.sendData ?p ?d] =>
      let p' := fresh "p" in let E := fresh "E" in let C := fresh "C" in
      destruct (sendData_idle SerialJsonSend.calculateCRC16 p d Hc) as (p' & E & C);
      change (sendData SerialJsonSend.calculateCRC16 p d)
        with (SerialJsonSend.sendData p d) in E;
      rewrite E; clear E Hc
  end.

Ltac retry_run :=
  unfold Send.main, SerialJsonSend.main, maxRetries;
  change (Z.to_nat 3) with 3%nat;
  repeat (cbn -[Send.sendData SerialJsonSend.sendData]; try send_once);
  try (split; reflexivity).

Section RetryLoops.
Variable data : list byte.
Variable p : Port.
Hypothesis idle : credit p = None.

Lemma Send_okOnSecond :
  exit (Send.main okOnSecond data p) = Done
  /\ sends (Send.main okOnSecond data p) = 2%nat.
Proof. pose proof idle. retry_run. Qed.

Lemma SerialJson_okSecondTime :
  exit (SerialJsonSend.main okSecondTime data p) = Done
  /\ sends (SerialJsonSend.main okSecondTime data p) = 2%nat.
Proof. pose proof idle. retry_run. Qed.

Lemma SerialJson_retryAtOnce :
  exit (SerialJsonSend.main retryAtOnce data p) = Fatal "max retries reached"
  /\ sends (SerialJsonSend.main retryAtOnce data p) = 2%nat.
Proof. pose proof idle. retry_run. Qed.

Lemma SerialJson_retryInTwo :
  exit (SerialJsonSend.main retryInTwo data p) = Fatal "max retries reached"
  /\ sends (SerialJsonSend.main retryInTwo data p) = 2%nat.
Proof. pose proof idle. retry_run. Qed.

Lemma SerialJson_silence :
  exit (SerialJsonSend.main silence data p) = Fatal "max retries reached"
  /\ sends (SerialJsonSend.main silence data p) = 2%nat.
Proof. pose proof idle. retry_run. Qed.

Lemma SerialJson_readErrors :
  exit (SerialJsonSend.main readErrors data p) = Fatal "max retries reached"
  /\ sends (SerialJsonSend.main readErrors data p) = 2%nat.
Proof. pose proof idle. retry_run. Qed.

Lemma Send_allRetry :
  exit (Send.main allRetry data p) = Done
  /\ sends (Send.main allRetry data p) = 3%nat.
Proof. pose proof idle. retry_run. Qed.

Lemma Send_allErrors :
  exit (Send.main allErrors data p) = Done
  /\ sends (Send.main allErrors data p) = 3%nat.
Proof. pose proof idle. retry_run. Qed.

Lemma Send_allSilent :
  exit (Send.main allSilent data p) = Fatal "max retries reached"
  /\ sends (Send.main allSilent data p) = 3%nat.
Proof. pose proof idle. retry_run. Qed.
End RetryLoops.

(** C3 (bounded retry) evaluated on the two retry loops, on a port that
    accepts every write. An OK after the second write ends both loops with
    two sends and success. When every attempt is answered with RETRY, or
    with silence until the wait is over, the loop of serialJson/send/send.go
    gives up after two sends, not three; the loop of send/send.go sends three
    times and then reports completion when the answers were RETRY or read
    errors, and failure only when the reads returned no bytes. *)
Theorem bounded_retry data :
  (exit (Send.main okOnSecond data idlePort) = Done
   /\ sends (Send.main okOnSecond data idlePort) = 2%nat)
  /\ (exit (SerialJsonSend.main okSecondTime data idlePort) = Done
      /\ sends (SerialJsonSend.main okSecondTime data idlePort) = 2%nat)
  /\ (exit (SerialJsonSend.main retryAtOnce data idlePort)
        = Fatal "max retries reached"
      /\ sends (SerialJsonSend.main retryAtOnce data idlePort) = 2%nat)
  /\ (exit (SerialJsonSend.main silence data idlePort)
        = Fatal "max retries reached"
      /\ sends (SerialJsonSend.main silence data idlePort) = 2%nat)
  /\ (exit (Send.main allRetry data idlePort) = Done
      /\ sends (Send.main allRetry data idlePort) = 3%nat)
  /\ (exit (Send.main allErrors data idlePort) = Done
      /\ sends (Send.main allErrors data idlePort) = 3%nat)
  /\ (exit (Send.main allSilent data idlePort) = Fatal "max retries reached"
      /\ sends (Send.main allSilent data idlePort) = 3%nat).
Proof.
  split; [apply Send_okOnSecond; reflexivity|].
  split; [apply SerialJson_okSecondTime; reflexivity|].
  split; [apply SerialJson_retryAtOnce; reflexivity|].
  split; [apply SerialJson_silence; reflexivity|].
  split; [apply Send_allRetry; reflexivity|].
  split; [apply Send_allErrors; reflexivity|].
  apply Send_allSilent; reflexivity.
Qed.

Example readFeedback_pieces :
  SerialJsonSend.readFeedback 3000000000 (retryInTwo 1) "" = Some "RETRY"
  /\ SerialJsonSend.readFeedback 3000000000 (silence 1) "" = None.
Proof. split; reflexivity. Qed.

(** ** Terminal transitions of the serialcomm receiver *)

(** C4 (reset after every terminal transition) fails on the decode of the
    nested payload. When the frame of [P] is complete, its checksum matches
    and [P] unmarshals into a [Message], but the [payload] member is not
    base64 text or its bytes do not unmarshal into a [Payload], the receiver
    has consumed the frame and goes on without any feedback token and with
    [expectedLength] still at the length of [P]. *)
Theorem decode_failure_no_reset lib cfg P msg chunks t0 :
  0 < len P <= Serialcomm.MaxFrameLength cfg ->
  json_Unmarshal_Message lib P = Some msg ->
  (base64_DecodeString lib (Message.Payload msg) = None
   \/ exists payloadBytes,
        base64_DecodeString lib (Message.Payload msg) = Some payloadBytes
        /\ json_Unmarshal_Payload lib payloadBytes = None) ->
  chunks <> [] ->
  Forall (fun c => snd c <> []) chunks ->
  List.concat (map snd chunks) = Serialcomm.Send_frame P ->
  run (Serialcomm.step lib cfg) (fresh t0) (reads chunks)
  = Some (mkRecv [] (len P) (lastTime t0 chunks), []).
Proof.
  intros HP Hm Hb Hne Hall E.
  destruct (Send_frame_shape cfg P HP) as [F HU]. rewrite F in E.
  change (fresh t0) with (absorbed (len P) [] t0).
  apply (run_absorb lib cfg (BigEndian.PutUint32 (len P)) P
           (BigEndian.PutUint16 (Serialcomm.calculateCRC16 P)) (len P));
    try assumption; try reflexivity.
  rewrite (frameStage_complete _ _ _ _ _ _ (Serialcomm.calculateCRC16 P));
    try reflexivity; try lia; [|apply Uint16_of_crc].
  rewrite Z.eqb_refl. cbn [negb]. rewrite Hm.
  destruct Hb as [Hb|(pb & Hb & Hp)]; rewrite Hb; [reflexivity|].
  now rewrite Hp.
Qed.

Lemma decode_failure_no_reset_witness :
  0 < len json_a1 <= Serialcomm.MaxFrameLength demoConfig
  /\ json_Unmarshal_Message sampleLib json_a1 = Some Message.zero
  /\ run (Serialcomm.step sampleLib demoConfig) (fresh 0)
         (reads (split3 (Serialcomm.Send_frame json_a1)))
     = Some (mkRecv [] 7 3, []).
Proof.
  split; [vm_compute; split; [reflexivity|discriminate]|].
  split; [reflexivity|].
  apply (decode_failure_no_reset sampleLib demoConfig json_a1 Message.zero
           (split3 (Serialcomm.Send_frame json_a1)) 0).
  - vm_compute; split; [reflexivity|discriminate].
  - reflexivity.
  - right. exists []. split; reflexivity.
  - discriminate.
  - repeat constructor; discriminate.
  - vm_compute. reflexivity.
Defined.

Lemma Uint32_firstn b : BigEndian.Uint32 (firstn 4 b) = BigEndian.Uint32 b.
Proof. destruct b as [|b0 [|b1 [|b2 [|b3 r]]]]; reflexivity. Qed.

(** C6 (length validation), for the serialcomm receiver. When no length is
    pending and a read brings the buffer to at least four bytes that decode,
    big-endian, to 0 or to more than [uint32(MaxLength)], that same turn of
    the loop discards the whole buffer, leaves [expectedLength] unset and
    writes exactly one RETRY. *)
Theorem length_validation lib cfg st now data n :
  expectedLength st = 0 ->
  data <> [] ->
  BigEndian.Uint32 (buffer st ++ data) = Some n ->
  n = 0 \/ n > Serialcomm.MaxFrameLength cfg ->
  Serialcomm.step lib cfg st (ReadOk now data)
  = Some (mkRecv [] 0 now, [Feedback "RETRY"]).
Proof.
  intros He Hd HU Hn. unfold Serialcomm.step.
  rewrite (len_nonempty data Hd).
  unfold Buffer.Write, Buffer.Len, Buffer.Next.
  cbn [buffer expectedLength lastDataTime]. rewrite He. cbn [Z.eqb andb].
  assert (L : 4 <= len (buffer st ++ data)).
  { destruct (buffer st ++ data) as [|b0 [|b1 [|b2 [|b3 r]]]]; try discriminate.
    unfold len. cbn [List.length]. lia. }
  replace (len (buffer st ++ data) >=? 4) with true by lia.
  change (Z.to_nat 4) with 4%nat. rewrite Uint32_firstn, HU.
  unfold Serialcomm.MaxFrameLength in Hn.
  replace ((n >? uint32 (Serialcomm.MaxLength cfg)) || (n =? 0)) with true
    by (destruct Hn; [subst n; now rewrite orb_true_r|
        replace (n >? uint32 (Serialcomm.MaxLength cfg)) with true by lia;
        reflexivity]).
  reflexivity.
Qed.

Lemma length_validation_witness :
  expectedLength (mkRecv [x00; x00] 0 0) = 0
  /\ Serialcomm.step sampleLib demoConfig (mkRecv [x00; x00] 0 0)
       (ReadOk 5 [x20; x00; x7b])
     = Some (mkRecv [] 0 5, [Feedback "RETRY"]).
Proof.
  split; [reflexivity|].
  apply (length_validation sampleLib demoConfig (mkRecv [x00; x00] 0 0) 5
           [x20; x00; x7b] 8192).
  - reflexivity.
  - discriminate.
  - reflexivity.
  - right. vm_compute. reflexivity.
Defined.

(** C6 as stated fails in receive/receive.go, which has no check of the
    length: four spaces decode to 538976288, far above every bound of the
    repository; the value is stored, the byte after it stays buffered and
    nothing is written. *)
Lemma length_validation_counterexample :
  Receive.step sampleLib (fresh 0) (ReadOk 1 [x20; x20; x20; x20; x7b])
  = Some (mkRecv [x7b] 538976288 1, [])
  /\ 538976288 > 10000.
Proof. split; [vm_compute; reflexivity|reflexivity]. Qed.

(** C8 (idle reset), as the code has it. When the buffer is non-empty and
    more than five seconds have passed since the last bytes, a read that
    returns no bytes makes both receivers empty the buffer and unset
    [expectedLength]; the serialcomm receiver then writes exactly one RETRY,
    the loop of receive/receive.go writes nothing. *)
Theorem idle_reset lib cfg st now :
  buffer st <> [] ->
  now - lastDataTime st > timeout ->
  Serialcomm.step lib cfg st (ReadOk now [])
  = Some (mkRecv [] 0 (lastDataTime st), [Feedback "RETRY"])
  /\ Receive.step lib st (ReadOk now [])
     = Some (mkRecv [] 0 (lastDataTime st), []).
Proof.
  intros Hb Ht. unfold Serialcomm.step, Receive.step, Buffer.Len.
  change (len (@nil byte) =? 0) with true. cbv iota.
  replace (now - lastDataTime st >? timeout) with true by lia.
  replace (len (buffer st) >? 0) with true
    by (pose proof (len_nonempty _ Hb); pose proof (len_nonneg (buffer st)); lia).
  split; reflexivity.
Qed.

Lemma idle_reset_witness :
  buffer (mkRecv [x00; x00; x00] 0 0) <> []
  /\ 6000000000 - lastDataTime (mkRecv [x00; x00; x00] 0 0) > timeout
  /\ Serialcomm.step sampleLib demoConfig (mkRecv [x00; x00; x00] 0 0)
       (ReadOk 6000000000 [])
     = Some (mkRecv [] 0 0, [Feedback "RETRY"]).
Proof.
  split; [discriminate|]. split; [reflexivity|].
  apply (idle_reset sampleLib demoConfig (mkRecv [x00; x00; x00] 0 0) 6000000000);
    [discriminate|reflexivity].
Defined.

(** C8 as stated fails in receive/receive.go: two buffered bytes and six
    silent seconds end in an empty buffer and no token. *)
Lemma idle_reset_counterexample :
  Receive.step sampleLib (mkRecv [x7b; x22] 0 0) (ReadOk 6000000000 [])
  = Some (mkRecv [] 0 0, []).
Proof. vm_compute. reflexivity. Qed.

(** C10 (closing twice). For a receiver whose stop channel is still open,
    [Start] returns nil; the first [Close] after it returns nil and closes
    the channel, which is what the worker's [select] waits for; [started]
    stays set, so a second [Close] closes the closed channel and panics. *)
Theorem close_twice s :
  Serialcomm.stopCh s = Serialcomm.ChanOpen ->
  exists s1 s2,
    Serialcomm.Start s = Serialcomm.Returns s1 None
    /\ Serialcomm.Close s1 = Serialcomm.Returns s2 None
    /\ Serialcomm.workerStops s2 = true
    /\ Serialcomm.started s2 = true
    /\ Serialcomm.Close s2 = Serialcomm.Panics "close of closed channel".
Proof.
  intros H. unfold Serialcomm.Start.
  eexists. eexists. split; [reflexivity|].
  unfold Serialcomm.Close. cbn [Serialcomm.started Serialcomm.stopCh].
  rewrite H. repeat split; reflexivity.
Qed.

Lemma close_twice_witness :
  Serialcomm.stopCh (Serialcomm.NewSerialReceiver demoConfig) = Serialcomm.ChanOpen
  /\ exists s1 s2,
    Serialcomm.Start (Serialcomm.NewSerialReceiver demoConfig)
      = Serialcomm.Returns s1 None
    /\ Serialcomm.Close s1 = Serialcomm.Returns s2 None
    /\ Serialcomm.workerStops s2 = true
    /\ Serialcomm.started s2 = true
    /\ Serialcomm.Close s2 = Serialcomm.Panics "close of closed channel".
Proof.
  split; [reflexivity|].
  apply (close_twice (Serialcomm.NewSerialReceiver demoConfig)). reflexivity.
Defined.

(** C2 (one checksum everywhere) fails in send/send.go and
    receive/receive.go. Their [calculateCRC16] hands the zero value of
    [crc16.Table] to [Checksum] and so returns 0 for every input, while the
    serialcomm package and serialJson/send/send.go build the MODBUS table
    (check value 0x4B37 on the nine digits). *)
Theorem checksum_paths data :
  Send.calculateCRC16 data = 0
  /\ Receive.calculateCRC16 data = 0
  /\ Serialcomm.calculateCRC16 data = modbusReference data
  /\ SerialJsonSend.calculateCRC16 data = modbusReference data
  /\ Serialcomm.calculateCRC16 digits = 0x4B37
  /\ Send.calculateCRC16 digits <> Serialcomm.calculateCRC16 digits.
Proof.
  split; [apply zeroTable_Checksum|].
  split; [apply zeroTable_Checksum|].
  split; [apply calculateCRC16_is_modbus|].
  split; [apply calculateCRC16_is_modbus|].
  split; [reflexivity|].
  vm_compute. discriminate.
Qed.

(** ** The receive variant *)

Lemma Forall_firstn_skipn {A} (P : A -> Prop) k l :
  Forall P l -> Forall P (firstn k l) /\ Forall P (skipn k l).
Proof.
  intros H. rewrite <- (firstn_skipn k l) in H. now apply Forall_app in H.
Qed.

Lemma kept_filter data : Forall kept (filter Receive.keep data).
Proof. apply Forall_forall. intros b Hb. now apply filter_In in Hb. Qed.

Lemma kept_low b : kept b -> 10 <= b2z b.
Proof.
  unfold kept, Receive.keep. intros H. apply orb_true_iff in H.
  destruct H as [H|H]; [apply andb_true_iff in H|]; lia.
Qed.

Lemma ReadBytes_suffix d b l r ok :
  Buffer.ReadBytes d b = (l, r, ok) -> b = l ++ r.
Proof.
  revert l r ok. induction b as [|x b IH]; intros l r ok; cbn [Buffer.ReadBytes].
  - now intros [= <- <- <-].
  - destruct (Byte.eqb x d).
    + now intros [= <- <- <-].
    + destruct (Buffer.ReadBytes d b) as [[l' r'] ok'] eqn:E.
      intros [= <- <- <-]. cbn [app]. now rewrite <- (IH l' r' ok' eq_refl).
Qed.

Lemma fresh_RInv t0 : RInv (fresh t0).
Proof. repeat split; cbn; try constructor; lia. Qed.

Lemma reset_RInv st : RInv (reset st).
Proof. repeat split; cbn; try constructor; lia. Qed.

Lemma feed_RInv st now data :
  RInv st -> exists st', Receive.feed st now data = Some st' /\ RInv st'.
Proof.
  intros (Hb & He & Hr). unfold Receive.feed, Buffer.Write, Buffer.Len, Buffer.Next.
  cbn [buffer expectedLength].
  assert (Hk : Forall kept (buffer st ++ filter Receive.keep data))
    by (apply Forall_app; split; [assumption|apply kept_filter]).
  remember (buffer st ++ filter Receive.keep data) as buf eqn:Ebuf. clear Ebuf.
  destruct ((expectedLength st =? 0) && (len buf >=? 4)) eqn:C.
  - apply andb_true_iff in C. destruct C as [_ C]. apply Z.geb_le in C.
    change (Z.to_nat 4) with 4%nat.
    destruct (Forall_firstn_skipn kept 4 buf Hk) as [H4 Hs].
    destruct buf as [|b0 [|b1 [|b2 [|b3 r]]]];
      try (unfold len in C; cbn [List.length] in C; lia).
    cbn [firstn skipn] in *.
    destruct (BigEndian.Uint32 [b0; b1; b2; b3]) as [n|] eqn:U; [|discriminate].
    exists (mkRecv r n now). split; [reflexivity|].
    repeat split; cbn [buffer expectedLength].
    + assumption.
    + right. now rewrite (PutUint32_Uint32 _ _ _ _ _ _ U).
    + apply (Uint32_range _ _ U).
    + apply (Uint32_range _ _ U).
  - eexists. split; [reflexivity|]. repeat split; cbn [buffer expectedLength];
      try assumption; lia.
Qed.

Lemma frameStage_keeps lib st :
  RInv st ->
  exists st' e, Receive.frameStage lib st = Some (st', e) /\ RInv st'.
Proof.
  intros (Hb & He & Hr). unfold Receive.frameStage.
  destruct (Receive.frameReady st) eqn:R.
  - unfold Receive.frameReady in R.
    apply andb_true_iff in R. destruct R as [R _].
    apply andb_true_iff in R. destruct R as [R1 R2].
    unfold Buffer.Next, Buffer.Len in *. cbn [snd].
    destruct (Forall_firstn_skipn kept (Z.to_nat (expectedLength st)) _ Hb) as [_ Hs].
    assert (L : (2 <= List.length (skipn (Z.to_nat (expectedLength st)) (buffer st)))%nat).
    { rewrite length_skipn. unfold len in R2. lia. }
    destruct (skipn (Z.to_nat (expectedLength st)) (buffer st)) as [|c0 [|c1 r]];
      try (cbn [List.length] in L; lia).
    change (Z.to_nat 2) with 2%nat. cbn [firstn skipn].
    rewrite Uint16_value.
    destruct (negb _).
    + do 2 eexists. split; [reflexivity|apply reset_RInv].
    + destruct (Buffer.ReadBytes x0a r) as [[l b3] found] eqn:RB.
      destruct found; cbn [negb].
      * destruct (json_Unmarshal_Message lib _);
          do 2 eexists; (split; [reflexivity|apply reset_RInv]).
      * do 2 eexists. split; [reflexivity|].
        apply ReadBytes_suffix in RB. subst r.
        apply Forall_cons_iff in Hs. destruct Hs as [_ Hs].
        apply Forall_cons_iff in Hs. destruct Hs as [_ Hs].
        apply Forall_app in Hs. destruct Hs as [_ Hs].
        repeat split; cbn [with_buffer buffer expectedLength]; try assumption; lia.
  - exists st, []. repeat split; try assumption; lia.
Qed.

Lemma step_keeps lib st r :
  RInv st ->
  exists st' e, Receive.step lib st r = Some (st', e) /\ RInv st'.
Proof.
  intros H. destruct r as [|now data]; cbn [Receive.step].
  - now exists st, [].
  - destruct (len data =? 0).
    + destruct ((now - lastDataTime st >? timeout) && (Buffer.Len (buffer st) >? 0)).
      * exists (reset st), []. split; [reflexivity|apply reset_RInv].
      * now exists st, [].
    + destruct (feed_RInv st now data H) as (st1 & E & H1). rewrite E.
      apply frameStage_keeps. assumption.
Qed.

Lemma run_keeps lib rs : forall st,
  RInv st ->
  exists st' e, run (Receive.step lib) st rs = Some (st', e) /\ RInv st'.
Proof.
  induction rs as [|r rs IH]; intros st H; cbn [run].
  - now exists st, [].
  - destruct (step_keeps lib st r H) as (st1 & e1 & E1 & H1). rewrite E1.
    destruct (IH st1 H1) as (st2 & e2 & E2 & H2). rewrite E2.
    now exists st2, (e1 ++ e2).
Qed.

(** With the checksum of the empty table, the loop never accepts a frame at
    all: two buffered bytes are at least 10 each, and the value they spell
    is compared with 0. *)
Lemma frameStage_RInv lib st :
  RInv st ->
  exists st' e, Receive.frameStage lib st = Some (st', e)
    /\ RInv st' /\ Forall (fun x => x = Feedback "RETRY") e.
Proof.
  intros (Hb & He & Hr). unfold Receive.frameStage.
  destruct (Receive.frameReady st) eqn:R.
  - unfold Receive.frameReady in R.
    apply andb_true_iff in R. destruct R as [R _].
    apply andb_true_iff in R. destruct R as [R1 R2].
    unfold Buffer.Next, Buffer.Len in *. cbn [snd].
    destruct (Forall_firstn_skipn kept (Z.to_nat (expectedLength st)) _ Hb) as [_ Hs].
    assert (L : (2 <= List.length (skipn (Z.to_nat (expectedLength st)) (buffer st)))%nat).
    { rewrite length_skipn. unfold len in R2. lia. }
    destruct (skipn (Z.to_nat (expectedLength st)) (buffer st)) as [|c0 [|c1 r]];
      try (cbn [List.length] in L; lia).
    change (Z.to_nat 2) with 2%nat. cbn [firstn skipn].
    rewrite Uint16_value.
    apply Forall_cons_iff in Hs. destruct Hs as [K0 Hs].
    apply Forall_cons_iff in Hs. destruct Hs as [K1 Hs].
    apply kept_low in K0, K1.
    unfold Receive.calculateCRC16. rewrite zeroTable_Checksum.
    replace (b2z c1 + b2z c0 * 2 ^ 8 =? 0) with false by lia. cbn [negb].
    exists (reset st), [Feedback "RETRY"]. split; [reflexivity|].
    split; [apply reset_RInv|]. now constructor.
  - exists st, []. repeat split; try assumption; try lia. constructor.
Qed.

Lemma step_RInv lib st r :
  RInv st ->
  exists st' e, Receive.step lib st r = Some (st', e)
    /\ RInv st' /\ Forall (fun x => x = Feedback "RETRY") e.
Proof.
  intros H. destruct r as [|now data]; cbn [Receive.step].
  - exists st, []. repeat split; try apply H. constructor.
  - destruct (len data =? 0).
    + destruct ((now - lastDataTime st >? timeout) && (Buffer.Len (buffer st) >? 0)).
      * exists (reset st), []. split; [reflexivity|]. split; [apply reset_RInv|constructor].
      * exists st, []. repeat split; try apply H. constructor.
    + destruct (feed_RInv st now data H) as (st1 & E & H1). rewrite E.
      apply frameStage_RInv. assumption.
Qed.

Lemma run_RInv lib rs : forall st,
  RInv st ->
  exists st' e, run (Receive.step lib) st rs = Some (st', e)
    /\ RInv st' /\ Forall (fun x => x = Feedback "RETRY") e.
Proof.
  induction rs as [|r rs IH]; intros st H; cbn [run].
  - exists st, []. repeat split; try apply H. constructor.
  - destruct (step_RInv lib st r H) as (st1 & e1 & E1 & H1 & F1). rewrite E1.
    destruct (IH st1 H1) as (st2 & e2 & E2 & H2 & F2). rewrite E2.
    exists st2, (e1 ++ e2). split; [reflexivity|]. split; [assumption|].
    apply Forall_app. now split.
Qed.

(** X22 (receive/receive.go acknowledges nothing). Whatever is read, the
    loop of receive/receive.go never panics and does nothing to the outside
    but write RETRY: no frame is ever answered with OK or printed. *)
Lemma receive_never_accepts lib rs t0 :
  exists st effs,
    run (Receive.step lib) (fresh t0) rs = Some (st, effs)
    /\ Forall (fun e => e = Feedback "RETRY") effs.
Proof.
  destruct (run_RInv lib rs (fresh t0) (fresh_RInv t0)) as (st & e & E & _ & F).
  now exists st, e.
Qed.

(** C9 (the filter of receive/receive.go). Let the 4-byte big-endian length
    of [P] contain a byte outside 32..126 and other than 10. Whatever is read,
    the loop never panics, its buffer only ever holds bytes the filter lets
    through (after the reads, and again after the bytes of any further read
    have been appended), and at no turn is the packet it takes out of the
    buffer equal to [P]: the frame of [P] is never reassembled. *)
Theorem receive_filter lib rs t0 P :
  ~ Forall kept (BigEndian.PutUint32 (uint32 (len P))) ->
  exists st effs,
    run (Receive.step lib) (fresh t0) rs = Some (st, effs)
    /\ Forall kept (buffer st)
    /\ forall now data,
         exists st1, Receive.feed st now data = Some st1
           /\ Forall kept (buffer st1)
           /\ (Receive.frameReady st1 = true -> Receive.dataPacketOf st1 <> P).
Proof.
  intros HP.
  destruct (run_keeps lib rs (fresh t0) (fresh_RInv t0)) as (st & e & E & H).
  exists st, e. split; [assumption|]. split; [apply H|].
  intros now data.
  destruct (feed_RInv st now data H) as (st1 & E1 & (Hb & He & Hr)).
  exists st1. split; [assumption|]. split; [assumption|].
  intros R Q. apply HP.
  unfold Receive.frameReady in R.
  apply andb_true_iff in R. destruct R as [R _].
  apply andb_true_iff in R. destruct R as [R1 R2].
  assert (L : len P = expectedLength st1).
  { rewrite <- Q. unfold Receive.dataPacketOf, Buffer.Next, Buffer.Len, len in *.
    cbn [fst]. rewrite length_firstn. lia. }
  rewrite L. unfold uint32. rewrite Z.mod_small by assumption.
  destruct He as [He|He]; [lia|assumption].
Qed.

(** Every length below 2^24, so every length the configurations of the
    repository admit, starts with a zero byte, which the filter drops; a length
    such as 0x0A0A0A0A is made of line feeds and passes whole. *)
Lemma short_length_dropped n :
  0 <= n < 2 ^ 24 -> ~ Forall kept (BigEndian.PutUint32 (uint32 n)).
Proof.
  intros Hn H. apply Forall_inv in H. unfold kept, Receive.keep in H.
  unfold uint32 in H. rewrite Z.mod_small in H by lia.
  rewrite b2z_z2b, Z.shiftr_div_pow2, Z.div_small in H by lia.
  discriminate H.
Qed.

Example line_feed_length_kept :
  Forall kept (BigEndian.PutUint32 (uint32 0x0A0A0A0A)).
Proof. repeat constructor. Qed.

Lemma receive_filter_witness :
  ~ Forall kept (BigEndian.PutUint32 (uint32 (len json_a1)))
  /\ exists st effs,
    run (Receive.step sampleLib) (fresh 0)
        (reads (split3 (BigEndian.PutUint32 (uint32 (len json_a1)) ++ json_a1
                        ++ BigEndian.PutUint16 (Send.calculateCRC16 json_a1)
                        ++ [x0a])))
    = Some (st, effs)
    /\ Forall kept (buffer st)
    /\ forall now data,
         exists st1, Receive.feed st now data = Some st1
           /\ Forall kept (buffer st1)
           /\ (Receive.frameReady st1 = true ->
               Receive.dataPacketOf st1 <> json_a1).
Proof.
  assert (H : ~ Forall kept (BigEndian.PutUint32 (uint32 (len json_a1)))).
  { intros H. apply Forall_inv in H. vm_compute in H. discriminate H. }
  split; [exact H|].
  apply (receive_filter sampleLib _ 0 json_a1 H).
Defined.

(** * Further properties *)

(** ** sendData as a sequence of writes *)

Lemma chunkLoop_writeAll data : forall fuel i p,
  0 <= i -> len data - i <= chunkSize * Z.of_nat fuel ->
  chunkLoop fuel p data i
  = Some (writeAll p (chunksOf fuel (skipn (Z.to_nat i) data))).
Proof.
  induction fuel as [|fuel IH]; intros i p Hi Hf; cbn [chunkLoop];
    destruct (Z.ltb_spec i (len data)) as [L|L].
  - unfold chunkSize in Hf. lia.
  - rewrite skipn_all2 by (unfold len in L; lia). reflexivity.
  - assert (Hs : skipn (Z.to_nat i) data <> []).
    { intros E. apply (f_equal (@List.length byte)) in E.
      rewrite length_skipn in E. unfold len in L. cbn in E. lia. }
    cbn [chunksOf]. destruct (skipn (Z.to_nat i) data) as [|b r] eqn:E; [easy|].
    rewrite <- E. cbn [writeAll].
    assert (C : slice data i (if i + chunkSize >? len data then len data
                              else i + chunkSize)
                = firstn 20 (skipn (Z.to_nat i) data)).
    { unfold slice, chunkSize, len in *.
      destruct (Z.gtb_spec (i + 20) (Z.of_nat (List.length data))).
      - rewrite !firstn_all2; [reflexivity|rewrite length_skipn; lia..].
      - f_equal. lia. }
    rewrite C. destruct (Port_Write p _) as [p1 [|]]; [|reflexivity].
    rewrite IH by (unfold chunkSize in *; lia).
    do 3 f_equal. unfold chunkSize.
    replace (Z.to_nat (i + 20)) with (20 + Z.to_nat i)%nat by lia.
    now rewrite skipn_skipn.
  - rewrite skipn_all2 by (unfold len in L; lia). now destruct fuel.
Qed.

Lemma writeAll_app p ws1 ws2 :
  writeAll p (ws1 ++ ws2)
  = let '(p1, ok) := writeAll p ws1 in
    if ok then writeAll p1 ws2 else (p1, false).
Proof.
  revert p. induction ws1 as [|w r IH]; intros p; cbn [app writeAll]; [reflexivity|].
  destruct (Port_Write p w) as [p1 [|]]; [apply IH|reflexivity].
Qed.

Lemma sendData_writeAll crc p data :
  sendData crc p data = Some (writeAll p (frameWrites crc data)).
Proof.
  unfold sendData, frameWrites. cbn [app writeAll].
  destruct (Port_Write p _) as [p1 [|]]; cbn [negb]; [|reflexivity].
  rewrite chunkLoop_writeAll by (unfold chunkSize, len; lia).
  cbn [Z.to_nat skipn]. rewrite writeAll_app.
  destruct (writeAll p1 _) as [p2 [|]]; [|reflexivity].
  cbn [writeAll]. destruct (Port_Write p2 _) as [p3 [|]]; cbn [negb]; [|reflexivity].
  destruct (Port_Write p3 [x0a]) as [p4 [|]]; reflexivity.
Qed.

Lemma chunksOf_concat : forall fuel data,
  (List.length data <= fuel)%nat -> List.concat (chunksOf fuel data) = data.
Proof.
  induction fuel as [|fuel IH]; intros data H.
  - destruct data; [reflexivity|cbn in H; lia].
  - destruct data as [|b r]; [reflexivity|].
    cbn [chunksOf List.concat]. rewrite IH.
    + apply firstn_skipn.
    + rewrite length_skipn. cbn [List.length] in *. lia.
Qed.

Lemma chunksOf_length : forall fuel data,
  (List.length data <= fuel)%nat ->
  Z.of_nat (List.length (chunksOf fuel data)) = (len data + 19) / 20.
Proof.
  induction fuel as [|fuel IH]; intros data H.
  - destruct data; [reflexivity|cbn in H; lia].
  - destruct data as [|b r]; [reflexivity|].
    cbn [chunksOf List.length]. rewrite Nat2Z.inj_succ, IH
      by (rewrite length_skipn; cbn [List.length] in *; lia).
    unfold len. rewrite length_skipn.
    set (n := List.length (b :: r)) in *.
    assert (0 < n)%nat by (subst n; cbn; lia).
    destruct (Nat.le_gt_cases n 20).
    + replace (n - 20)%nat with 0%nat by lia. cbn [Z.of_nat].
      change ((0 + 19) / 20) with 0.
      assert ((Z.of_nat n + 19) / 20 = 1); [|lia].
      symmetry. apply Z.div_unique with (r := Z.of_nat n - 1); lia.
    + rewrite Nat2Z.inj_sub by lia.
      replace (Z.of_nat n + 19) with (Z.of_nat n - Z.of_nat 20 + 19 + 1 * 20) by lia.
      rewrite Z.div_add by lia. lia.
Qed.

Lemma chunksOf_shape : forall fuel data,
  (List.length data <= fuel)%nat ->
  forall k c, nth_error (chunksOf fuel data) k = Some c ->
    0 < len c <= 20
    /\ ((S k < List.length (chunksOf fuel data))%nat -> len c = 20).
Proof.
  induction fuel as [|fuel IH]; intros data H k c.
  - destruct data; [destruct k; discriminate|cbn in H; lia].
  - destruct data as [|b r]; [destruct k; discriminate|].
    cbn [chunksOf].
    assert (L0 : List.length (firstn 20 (b :: r))
                 = Nat.min 20 (List.length (b :: r))) by apply length_firstn.
    set (c0 := firstn 20 (b :: r)) in *.
    destruct k as [|k]; cbn [nth_error List.length].
    + intros [= <-]. unfold len. rewrite L0. cbn [List.length].
      split; [lia|]. intros Hk.
      destruct (chunksOf fuel (skipn 20 (b :: r))) as [|c1 cs] eqn:E;
        [cbn in Hk; lia|].
      destruct (skipn 20 (b :: r)) as [|x xs] eqn:Es;
        [destruct fuel; discriminate|].
      apply (f_equal (@List.length byte)) in Es. rewrite length_skipn in Es.
      cbn [List.length] in Es. lia.
    + intros Hc. apply IH in Hc;
        [|rewrite length_skipn; cbn [List.length] in *; lia].
      destruct Hc as [Hc1 Hc2]. split; [assumption|]. intros Hk. apply Hc2. lia.
Qed.

Lemma writeAll_accepted : forall ws p,
  accepts p (List.length ws) = true ->
  exists p', writeAll p ws = (p', true)
    /\ written p' = written p ++ ws
    /\ credit p' = option_map (fun c => (c - List.length ws)%nat) (credit p).
Proof.
  induction ws as [|w r IH]; intros p H; cbn [writeAll].
  - exists p. rewrite app_nil_r. repeat split.
    destruct (credit p); cbn; [f_equal; lia|reflexivity].
  - unfold accepts in H. unfold Port_Write.
    destruct p as [wr [[|c]|]]; cbn [credit written List.length] in *.
    + apply Nat.leb_le in H. lia.
    + destruct (IH (mkPort (wr ++ [w]) (Some c))) as (p' & E & W & C).
      { unfold accepts. cbn [credit]. apply Nat.leb_le in H. apply Nat.leb_le. lia. }
      exists p'. rewrite E. cbn [written credit] in *.
      rewrite W, <- app_assoc. repeat split. rewrite C. reflexivity.
    + destruct (IH (mkPort (wr ++ [w]) None)) as (p' & E & W & C); [reflexivity|].
      exists p'. rewrite E. cbn [written credit] in *.
      rewrite W, <- app_assoc. repeat split. assumption.
Qed.

Lemma writeAll_refused : forall ws p c,
  credit p = Some c -> (c < List.length ws)%nat ->
  exists p', writeAll p ws = (p', false)
    /\ written p' = written p ++ firstn c ws
    /\ credit p' = Some O.
Proof.
  induction ws as [|w r IH]; intros p c Hc H; cbn [List.length] in H; [lia|].
  cbn [writeAll]. unfold Port_Write. rewrite Hc. destruct c as [|c].
  - exists p. cbn [firstn]. rewrite app_nil_r. now repeat split.
  - destruct (IH (mkPort (written p ++ [w]) (Some c)) c) as (p' & E & W & C);
      [reflexivity|lia|].
    exists p'. rewrite E. cbn [written firstn] in *.
    rewrite W, <- app_assoc. now repeat split.
Qed.

Lemma frameWrites_length crc data :
  Z.of_nat (List.length (frameWrites crc data)) = 3 + (len data + 19) / 20.
Proof.
  unfold frameWrites. cbn [app List.length]. rewrite length_app.
  cbn [List.length]. rewrite Nat2Z.inj_succ, Nat2Z.inj_add.
  rewrite (chunksOf_length (List.length data) data) by lia.
  change (Z.of_nat 2) with 2. lia.
Qed.

Lemma frameWrites_concat crc data :
  List.concat (frameWrites crc data) = sendData_frame crc data.
Proof.
  unfold frameWrites, sendData_frame. cbn [app List.concat].
  rewrite concat_app, chunksOf_concat by lia. cbn [List.concat].
  now rewrite app_nil_r.
Qed.

Lemma sendData_accepted crc p data :
  accepts p (List.length (frameWrites crc data)) = true ->
  sendData crc p data
  = Some (mkPort (written p ++ frameWrites crc data)
                 (option_map (fun c => (c - List.length (frameWrites crc data))%nat)
                             (credit p)), true).
Proof.
  intros H. rewrite sendData_writeAll.
  destruct (writeAll_accepted _ _ H) as (p' & E & W & C). rewrite E.
  destruct p' as [w c]. cbn [written credit] in *. now subst.
Qed.

Lemma sendData_on_idle crc p data :
  credit p = None ->
  sendData crc p data = Some (mkPort (written p ++ frameWrites crc data) None, true).
Proof.
  intros H. rewrite sendData_accepted; unfold accepts; rewrite H; reflexivity.
Qed.

Lemma wire_app w1 w2 c c' :
  wire (mkPort (w1 ++ w2) c) = wire (mkPort w1 c') ++ List.concat w2.
Proof. unfold wire. cbn [written]. apply concat_app. Qed.

(** X1 (the writes of [sendData], both copies). On a port that accepts
    3 + ceil(len/20) more writes, [sendData] succeeds after exactly that many
    writes: the four bytes of the length, the payload in slices that hold
    exactly 20 bytes each except the last one, which holds between 1 and 20,
    the two bytes of the checksum, and the line feed. *)
Theorem sendData_write_sequence crc p data :
  accepts p (Z.to_nat (3 + (len data + 19) / 20)) = true ->
  exists p' chunks,
    sendData crc p data = Some (p', true)
    /\ written p' = written p ++ [BigEndian.PutUint32 (uint32 (len data))]
                    ++ chunks ++ [BigEndian.PutUint16 (crc data); [x0a]]
    /\ List.concat chunks = data
    /\ Z.of_nat (List.length chunks) = (len data + 19) / 20
    /\ (forall k c, nth_error chunks k = Some c ->
          0 < len c <= 20
          /\ ((S k < List.length chunks)%nat -> len c = 20)).
Proof.
  intros H.
  assert (L : Z.to_nat (3 + (len data + 19) / 20)
              = List.length (frameWrites crc data))
    by (rewrite <- (frameWrites_length crc data); lia).
  rewrite L in H. rewrite (sendData_accepted _ _ _ H).
  eexists. exists (chunksOf (List.length data) data).
  split; [reflexivity|]. cbn [written].
  split; [reflexivity|].
  split; [apply chunksOf_concat; lia|].
  split; [apply chunksOf_length; lia|].
  apply chunksOf_shape. lia.
Qed.

Lemma sendData_write_sequence_witness :
  accepts (mkPort [] (Some 5%nat)) (Z.to_nat (3 + (len json_payload_e30 + 19) / 20))
  = true
  /\ exists p' chunks,
    sendData SerialJsonSend.calculateCRC16 (mkPort [] (Some 5%nat)) json_payload_e30
    = Some (p', true)
    /\ written p' = written (mkPort [] (Some 5%nat))
                    ++ [BigEndian.PutUint32 (uint32 (len json_payload_e30))]
                    ++ chunks
                    ++ [BigEndian.PutUint16
                          (SerialJsonSend.calculateCRC16 json_payload_e30); [x0a]]
    /\ List.concat chunks = json_payload_e30
    /\ Z.of_nat (List.length chunks) = (len json_payload_e30 + 19) / 20
    /\ (forall k c, nth_error chunks k = Some c ->
          0 < len c <= 20
          /\ ((S k < List.length chunks)%nat -> len c = 20)).
Proof.
  split; [reflexivity|].
  apply (sendData_write_sequence SerialJsonSend.calculateCRC16
           (mkPort [] (Some 5%nat)) json_payload_e30).
  reflexivity.
Defined.

(** X2 (a failing port, both copies of [sendData]). When the port fails
    after [c] more writes and the frame needs more than [c], [sendData]
    returns the error after exactly the first [c] writes of the frame: what
    is on the wire is a proper beginning of the frame, nothing is written
    after the failed write, and the line feed is never sent. *)
Theorem sendData_refused crc p data c :
  credit p = Some c ->
  Z.of_nat c < 3 + (len data + 19) / 20 ->
  exists p' rest,
    sendData crc p data = Some (p', false)
    /\ written p' = written p ++ firstn c (frameWrites crc data)
    /\ wire p' ++ rest = wire p ++ sendData_frame crc data
    /\ rest <> [].
Proof.
  intros Hc H. rewrite <- (frameWrites_length crc data) in H.
  rewrite sendData_writeAll.
  destruct (writeAll_refused (frameWrites crc data) p c Hc) as (p' & E & W & C);
    [lia|].
  exists p', (List.concat (skipn c (frameWrites crc data))).
  split; [now rewrite E|]. split; [assumption|].
  split.
  - unfold wire. rewrite W, concat_app, <- app_assoc, <- concat_app, firstn_skipn.
    now rewrite frameWrites_concat.
  - unfold frameWrites.
    set (ws := [BigEndian.PutUint32 (uint32 (len data))]
               ++ chunksOf (List.length data) data).
    assert (Lws : (c < List.length (ws ++ [BigEndian.PutUint16 (crc data); [x0a]]))%nat).
    { unfold frameWrites in H. unfold ws. rewrite <- app_assoc. lia. }
    rewrite app_assoc. fold ws.
    rewrite length_app in Lws. cbn [List.length] in Lws.
    rewrite skipn_app.
    destruct (Nat.le_gt_cases c (List.length ws)) as [Le|Gt].
    + replace (c - List.length ws)%nat with 0%nat by lia. cbn [skipn].
      rewrite concat_app. intros Habs.
      apply app_eq_nil in Habs. destruct Habs as [_ Habs].
      cbn [List.concat] in Habs.
      apply app_eq_nil in Habs. destruct Habs as [_ Habs]. discriminate Habs.
    + rewrite skipn_all2 by lia.
      replace (c - List.length ws)%nat with 1%nat by lia. discriminate.
Qed.

Lemma sendData_refused_witness :
  credit (mkPort [] (Some 2%nat)) = Some 2%nat
  /\ Z.of_nat 2 < 3 + (len json_payload_e30 + 19) / 20
  /\ exists p' rest,
    sendData Send.calculateCRC16 (mkPort [] (Some 2%nat)) json_payload_e30
    = Some (p', false)
    /\ written p' = written (mkPort [] (Some 2%nat))
                    ++ firstn 2 (frameWrites Send.calculateCRC16 json_payload_e30)
    /\ wire p' ++ rest
       = wire (mkPort [] (Some 2%nat))
         ++ sendData_frame Send.calculateCRC16 json_payload_e30
    /\ rest <> [].
Proof.
  split; [reflexivity|]. split; [reflexivity|].
  apply (sendData_refused Send.calculateCRC16 (mkPort [] (Some 2%nat))
           json_payload_e30 2); reflexivity.
Defined.

(** ** The retry loops, for every transport *)

Lemma wire_sent crc w data :
  wire (mkPort (w ++ frameWrites crc data) None)
  = wire (mkPort w None) ++ sendData_frame crc data.
Proof. rewrite (wire_app _ _ _ None). now rewrite frameWrites_concat. Qed.

Lemma Send_sendData_idle w data :
  Send.sendData (mkPort w None) data
  = Some (mkPort (w ++ frameWrites Send.calculateCRC16 data) None, true).
Proof. apply (sendData_on_idle Send.calculateCRC16 (mkPort w None) data eq_refl). Qed.

Lemma SerialJson_sendData_idle w data :
  SerialJsonSend.sendData (mkPort w None) data
  = Some (mkPort (w ++ frameWrites SerialJsonSend.calculateCRC16 data) None, true).
Proof.
  apply (sendData_on_idle SerialJsonSend.calculateCRC16 (mkPort w None) data eq_refl).
Qed.

Lemma Send_main_idle replies data w :
  let o := Send.main replies data (mkPort w None) in
  let k := if isOK (replies 1) then 1%nat
           else if isOK (replies 2) then 2%nat else 3%nat in
  sends o = k
  /\ wire (port o) = wire (mkPort w None) ++ resend Send.calculateCRC16 data k
  /\ exit o
     = if isOK (replies 1) || isOK (replies 2) || isOK (replies 3) then Done
       else match replies 3 with
            | Some s => if String.eqb s "RETRY" then Done
                        else Fatal "max retries reached"
            | None => Done
            end.
Proof.
  unfold Send.main, maxRetries. change (Z.to_nat 3) with 3%nat.
  cbn [Send.retryLoop Z.leb Z.compare Z.add Pos.compare Pos.compare_cont
       Pos.add Pos.succ Z.eqb Pos.eqb].
  unfold maxRetries.
  cbn [Send.retryLoop Z.leb Z.compare Z.add Pos.compare Pos.compare_cont
       Pos.add Pos.succ Z.eqb Pos.eqb].
  rewrite !Send_sendData_idle.
  unfold isOK.
  destruct (replies 1) as [s1|]; [destruct (String.eqb s1 "OK") eqn:E1;
    [|destruct (String.eqb s1 "RETRY")]|];
  cbn [Send.retryLoop Z.leb Z.compare Z.add Pos.compare Pos.compare_cont
       Pos.add Pos.succ Z.eqb Pos.eqb orb sends port exit];
  rewrite ?Send_sendData_idle;
  try (destruct (replies 2) as [s2|]; [destruct (String.eqb s2 "OK") eqn:E2;
    [|destruct (String.eqb s2 "RETRY")]|]);
  cbn [Send.retryLoop Z.leb Z.compare Z.add Pos.compare Pos.compare_cont
       Pos.add Pos.succ Z.eqb Pos.eqb orb sends port exit];
  rewrite ?Send_sendData_idle;
  try (destruct (replies 3) as [s3|]; [destruct (String.eqb s3 "OK") eqn:E3;
    [|destruct (String.eqb s3 "RETRY")]|]);
  cbn [Send.retryLoop Z.leb Z.compare Z.add Pos.compare Pos.compare_cont
       Pos.add Pos.succ Z.eqb Pos.eqb orb sends port exit resend];
  rewrite ?wire_sent, <- ?app_assoc, ?app_nil_r; repeat split; reflexivity.
Qed.

Lemma SerialJson_main_idle scripts data w :
  let r := fun attempt =>
    SerialJsonSend.readFeedback (3 * 1000000000) (scripts attempt) "" in
  let o := SerialJsonSend.main scripts data (mkPort w None) in
  let k := if isOK (r 1) then 1%nat else 2%nat in
  sends o = k
  /\ wire (port o)
     = wire (mkPort w None) ++ resend SerialJsonSend.calculateCRC16 data k
  /\ exit o = if isOK (r 1) || isOK (r 2) then Done
              else Fatal "max retries reached".
Proof.
  unfold SerialJsonSend.main, maxRetries. change (Z.to_nat 3) with 3%nat.
  cbn [SerialJsonSend.retryLoop Z.leb Z.compare Z.add Pos.compare
       Pos.compare_cont Pos.add Pos.succ Z.eqb Pos.eqb].
  unfold maxRetries.
  cbn [SerialJsonSend.retryLoop Z.leb Z.compare Z.add Pos.compare
       Pos.compare_cont Pos.add Pos.succ Z.eqb Pos.eqb].
  rewrite !SerialJson_sendData_idle.
  unfold isOK.
  destruct (SerialJsonSend.readFeedback _ (scripts 1) "") as [s1|];
    [destruct (String.eqb s1 "OK") eqn:E1; [|destruct (String.eqb s1 "RETRY")]|];
  cbn [SerialJsonSend.retryLoop Z.leb Z.compare Z.add Pos.compare
       Pos.compare_cont Pos.add Pos.succ Z.eqb Pos.eqb orb sends port exit];
  rewrite ?SerialJson_sendData_idle;
  try (destruct (SerialJsonSend.readFeedback _ (scripts 2) "") as [s2|];
    [destruct (String.eqb s2 "OK") eqn:E2; [|destruct (String.eqb s2 "RETRY")]|]);
  cbn [SerialJsonSend.retryLoop Z.leb Z.compare Z.add Pos.compare
       Pos.compare_cont Pos.add Pos.succ Z.eqb Pos.eqb orb sends port exit resend];
  rewrite ?wire_sent, <- ?app_assoc, ?app_nil_r; repeat split; reflexivity.
Qed.

(** X3 (the loop of send/send.go, for every transport). On a port that
    accepts every write the program sends the frame once per attempt, up to
    the first attempt answered with OK and three times at most, and nothing
    else goes on the wire. It ends in [log.Fatalf] only when no attempt was
    answered with OK and the third read returned a string other than RETRY;
    three answers RETRY, or a failing third read, end with the completion
    message. *)
Theorem Send_main_outcome replies data p :
  credit p = None ->
  let o := Send.main replies data p in
  let k := if isOK (replies 1) then 1%nat
           else if isOK (replies 2) then 2%nat else 3%nat in
  sends o = k
  /\ wire (port o) = wire p ++ resend Send.calculateCRC16 data k
  /\ exit o
     = if isOK (replies 1) || isOK (replies 2) || isOK (replies 3) then Done
       else match replies 3 with
            | Some s => if String.eqb s "RETRY" then Done
                        else Fatal "max retries reached"
            | None => Done
            end.
Proof.
  destruct p as [w c]. cbn [credit]. intros ->. apply Send_main_idle.
Qed.

Lemma Send_main_outcome_witness :
  credit idlePort = None
  /\ sends (Send.main okOnSecond json_a1 idlePort) = 2%nat
  /\ wire (port (Send.main okOnSecond json_a1 idlePort))
     = wire idlePort ++ resend Send.calculateCRC16 json_a1 2
  /\ exit (Send.main okOnSecond json_a1 idlePort) = Done.
Proof.
  split; [reflexivity|].
  apply (Send_main_outcome okOnSecond json_a1 idlePort). reflexivity.
Defined.

(** X4 (the loop of serialJson/send/send.go, for every transport). On a
    port that accepts every write the program sends the frame once, and a
    second time when [readFeedback] did not return OK; a third transmission
    never takes place. It ends normally exactly when the first or the second
    wait returned OK, and in [log.Fatalf] otherwise. *)
Theorem SerialJson_main_outcome scripts data p :
  credit p = None ->
  let r := fun attempt =>
    SerialJsonSend.readFeedback (3 * 1000000000) (scripts attempt) "" in
  let o := SerialJsonSend.main scripts data p in
  let k := if isOK (r 1) then 1%nat else 2%nat in
  sends o = k
  /\ wire (port o) = wire p ++ resend SerialJsonSend.calculateCRC16 data k
  /\ exit o = if isOK (r 1) || isOK (r 2) then Done
              else Fatal "max retries reached".
Proof.
  destruct p as [w c]. cbn [credit]. intros ->. apply SerialJson_main_idle.
Qed.

Lemma SerialJson_main_outcome_witness :
  credit idlePort = None
  /\ sends (SerialJsonSend.main retryInTwo json_a1 idlePort) = 2%nat
  /\ wire (port (SerialJsonSend.main retryInTwo json_a1 idlePort))
     = wire idlePort ++ resend SerialJsonSend.calculateCRC16 json_a1 2
  /\ exit (SerialJsonSend.main retryInTwo json_a1 idlePort)
     = Fatal "max retries reached".
Proof.
  split; [reflexivity|].
  apply (SerialJson_main_outcome retryInTwo json_a1 idlePort). reflexivity.
Defined.

(** X5 (a port that fails during the first transmission). Both programs
    stop in [log.Fatalf] on the error of [sendData], without reading any
    feedback and without a second attempt; the port holds the writes that
    succeeded before the failure. *)
Theorem main_send_failure replies scripts data p c :
  credit p = Some c ->
  Z.of_nat c < 3 + (len data + 19) / 20 ->
  (exit (Send.main replies data p) = Fatal "send failed"
   /\ sends (Send.main replies data p) = 1%nat
   /\ written (port (Send.main replies data p))
      = written p ++ firstn c (frameWrites Send.calculateCRC16 data))
  /\ (exit (SerialJsonSend.main scripts data p) = Fatal "send failed"
      /\ sends (SerialJsonSend.main scripts data p) = 1%nat
      /\ written (port (SerialJsonSend.main scripts data p))
         = written p ++ firstn c (frameWrites SerialJsonSend.calculateCRC16 data)).
Proof.
  intros Hc H. split.
  - unfold Send.main, maxRetries. change (Z.to_nat 3) with 3%nat.
    cbn [Send.retryLoop Z.leb Z.compare Pos.compare Pos.compare_cont].
    unfold Send.sendData. rewrite sendData_writeAll.
    rewrite <- (frameWrites_length Send.calculateCRC16 data) in H.
    destruct (writeAll_refused (frameWrites Send.calculateCRC16 data) p c Hc)
      as (p' & E & W & C); [lia|].
    rewrite E. cbn [exit sends port]. repeat split. exact W.
  - unfold SerialJsonSend.main, maxRetries. change (Z.to_nat 3) with 3%nat.
    cbn [SerialJsonSend.retryLoop Z.leb Z.compare Pos.compare Pos.compare_cont
         Z.eqb Pos.eqb].
    unfold SerialJsonSend.sendData. rewrite sendData_writeAll.
    rewrite <- (frameWrites_length SerialJsonSend.calculateCRC16 data) in H.
    destruct (writeAll_refused (frameWrites SerialJsonSend.calculateCRC16 data)
                p c Hc) as (p' & E & W & C); [lia|].
    rewrite E. cbn [exit sends port]. repeat split. exact W.
Qed.

Lemma main_send_failure_witness :
  credit (mkPort [] (Some 3%nat)) = Some 3%nat
  /\ Z.of_nat 3 < 3 + (len json_a1 + 19) / 20
  /\ (exit (Send.main allRetry json_a1 (mkPort [] (Some 3%nat)))
      = Fatal "send failed"
      /\ sends (Send.main allRetry json_a1 (mkPort [] (Some 3%nat))) = 1%nat
      /\ written (port (Send.main allRetry json_a1 (mkPort [] (Some 3%nat))))
         = written (mkPort [] (Some 3%nat))
           ++ firstn 3 (frameWrites Send.calculateCRC16 json_a1)).
Proof.
  split; [reflexivity|]. split; [reflexivity|].
  apply (main_send_failure allRetry retryAtOnce json_a1
           (mkPort [] (Some 3%nat)) 3); reflexivity.
Defined.

(** ** readFeedback *)

Lemma str_app_assoc (a b c : string) :
  String.append (String.append a b) c = String.append a (String.append b c).
Proof. induction a as [|x a IH]; cbn; [reflexivity|now rewrite IH]. Qed.

Lemma str_app_nil_r (a : string) : String.append a "" = a.
Proof. induction a as [|x a IH]; cbn; [reflexivity|now rewrite IH]. Qed.

Lemma str_length_app (a b : string) :
  String.length (String.append a b) = (String.length a + String.length b)%nat.
Proof. induction a as [|x a IH]; cbn; [reflexivity|now rewrite IH]. Qed.

Lemma substring_all (s : string) : forall n,
  (String.length s <= n)%nat -> substring 0 n s = s.
Proof.
  induction s as [|x s IH]; intros [|n] H; cbn in *; try reflexivity; try lia.
  rewrite IH by lia. reflexivity.
Qed.

Lemma prefix_app (a b : string) : String.prefix a (String.append a b) = true.
Proof.
  induction a as [|x a IH]; cbn; [now destruct b|].
  destruct (Ascii.ascii_dec x x); [assumption|contradiction].
Qed.

Lemma prefix_app_inv (a x : string) : forall t,
  String.prefix (String.append a x) t = true -> String.prefix a t = true.
Proof.
  induction a as [|c a IH]; intros t H; [now destruct t|].
  destruct t as [|d t]; cbn in *; [discriminate|].
  destruct (Ascii.ascii_dec c d); [now apply IH|discriminate].
Qed.

Lemma readFeedback_None_of_nonprefix timeout reads : forall got,
  String.prefix got "OK" = false -> String.prefix got "RETRY" = false ->
  SerialJsonSend.readFeedback timeout reads got = None.
Proof.
  induction reads as [|[e [s|]] rest IH]; intros got H1 H2;
    cbn [SerialJsonSend.readFeedback]; try reflexivity;
    [|now destruct (e <? timeout)].
  destruct (e <? timeout); [|reflexivity].
  set (got' := String.append got (substring 0 (10 - String.length got) s)).
  assert (N1 : String.prefix got' "OK" = false).
  { destruct (String.prefix got' "OK") eqn:P; [|reflexivity].
    apply prefix_app_inv in P. congruence. }
  assert (N2 : String.prefix got' "RETRY" = false).
  { destruct (String.prefix got' "RETRY") eqn:P; [|reflexivity].
    apply prefix_app_inv in P. congruence. }
  assert (T1 : String.eqb got' "OK" = false).
  { apply String.eqb_neq. intros E. rewrite E in N1. discriminate N1. }
  assert (T2 : String.eqb got' "RETRY" = false).
  { apply String.eqb_neq. intros E. rewrite E in N2. discriminate N2. }
  rewrite T1, T2. cbn [orb]. rewrite andb_false_r. now apply IH.
Qed.

(** X6 ([readFeedback] returns tokens only). Whatever the port delivers,
    a result without error is the string OK or the string RETRY, and it
    begins with what had been read before. *)
Theorem readFeedback_returns_token timeout reads : forall got s,
  SerialJsonSend.readFeedback timeout reads got = Some s ->
  (s = "OK" \/ s = "RETRY") /\ String.prefix got s = true.
Proof.
  induction reads as [|[e [r|]] rest IH]; intros got s;
    cbn [SerialJsonSend.readFeedback]; try discriminate;
    [|now destruct (e <? timeout)].
  destruct (e <? timeout); [|discriminate].
  set (got' := String.append got (substring 0 (10 - String.length got) r)).
  destruct ((0 <? String.length got')%nat
            && (String.eqb got' "OK" || String.eqb got' "RETRY")) eqn:C.
  - intros [= <-]. apply andb_true_iff in C. destruct C as [_ C].
    apply orb_true_iff in C. split.
    + destruct C as [C|C]; apply String.eqb_eq in C; auto.
    + apply prefix_app.
  - intros H. destruct (IH _ _ H) as [T P]. split; [assumption|].
    now apply prefix_app_inv in P.
Qed.

Lemma readFeedback_returns_token_witness :
  SerialJsonSend.readFeedback 3000000000 (retryInTwo 1) "" = Some "RETRY"
  /\ ("RETRY" = "OK" \/ "RETRY" = "RETRY") /\ String.prefix "" "RETRY" = true.
Proof.
  split; [reflexivity|].
  apply (readFeedback_returns_token 3000000000 (retryInTwo 1) "" "RETRY").
  reflexivity.
Defined.

(** X7 (bytes that begin no token). Once the bytes read so far, cut to the
    ten bytes of the buffer, are not a beginning of OK or of RETRY,
    [readFeedback] ends in its error whatever arrives later: the buffer is
    never cleared, so a stray byte before a token, or two tokens in one read,
    make the sender miss the answer. *)
Theorem readFeedback_stray_bytes timeout e s rest got :
  String.prefix (String.append got (substring 0 (10 - String.length got) s))
                "OK" = false ->
  String.prefix (String.append got (substring 0 (10 - String.length got) s))
                "RETRY" = false ->
  SerialJsonSend.readFeedback timeout ((e, Some s) :: rest) got = None.
Proof.
  intros N1 N2. cbn [SerialJsonSend.readFeedback].
  destruct (e <? timeout); [|reflexivity].
  set (got' := String.append got (substring 0 (10 - String.length got) s)) in *.
  assert (T1 : String.eqb got' "OK" = false).
  { apply String.eqb_neq. intros E. rewrite E in N1. discriminate N1. }
  assert (T2 : String.eqb got' "RETRY" = false).
  { apply String.eqb_neq. intros E. rewrite E in N2. discriminate N2. }
  rewrite T1, T2. cbn [orb]. rewrite andb_false_r.
  now apply readFeedback_None_of_nonprefix.
Qed.

Lemma readFeedback_stray_bytes_witness :
  String.prefix (String.append "" (substring 0 (10 - String.length "") "OKOK"))
                "OK" = false
  /\ String.prefix (String.append "" (substring 0 (10 - String.length "") "OKOK"))
                   "RETRY" = false
  /\ SerialJsonSend.readFeedback 3000000000
       [(0, Some "OKOK"); (510000000, Some "OK")] "" = None.
Proof.
  split; [reflexivity|]. split; [reflexivity|].
  apply (readFeedback_stray_bytes 3000000000 0 "OKOK" [(510000000, Some "OK")] "");
    reflexivity.
Defined.

Lemma token_extension (a r tok : string) :
  isToken a = true -> isToken tok = true -> String.append a r = tok -> a = tok.
Proof.
  unfold isToken. intros Ha Ht E.
  apply orb_true_iff in Ha. apply orb_true_iff in Ht.
  destruct Ha as [Ha|Ha], Ht as [Ht|Ht];
    apply String.eqb_eq in Ha, Ht; subst a; try (subst tok; reflexivity);
    rewrite Ht in E; cbn in E; try discriminate E.
Qed.

Lemma readFeedback_pieces_from timeout tok pieces : forall got,
  isToken tok = true -> isToken got = false ->
  String.append got (fold_right String.append "" (map snd pieces)) = tok ->
  Forall (fun x => fst x < timeout) pieces ->
  SerialJsonSend.readFeedback timeout
    (map (fun x => (fst x, Some (snd x))) pieces) got = Some tok.
Proof.
  induction pieces as [|[e s] rest IH]; intros got Ht Hg E Hall.
  - cbn in E. rewrite str_app_nil_r in E. congruence.
  - apply Forall_cons_iff in Hall. destruct Hall as [He Hall]. cbn [fst] in He.
    cbn [map fst snd fold_right] in *. cbn [SerialJsonSend.readFeedback].
    replace (e <? timeout) with true by lia.
    assert (L : (String.length got + String.length s <= 5)%nat).
    { assert (L5 : (String.length tok <= 5)%nat).
      { unfold isToken in Ht. apply orb_true_iff in Ht.
        destruct Ht as [Ht|Ht]; apply String.eqb_eq in Ht; subst tok; cbn; lia. }
      rewrite <- E in L5. rewrite !str_length_app in L5. lia. }
    rewrite substring_all by lia.
    rewrite <- str_app_assoc in E.
    fold (isToken (String.append got s)).
    destruct (isToken (String.append got s)) eqn:T.
    + assert (G : String.append got s = tok) by (eapply token_extension; eauto).
      rewrite G.
      replace (0 <? String.length tok)%nat with true; [reflexivity|].
      unfold isToken in Ht. apply orb_true_iff in Ht.
      destruct Ht as [Ht|Ht]; apply String.eqb_eq in Ht; subst tok; reflexivity.
    + rewrite andb_false_r. now apply IH.
Qed.

(** X8 (a token that comes in pieces). When the reads of one wait deliver
    byte strings, empty ones included, that put together spell OK or spell
    RETRY, and each read starts before the time is over, [readFeedback]
    returns that token. *)
Theorem readFeedback_reassembles timeout tok pieces :
  isToken tok = true ->
  fold_right String.append "" (map snd pieces) = tok ->
  Forall (fun x => fst x < timeout) pieces ->
  SerialJsonSend.readFeedback timeout
    (map (fun x => (fst x, Some (snd x))) pieces) "" = Some tok.
Proof.
  intros Ht E Hall. now apply readFeedback_pieces_from.
Qed.

Lemma readFeedback_reassembles_witness :
  isToken "RETRY" = true
  /\ SerialJsonSend.readFeedback 3000000000
       (map (fun x => (fst x, Some (snd x)))
            [(0, ""); (510000000, "RET"); (520000000, ""); (530000000, "RY")]) ""
     = Some "RETRY".
Proof.
  split; [reflexivity|].
  apply (readFeedback_reassembles 3000000000 "RETRY"
           [(0, ""); (510000000, "RET"); (520000000, ""); (530000000, "RY")]).
  - reflexivity.
  - reflexivity.
  - repeat constructor.
Defined.

(** ** The loop of Start, for every sequence of reads *)

Lemma run_total (body : Recv -> ReadResult -> option (Recv * list Effect)) :
  (forall st r, exists res, body st r = Some res) ->
  forall rs st, exists st' e, run body st rs = Some (st', e).
Proof.
  intros T. induction rs as [|r rs IH]; intros st; cbn [run]; [eauto|].
  destruct (T st r) as [[st1 e1] E1]. rewrite E1.
  destruct (IH st1) as (st2 & e2 & E2). rewrite E2. eauto.
Qed.

Lemma tidy_nil cfg : tidy cfg [].
Proof. split; [now destruct (Serialcomm.ReadCallback cfg)|constructor]. Qed.

Lemma tidy_retry cfg : tidy cfg [Feedback "RETRY"].
Proof.
  split; [now destruct (Serialcomm.ReadCallback cfg)|].
  constructor; [auto|constructor].
Qed.

Lemma tidy_ok cfg msg payload :
  tidy cfg ((if Serialcomm.ReadCallback cfg then [Callback msg payload] else [])
            ++ [Feedback "OK"]).
Proof.
  split.
  - now destruct (Serialcomm.ReadCallback cfg).
  - destruct (Serialcomm.ReadCallback cfg); cbn [app].
    + apply Forall_cons; [right; right; eauto|].
      apply Forall_cons; [now left|constructor].
    + apply Forall_cons; [now left|constructor].
Qed.

Lemma countOK_app a b : countOK (a ++ b) = (countOK a + countOK b)%nat.
Proof.
  induction a as [|[s| |] a IH]; cbn; try assumption; try reflexivity.
  destruct (String.eqb s "OK"); cbn; now rewrite IH.
Qed.

Lemma countCallback_app a b :
  countCallback (a ++ b) = (countCallback a + countCallback b)%nat.
Proof.
  induction a as [|[s| |] a IH]; cbn; try assumption; try reflexivity.
  now rewrite IH.
Qed.

Lemma tidy_app cfg a b : tidy cfg a -> tidy cfg b -> tidy cfg (a ++ b).
Proof.
  intros [Ca Fa] [Cb Fb]. split.
  - rewrite countCallback_app, countOK_app, Ca, Cb.
    now destruct (Serialcomm.ReadCallback cfg).
  - apply Forall_app. now split.
Qed.

Lemma bounded_reset cfg st : bounded cfg (reset st).
Proof.
  pose proof (Z.mod_pos_bound (Serialcomm.MaxLength cfg) (2 ^ 32)) as M.
  unfold bounded, reset, Serialcomm.MaxFrameLength, uint32.
  cbn [expectedLength buffer]. split; [lia|]. intros _. reflexivity.
Qed.

Lemma Serialcomm_frameStage_tidy lib cfg st :
  0 < expectedLength st <= Serialcomm.MaxFrameLength cfg ->
  exists st' e, Serialcomm.frameStage lib cfg st = Some (st', e)
    /\ tidy cfg e /\ bounded cfg st'.
Proof.
  intros B.
  assert (Bst : forall b, bounded cfg (with_buffer st b)).
  { intros b. unfold bounded. cbn [with_buffer expectedLength]. lia. }
  unfold Serialcomm.frameStage, Buffer.Next, Buffer.Len.
  destruct ((expectedLength st >? 0) && _) eqn:G.
  - apply andb_true_iff in G. destruct G as [G1 G2].
    assert (L : (2 <= List.length (skipn (Z.to_nat (expectedLength st)) (buffer st)))%nat).
    { rewrite length_skipn. unfold len in G2. lia. }
    destruct (skipn (Z.to_nat (expectedLength st)) (buffer st)) as [|c0 [|c1 r]];
      try (cbn [List.length] in L; lia).
    change (Z.to_nat 2) with 2%nat. cbn [firstn skipn]. rewrite Uint16_value.
    destruct (negb _).
    { do 2 eexists. split; [reflexivity|].
      split; [apply tidy_retry|apply bounded_reset]. }
    destruct (json_Unmarshal_Message lib _) as [msg|].
    2:{ do 2 eexists. split; [reflexivity|].
        split; [apply tidy_retry|apply bounded_reset]. }
    destruct (base64_DecodeString lib _) as [pb|].
    2:{ do 2 eexists. split; [reflexivity|]. split; [apply tidy_nil|apply Bst]. }
    destruct (json_Unmarshal_Payload lib _) as [payload|].
    2:{ do 2 eexists. split; [reflexivity|]. split; [apply tidy_nil|apply Bst]. }
    do 2 eexists. split; [reflexivity|].
    split; [apply tidy_ok|apply bounded_reset].
  - exists st, []. split; [reflexivity|]. split; [apply tidy_nil|].
    unfold bounded. lia.
Qed.

Lemma Serialcomm_step_tidy lib cfg st r :
  bounded cfg st ->
  exists st' e, Serialcomm.step lib cfg st r = Some (st', e)
    /\ tidy cfg e /\ bounded cfg st'.
Proof.
  intros [B1 B2]. destruct r as [|now data]; cbn [Serialcomm.step].
  { exists st, []. split; [reflexivity|]. split; [apply tidy_nil|now split]. }
  destruct (Z.eqb_spec (len data) 0) as [Z0|NZ].
  { destruct (_ && _).
    - do 2 eexists. split; [reflexivity|].
      split; [apply tidy_retry|apply bounded_reset].
    - exists st, []. split; [reflexivity|]. split; [apply tidy_nil|now split]. }
  unfold Buffer.Write, Buffer.Len, Buffer.Next. cbn [buffer expectedLength].
  destruct ((expectedLength st =? 0) && _) eqn:G.
  - apply andb_true_iff in G. destruct G as [_ G]. apply Z.geb_le in G.
    change (Z.to_nat 4) with 4%nat.
    destruct (buffer st ++ data) as [|b0 [|b1 [|b2 [|b3 r]]]];
      try (unfold len in G; cbn [List.length] in G; lia).
    cbn [firstn skipn].
    destruct (BigEndian.Uint32 [b0; b1; b2; b3]) as [n|] eqn:U;
      [|rewrite Uint32_value in U; discriminate].
    pose proof (Uint32_range _ _ U) as Rn.
    destruct ((n >? uint32 (Serialcomm.MaxLength cfg)) || (n =? 0)) eqn:V.
    + do 2 eexists. split; [reflexivity|].
      split; [apply tidy_retry|apply bounded_reset].
    + apply orb_false_iff in V. destruct V as [V1 V2].
      apply Serialcomm_frameStage_tidy. cbn [expectedLength].
      unfold Serialcomm.MaxFrameLength. lia.
  - destruct (Z.eqb_spec (expectedLength st) 0) as [E0|NE].
    + cbn [andb] in G. rewrite Z.geb_leb in G.
      exists (mkRecv (buffer st ++ data) (expectedLength st) now), [].
      split.
      * unfold Serialcomm.frameStage. cbn [expectedLength].
        rewrite E0. reflexivity.
      * split; [apply tidy_nil|]. unfold bounded, Buffer.Len.
        cbn [expectedLength buffer]. split; [lia|]. intros _.
        apply Z.leb_gt in G. lia.
    + apply Serialcomm_frameStage_tidy. cbn [expectedLength]. lia.
Qed.

Lemma bounded_fresh cfg t0 : bounded cfg (fresh t0).
Proof.
  pose proof (Z.mod_pos_bound (Serialcomm.MaxLength cfg) (2 ^ 32)) as M.
  unfold bounded, fresh, Serialcomm.MaxFrameLength, uint32.
  cbn [expectedLength buffer]. split; [lia|]. intros _. reflexivity.
Qed.

Lemma Serialcomm_run_tidy lib cfg rs : forall st,
  bounded cfg st ->
  exists st' e, run (Serialcomm.step lib cfg) st rs = Some (st', e)
    /\ tidy cfg e /\ bounded cfg st'.
Proof.
  induction rs as [|r rs IH]; intros st B; cbn [run].
  - exists st, []. split; [reflexivity|]. split; [apply tidy_nil|assumption].
  - destruct (Serialcomm_step_tidy lib cfg st r B) as (st1 & e1 & E1 & T1 & B1).
    rewrite E1.
    destruct (IH st1 B1) as (st2 & e2 & E2 & T2 & B2). rewrite E2.
    exists st2, (e1 ++ e2). split; [reflexivity|].
    split; [now apply tidy_app|assumption].
Qed.

(** X9 (the loop of [Start] never panics). From any state, whatever the
    reads return, each turn of the loop ends: [buffer.Next] always hands
    the two decoders of [encoding/binary] the four and the two bytes they
    index. *)
Theorem Start_loop_never_panics lib cfg st rs :
  exists st' e, run (Serialcomm.step lib cfg) st rs = Some (st', e).
Proof. apply run_total. apply Serialcomm_step_total. Qed.

(** X10 (acknowledgement and delivery go together). Over any sequence of
    reads the loop of [Start] writes no token other than OK and RETRY, and
    when a handler is configured it calls the handler exactly as many times
    as it writes OK; without a handler it still writes OK for each frame it
    accepts. *)
Theorem ok_matches_callback lib cfg rs t0 st e :
  run (Serialcomm.step lib cfg) (fresh t0) rs = Some (st, e) ->
  countCallback e = (if Serialcomm.ReadCallback cfg then countOK e else 0%nat)
  /\ Forall (fun x => x = Feedback "OK" \/ x = Feedback "RETRY"
                      \/ exists msg payload, x = Callback msg payload) e.
Proof.
  intros H.
  destruct (Serialcomm_run_tidy lib cfg rs (fresh t0) (bounded_fresh cfg t0))
    as (st' & e' & E & T & _).
  rewrite H in E. injection E as <- <-. exact T.
Qed.

Lemma ok_matches_callback_witness :
  run (Serialcomm.step sampleLib demoConfig) (fresh 0)
      (reads (split3 (Serialcomm.Send_frame json_payload_e30)))
  = Some (mkRecv [] 0 3,
          [Callback (Message.mk "" "" "" "" 0 "e30=" "") Payload.zero;
           Feedback "OK"])
  /\ countCallback [Callback (Message.mk "" "" "" "" 0 "e30=" "") Payload.zero;
                    Feedback "OK"]
     = (if Serialcomm.ReadCallback demoConfig
        then countOK [Callback (Message.mk "" "" "" "" 0 "e30=" "") Payload.zero;
                      Feedback "OK"]
        else 0%nat).
Proof.
  split; [vm_compute; reflexivity|].
  apply (ok_matches_callback sampleLib demoConfig
           (reads (split3 (Serialcomm.Send_frame json_payload_e30))) 0
           (mkRecv [] 0 3)).
  vm_compute. reflexivity.
Defined.

(** X11 (the announced length stays within the bound). After any sequence
    of reads fed to a fresh receiver, the length the loop is waiting for is
    at most [uint32(MaxLength)], and while no length is pending fewer than
    four bytes are buffered. *)
Theorem expected_length_bounded lib cfg rs t0 st e :
  run (Serialcomm.step lib cfg) (fresh t0) rs = Some (st, e) ->
  0 <= expectedLength st <= Serialcomm.MaxFrameLength cfg
  /\ (expectedLength st = 0 -> Buffer.Len (buffer st) < 4).
Proof.
  intros H.
  destruct (Serialcomm_run_tidy lib cfg rs (fresh t0) (bounded_fresh cfg t0))
    as (st' & e' & E & _ & B).
  rewrite H in E. injection E as <- <-. exact B.
Qed.

Lemma expected_length_bounded_witness :
  run (Serialcomm.step sampleLib demoConfig) (fresh 0)
      (reads (split3 (Serialcomm.Send_frame json_a1)))
  = Some (mkRecv [] 7 3, [])
  /\ 0 <= expectedLength (mkRecv [] 7 3) <= Serialcomm.MaxFrameLength demoConfig.
Proof.
  split; [vm_compute; reflexivity|].
  apply (expected_length_bounded sampleLib demoConfig
           (reads (split3 (Serialcomm.Send_frame json_a1))) 0 (mkRecv [] 7 3) []).
  vm_compute. reflexivity.
Defined.

(** ** Frames and what surrounds them *)

Lemma step_frame_and_more lib cfg P more t now :
  0 < len P <= Serialcomm.MaxFrameLength cfg ->
  Serialcomm.step lib cfg (mkRecv [] 0 t)
    (ReadOk now (Serialcomm.Send_frame P ++ more))
  = Serialcomm.frameStage lib cfg
      (mkRecv (P ++ BigEndian.PutUint16 (Serialcomm.calculateCRC16 P) ++ more)
              (len P) now).
Proof.
  intros HP. destruct (Send_frame_shape cfg P HP) as [F HU]. rewrite F.
  unfold Serialcomm.step.
  assert (L4 : List.length (BigEndian.PutUint32 (len P)) = 4%nat) by reflexivity.
  rewrite <- !app_assoc.
  set (tl := P ++ BigEndian.PutUint16 (Serialcomm.calculateCRC16 P) ++ more).
  assert (Lf : len (BigEndian.PutUint32 (len P) ++ tl) = 4 + len tl)
    by (rewrite len_app; reflexivity).
  pose proof (len_nonneg tl) as Ltl.
  replace (len (BigEndian.PutUint32 (len P) ++ tl) =? 0) with false by lia.
  unfold Buffer.Write, Buffer.Len, Buffer.Next.
  cbn [buffer expectedLength app Z.eqb andb].
  replace (len (BigEndian.PutUint32 (len P) ++ tl) >=? 4) with true by lia.
  change (Z.to_nat 4) with 4%nat.
  change (firstn 4 (BigEndian.PutUint32 (len P) ++ tl))
    with (BigEndian.PutUint32 (len P)).
  change (skipn 4 (BigEndian.PutUint32 (len P) ++ tl)) with tl.
  rewrite HU.
  unfold Serialcomm.MaxFrameLength in HP.
  replace (len P >? uint32 (Serialcomm.MaxLength cfg)) with false by lia.
  replace (len P =? 0) with false by lia. reflexivity.
Qed.

Lemma step_frame_accepted lib cfg P msg payloadBytes payload more t now :
  0 < len P <= Serialcomm.MaxFrameLength cfg ->
  json_Unmarshal_Message lib P = Some msg ->
  base64_DecodeString lib (Message.Payload msg) = Some payloadBytes ->
  json_Unmarshal_Payload lib payloadBytes = Some payload ->
  Serialcomm.step lib cfg (mkRecv [] 0 t)
    (ReadOk now (Serialcomm.Send_frame P ++ more))
  = Some (mkRecv [] 0 now,
          (if Serialcomm.ReadCallback cfg then [Callback msg payload] else [])
          ++ [Feedback "OK"]).
Proof.
  intros HP Hm Hb Hp. rewrite step_frame_and_more by assumption.
  rewrite (frameStage_complete_more _ _ _ _ _ _ _ (Serialcomm.calculateCRC16 P));
    try reflexivity; try lia; [|apply Uint16_of_crc].
  rewrite Z.eqb_refl. cbn [negb]. now rewrite Hm, Hb, Hp.
Qed.

(** X12 (bytes that follow a frame in the same read are lost). When one
    read brings the whole frame of an acceptable payload and further bytes
    behind it, the frame is delivered and acknowledged and the further bytes
    are thrown away with the buffer: of two frames that arrive in a single
    read, only the first is ever seen. *)
Theorem trailing_bytes_dropped lib cfg P msg payloadBytes payload more t0 now :
  0 < len P <= Serialcomm.MaxFrameLength cfg ->
  json_Unmarshal_Message lib P = Some msg ->
  base64_DecodeString lib (Message.Payload msg) = Some payloadBytes ->
  json_Unmarshal_Payload lib payloadBytes = Some payload ->
  Serialcomm.step lib cfg (fresh t0)
    (ReadOk now (Serialcomm.Send_frame P ++ more))
  = Some (mkRecv [] 0 now,
          (if Serialcomm.ReadCallback cfg then [Callback msg payload] else [])
          ++ [Feedback "OK"]).
Proof. apply step_frame_accepted. Qed.

Lemma trailing_bytes_dropped_witness :
  0 < len json_payload_e30 <= Serialcomm.MaxFrameLength demoConfig
  /\ Serialcomm.step sampleLib demoConfig (fresh 0)
       (ReadOk 1 (Serialcomm.Send_frame json_payload_e30
                  ++ Serialcomm.Send_frame json_payload_e30))
     = Some (mkRecv [] 0 1,
             (if Serialcomm.ReadCallback demoConfig
              then [Callback (Message.mk "" "" "" "" 0 "e30=" "") Payload.zero]
              else [])
             ++ [Feedback "OK"]).
Proof.
  split; [vm_compute; split; [reflexivity|discriminate]|].
  apply (trailing_bytes_dropped sampleLib demoConfig json_payload_e30
           (Message.mk "" "" "" "" 0 "e30=" "") json_empty_object Payload.zero
           (Serialcomm.Send_frame json_payload_e30) 0 1).
  - vm_compute; split; [reflexivity|discriminate].
  - reflexivity.
  - reflexivity.
  - reflexivity.
Defined.

Lemma silent_reads_keep lib cfg n t ts :
  run (Serialcomm.step lib cfg) (mkRecv [] n t)
      (map (fun now => ReadOk now []) ts)
  = Some (mkRecv [] n t, []).
Proof.
  induction ts as [|now ts IH]; cbn [map run]; [reflexivity|].
  cbn [Serialcomm.step]. change (len (@nil byte) =? 0) with true. cbn iota.
  unfold Buffer.Len. cbn [buffer]. change (len (@nil byte) >? 0) with false.
  rewrite andb_false_r. rewrite IH. reflexivity.
Qed.

(** X13 (a length prefix alone is never timed out). When a read brings
    exactly the four bytes of an acceptable length and the line then stays
    silent, the idle check never fires, however long the silence lasts: the
    buffer is empty, so no RETRY is written and the loop keeps waiting for
    the announced number of bytes. *)
Theorem header_only_never_times_out lib cfg hdr n t0 t1 ts :
  List.length hdr = 4%nat ->
  BigEndian.Uint32 hdr = Some n ->
  0 < n <= Serialcomm.MaxFrameLength cfg ->
  run (Serialcomm.step lib cfg) (fresh t0)
      (ReadOk t1 hdr :: map (fun now => ReadOk now []) ts)
  = Some (mkRecv [] n t1, []).
Proof.
  intros L4 HU Hn. cbn [run].
  assert (S1 : Serialcomm.step lib cfg (fresh t0) (ReadOk t1 hdr)
               = Some (mkRecv [] n t1, [])).
  { unfold Serialcomm.step, fresh.
    replace (len hdr =? 0) with false by (unfold len; lia).
    unfold Buffer.Write, Buffer.Len, Buffer.Next.
    cbn [buffer expectedLength app Z.eqb andb].
    replace (len hdr >=? 4) with true by (unfold len; lia).
    change (Z.to_nat 4) with 4%nat. rewrite <- L4, firstn_all, skipn_all, HU.
    unfold Serialcomm.MaxFrameLength in Hn.
    replace (n >? uint32 (Serialcomm.MaxLength cfg)) with false by lia.
    replace (n =? 0) with false by lia. cbn [orb].
    unfold Serialcomm.frameStage, Buffer.Len. cbn [expectedLength buffer].
    replace (len (@nil byte) >=? n + 2) with false by (unfold len; cbn; lia).
    now rewrite andb_false_r. }
  rewrite S1, silent_reads_keep. reflexivity.
Qed.

Lemma header_only_never_times_out_witness :
  List.length [x00; x00; x00; x07] = 4%nat
  /\ BigEndian.Uint32 [x00; x00; x00; x07] = Some 7
  /\ 0 < 7 <= Serialcomm.MaxFrameLength demoConfig
  /\ run (Serialcomm.step sampleLib demoConfig) (fresh 0)
         (ReadOk 1 [x00; x00; x00; x07]
          :: map (fun now => ReadOk now []) [6000000000; 60000000000])
     = Some (mkRecv [] 7 1, []).
Proof.
  split; [reflexivity|]. split; [reflexivity|].
  split; [vm_compute; split; [reflexivity|discriminate]|].
  apply (header_only_never_times_out sampleLib demoConfig [x00; x00; x00; x07] 7
           0 1 [6000000000; 60000000000]).
  - reflexivity.
  - reflexivity.
  - vm_compute; split; [reflexivity|discriminate].
Defined.

(** X14 (recovery after an interrupted frame). Let a read bring a proper
    beginning of the frame of an acceptable payload, other than exactly its
    four length bytes, and let the next read, more than five seconds later,
    return nothing. Then the loop writes one RETRY and forgets the fragment,
    and the complete frame sent again afterwards is delivered and
    acknowledged as if nothing had come before. *)
Theorem interrupted_frame_recovers
  lib cfg P msg payloadBytes payload pre rest t0 t1 t2 t3 :
  0 < len P <= Serialcomm.MaxFrameLength cfg ->
  json_Unmarshal_Message lib P = Some msg ->
  base64_DecodeString lib (Message.Payload msg) = Some payloadBytes ->
  json_Unmarshal_Payload lib payloadBytes = Some payload ->
  pre ++ rest = Serialcomm.Send_frame P -> pre <> [] -> rest <> [] ->
  List.length pre <> 4%nat ->
  t2 - t1 > timeout ->
  run (Serialcomm.step lib cfg) (fresh t0)
      [ReadOk t1 pre; ReadOk t2 []; ReadOk t3 (Serialcomm.Send_frame P)]
  = Some (mkRecv [] 0 t3,
          [Feedback "RETRY"]
          ++ (if Serialcomm.ReadCallback cfg then [Callback msg payload] else [])
          ++ [Feedback "OK"]).
Proof.
  intros HP Hm Hb Hp E Hpre Hrest L4 Ht.
  destruct (Send_frame_shape cfg P HP) as [F HU].
  assert (S1 : Serialcomm.step lib cfg (fresh t0) (ReadOk t1 pre)
               = Some (absorbed (len P) pre t1, [])).
  { change (fresh t0) with (absorbed (len P) [] t0).
    rewrite (step_absorb lib cfg (BigEndian.PutUint32 (len P)) P
               (BigEndian.PutUint16 (Serialcomm.calculateCRC16 P)) (len P)
               eq_refl HU HP eq_refl eq_refl [] pre rest t0 t1);
      [|cbn [app]; rewrite E; exact F|assumption].
    destruct rest; [contradiction|reflexivity]. }
  assert (S2 : Serialcomm.step lib cfg (absorbed (len P) pre t1) (ReadOk t2 [])
               = Some (mkRecv [] 0 t1, [Feedback "RETRY"])).
  { cbn [Serialcomm.step]. change (len (@nil byte) =? 0) with true. cbn iota.
    assert (B : (Buffer.Len (buffer (absorbed (len P) pre t1)) >? 0) = true
                /\ lastDataTime (absorbed (len P) pre t1) = t1).
    { unfold absorbed, Buffer.Len.
      destruct (Nat.ltb_spec (List.length pre) 4); cbn [buffer lastDataTime];
        (split; [|reflexivity]); apply Z.gtb_lt.
      - destruct pre; [contradiction|]. unfold len. cbn [List.length]. lia.
      - unfold len. rewrite length_skipn. lia. }
    destruct B as [B1 B2]. rewrite B1, B2.
    replace (t2 - t1 >? timeout) with true by lia. cbn [andb].
    unfold reset, Buffer.Reset. rewrite B2. reflexivity. }
  cbn [run]. rewrite S1, S2.
  pose proof (step_frame_accepted lib cfg P msg payloadBytes payload [] t1 t3
                HP Hm Hb Hp) as S3.
  rewrite app_nil_r in S3. rewrite S3.
  cbn [app]. now rewrite !app_nil_r.
Qed.

Lemma interrupted_frame_recovers_witness :
  0 < len json_payload_e30 <= Serialcomm.MaxFrameLength demoConfig
  /\ 6000000000 - 1 > timeout
  /\ run (Serialcomm.step sampleLib demoConfig) (fresh 0)
       [ReadOk 1 (firstn 9 (Serialcomm.Send_frame json_payload_e30));
        ReadOk 6000000000 [];
        ReadOk 6000000001 (Serialcomm.Send_frame json_payload_e30)]
     = Some (mkRecv [] 0 6000000001,
             [Feedback "RETRY"]
             ++ (if Serialcomm.ReadCallback demoConfig
                 then [Callback (Message.mk "" "" "" "" 0 "e30=" "") Payload.zero]
                 else [])
             ++ [Feedback "OK"]).
Proof.
  split; [vm_compute; split; [reflexivity|discriminate]|].
  split; [reflexivity|].
  apply (interrupted_frame_recovers sampleLib demoConfig json_payload_e30
           (Message.mk "" "" "" "" 0 "e30=" "") json_empty_object Payload.zero
           (firstn 9 (Serialcomm.Send_frame json_payload_e30))
           (skipn 9 (Serialcomm.Send_frame json_payload_e30))
           0 1 6000000000 6000000001).
  - vm_compute; split; [reflexivity|discriminate].
  - reflexivity.
  - reflexivity.
  - reflexivity.
  - apply firstn_skipn.
  - vm_compute. discriminate.
  - vm_compute. discriminate.
  - vm_compute. discriminate.
  - reflexivity.
Defined.

(** ** The receiver program of serialcomm/utils.go *)

Lemma Contains_In b d : Buffer.Contains b d = true <-> In d b.
Proof.
  unfold Buffer.Contains. rewrite existsb_exists. split.
  - intros (x & Hx & E). apply Byte.byte_dec_bl in E. now subst.
  - intros H. exists d. split; [assumption|now apply Byte.byte_dec_lb].
Qed.

Lemma Contains_not_In b d : ~ In d b -> Buffer.Contains b d = false.
Proof.
  intros H. destruct (Buffer.Contains b d) eqn:E; [|reflexivity].
  now apply Contains_In in E.
Qed.

Lemma Checked_frameStage_total lib st :
  exists res, CheckedReceive.frameStage lib st = Some res.
Proof.
  unfold CheckedReceive.frameStage, CheckedReceive.frameReady, Buffer.Next, Buffer.Len.
  destruct ((expectedLength st >? 0) && _ && _) eqn:G; [|eauto].
  apply andb_true_iff in G. destruct G as [G _].
  apply andb_true_iff in G. destruct G as [G1 G2].
  assert (L : (2 <= List.length (skipn (Z.to_nat (expectedLength st)) (buffer st)))%nat).
  { rewrite length_skipn. unfold len in G2. lia. }
  destruct (skipn (Z.to_nat (expectedLength st)) (buffer st)) as [|c0 [|c1 r]];
    try (cbn [List.length] in L; lia).
  change (Z.to_nat 2) with 2%nat. cbn [firstn skipn]. rewrite Uint16_value.
  destruct (negb _); [eauto|].
  destruct (Buffer.ReadBytes x0a r) as [[l b3] found].
  destruct found; cbn [negb]; [|eauto].
  destruct (json_Unmarshal_Message lib _); eauto.
Qed.

Lemma Checked_step_total lib st r :
  exists res, CheckedReceive.step lib st r = Some res.
Proof.
  destruct r as [|now data]; cbn [CheckedReceive.step]; [eauto|].
  destruct (len data =? 0).
  - destruct (_ && _); eauto.
  - unfold Buffer.Write, Buffer.Len, Buffer.Next. cbn [buffer expectedLength].
    destruct ((expectedLength st =? 0) && _) eqn:G;
      [|apply Checked_frameStage_total].
    apply andb_true_iff in G. destruct G as [_ G]. apply Z.geb_le in G.
    change (Z.to_nat 4) with 4%nat.
    destruct (buffer st ++ data) as [|b0 [|b1 [|b2 [|b3 r]]]];
      try (unfold len in G; cbn [List.length] in G; lia).
    cbn [firstn skipn]. rewrite Uint32_value.
    destruct (_ || _); [eauto|apply Checked_frameStage_total].
Qed.

Lemma Checked_frameStage_wait lib buf n now :
  len buf < n + 2 \/ ~ In x0a buf ->
  CheckedReceive.frameStage lib (mkRecv buf n now) = Some (mkRecv buf n now, []).
Proof.
  intros H. unfold CheckedReceive.frameStage, CheckedReceive.frameReady, Buffer.Len.
  cbn [expectedLength buffer].
  destruct H as [H|H].
  - replace (len buf >=? n + 2) with false by lia.
    now rewrite andb_false_r.
  - rewrite (Contains_not_In _ _ H). now rewrite andb_false_r.
Qed.

Lemma Checked_frameStage_complete lib pkt crc more n now rc :
  len pkt = n -> 0 < n -> List.length crc = 2%nat ->
  BigEndian.Uint16 crc = Some rc ->
  In x0a (pkt ++ crc ++ more) ->
  CheckedReceive.frameStage lib (mkRecv (pkt ++ crc ++ more) n now)
  = if negb (rc =? CheckedReceive.calculateCRC16 pkt) then
      Some (mkRecv [] 0 now, [Feedback "RETRY"])
    else
      let '(_, b3, found) := Buffer.ReadBytes x0a more in
      if negb found then Some (mkRecv b3 n now, [])
      else
        match json_Unmarshal_Message lib pkt with
        | None => Some (mkRecv [] 0 now, [Feedback "RETRY"])
        | Some message => Some (mkRecv [] 0 now, [Feedback "OK"; Printed message])
        end.
Proof.
  intros Hp Hn Hc HU HI.
  unfold CheckedReceive.frameStage, CheckedReceive.frameReady, Buffer.Len, Buffer.Next.
  cbn [buffer expectedLength].
  replace (n >? 0) with true by lia.
  replace (len (pkt ++ crc ++ more) >=? n + 2) with true.
  2:{ symmetry. apply Z.geb_le. rewrite !len_app. unfold len in *. lia. }
  apply Contains_In in HI. rewrite HI. cbn [andb].
  assert (L : Z.to_nat n = List.length pkt) by (unfold len in Hp; lia).
  rewrite L, firstn_app, Nat.sub_diag, firstn_O, app_nil_r, firstn_all.
  rewrite skipn_app, Nat.sub_diag, skipn_all. cbn [app skipn].
  change (Z.to_nat 2) with 2%nat.
  rewrite <- Hc, firstn_app, Nat.sub_diag, firstn_O, app_nil_r, firstn_all.
  rewrite skipn_app, Nat.sub_diag, skipn_all. cbn [app skipn].
  rewrite HU. reflexivity.
Qed.

Section CheckedFeeding.
Variable lib : GoLib.
Variables hdr tail : list byte.
Variable n : Z.
Hypothesis Hhdr : List.length hdr = 4%nat.
Hypothesis HU : BigEndian.Uint32 hdr = Some n.
Hypothesis Hn : 0 < n <= CheckedReceive.maxLength.

Lemma Checked_step_absorbed sofar data rest t now :
  sofar ++ data ++ rest = hdr ++ tail -> data <> [] ->
  CheckedReceive.step lib (absorbed n sofar t) (ReadOk now data)
  = if (List.length (sofar ++ data) <? 4)%nat
    then Some (absorbed n (sofar ++ data) now, [])
    else CheckedReceive.frameStage lib (mkRecv (skipn 4 (sofar ++ data)) n now).
Proof.
  intros E Hd.
  assert (Ld : (0 < List.length data)%nat) by (destruct data; [easy|cbn; lia]).
  set (tgt := absorbed n (sofar ++ data) now).
  unfold CheckedReceive.step.
  replace (len data =? 0) with false by (unfold len; lia).
  unfold absorbed.
  destruct (Nat.ltb_spec (List.length sofar) 4) as [Ls|Ls];
    unfold Buffer.Write, Buffer.Len, Buffer.Next;
    cbn [buffer expectedLength lastDataTime].
  - cbn [Z.eqb andb].
    destruct (Nat.ltb_spec (List.length (sofar ++ data)) 4) as [L4|L4].
    + replace (len (sofar ++ data) >=? 4) with false by (unfold len; lia).
      unfold CheckedReceive.frameStage, CheckedReceive.frameReady.
      cbn [expectedLength Z.gtb Z.compare andb].
      unfold tgt, absorbed.
      destruct (Nat.ltb_spec (List.length (sofar ++ data)) 4); [reflexivity|lia].
    + replace (len (sofar ++ data) >=? 4) with true by (unfold len; lia).
      change (Z.to_nat 4) with 4%nat.
      rewrite app_assoc in E.
      destruct (app_eq_prefix _ _ _ _ E) as [E1 _]; [lia|]. rewrite Hhdr in E1.
      rewrite E1, HU.
      replace (n >? CheckedReceive.maxLength) with false by lia.
      replace (n =? 0) with false by lia. reflexivity.
  - replace (n =? 0) with false by lia. cbn [andb].
    destruct (Nat.ltb_spec (List.length (sofar ++ data)) 4) as [L4|L4];
      [rewrite length_app in L4; lia|].
    rewrite skipn_app. replace (4 - List.length sofar)%nat with 0%nat by lia.
    reflexivity.
Qed.

Lemma Checked_step_wait sofar data rest t now :
  sofar ++ data ++ rest = hdr ++ tail -> data <> [] ->
  ~ In x0a (skipn 4 (sofar ++ data)) ->
  CheckedReceive.step lib (absorbed n sofar t) (ReadOk now data)
  = Some (absorbed n (sofar ++ data) now, []).
Proof.
  intros E Hd HI. rewrite (Checked_step_absorbed sofar data rest t now E Hd).
  unfold absorbed.
  destruct (List.length (sofar ++ data) <? 4)%nat; [reflexivity|].
  apply Checked_frameStage_wait. now right.
Qed.
End CheckedFeeding.

Lemma In_skipn_prefix (a r body : list byte) k (d : byte) hdr :
  List.length hdr = k -> a ++ r = hdr ++ body -> In d (skipn k a) -> In d body.
Proof.
  intros Lh E HI.
  destruct (Nat.le_gt_cases k (List.length a)) as [Le|Gt].
  - rewrite <- Lh in Le. destruct (app_eq_prefix _ _ _ _ E Le) as [_ E2].
    rewrite <- E2. apply in_or_app. left. now rewrite Lh.
  - rewrite skipn_all2 in HI by lia. contradiction.
Qed.

Lemma Checked_run_wait lib hdr n body : forall chunks sofar t rest,
  List.length hdr = 4%nat -> BigEndian.Uint32 hdr = Some n ->
  0 < n <= CheckedReceive.maxLength ->
  ~ In x0a body ->
  Forall (fun c => snd c <> []) chunks ->
  sofar ++ List.concat (map snd chunks) ++ rest = hdr ++ body ->
  run (CheckedReceive.step lib) (absorbed n sofar t) (reads chunks)
  = Some (absorbed n (sofar ++ List.concat (map snd chunks)) (lastTime t chunks), []).
Proof.
  induction chunks as [|[now data] cs IH]; intros sofar t rest Hh HU Hn Hb Hall E.
  - cbn. now rewrite app_nil_r.
  - apply Forall_cons_iff in Hall. destruct Hall as [Hd Hcs]. cbn [snd] in Hd.
    cbn [reads map fst snd run List.concat] in *.
    rewrite <- !app_assoc in E.
    rewrite (Checked_step_wait lib hdr body n Hh HU Hn sofar data
               (List.concat (map snd cs) ++ rest) t now E Hd).
    2:{ intros HI. apply Hb. rewrite app_assoc in E.
        eapply In_skipn_prefix; eauto. }
    fold (reads cs).
    rewrite (IH (sofar ++ data) now rest Hh HU Hn Hb Hcs)
      by (now rewrite <- !app_assoc).
    rewrite lastTime_step. cbn [fst app]. now rewrite <- app_assoc.
Qed.

Lemma Checked_header (P : list byte) :
  0 < len P <= CheckedReceive.maxLength ->
  uint32 (len P) = len P
  /\ BigEndian.Uint32 (BigEndian.PutUint32 (len P)) = Some (len P).
Proof.
  intros H. unfold CheckedReceive.maxLength in H.
  split; [apply Z.mod_small; lia|].
  rewrite <- (app_nil_r (BigEndian.PutUint32 (len P))).
  apply Uint32_PutUint32. lia.
Qed.

Lemma Checked_Uint16_of_crc P :
  BigEndian.Uint16 (BigEndian.PutUint16 (SerialJsonSend.calculateCRC16 P))
  = Some (CheckedReceive.calculateCRC16 P).
Proof. apply Uint16_of_crc. Qed.

(** X15 (the loop of the program in utils.go never panics). From any state
    and for any reads each turn ends: the decoders always get the bytes they
    index. *)
Theorem CheckedReceive_never_panics lib st rs :
  exists st' e, run (CheckedReceive.step lib) st rs = Some (st', e).
Proof. apply run_total. apply Checked_step_total. Qed.

(** X16 (a frame of [sendData] that arrives in one read). The frame that
    serialJson/send/send.go writes for a payload of 1 to 10000 bytes that
    unmarshals into a [Message], read in one piece by the program in
    utils.go, is answered with OK and printed, and the state is cleared;
    this holds whatever bytes the payload contains. *)
Theorem CheckedReceive_whole_frame lib P msg t0 now :
  0 < len P <= CheckedReceive.maxLength ->
  json_Unmarshal_Message lib P = Some msg ->
  CheckedReceive.step lib (fresh t0)
    (ReadOk now (sendData_frame SerialJsonSend.calculateCRC16 P))
  = Some (mkRecv [] 0 now, [Feedback "OK"; Printed msg]).
Proof.
  intros HP Hm. destruct (Checked_header P HP) as [U HU].
  unfold sendData_frame. rewrite U.
  change (fresh t0) with (absorbed (len P) [] t0).
  rewrite (Checked_step_absorbed lib (BigEndian.PutUint32 (len P))
             (P ++ BigEndian.PutUint16 (SerialJsonSend.calculateCRC16 P) ++ [x0a])
             (len P) eq_refl HU HP [] _ [] t0 now);
    [|now rewrite app_nil_r|discriminate].
  cbn [app List.length Nat.ltb Nat.leb skipn BigEndian.PutUint32].
  rewrite (Checked_frameStage_complete _ _ _ _ _ _
             (CheckedReceive.calculateCRC16 P));
    try reflexivity; try lia.
  - rewrite Z.eqb_refl. cbn [negb Buffer.ReadBytes Byte.eqb].
    change (Byte.eqb x0a x0a) with true. cbn iota. now rewrite Hm.
  - apply Checked_Uint16_of_crc.
  - apply in_or_app. right. apply in_or_app. right. now left.
Qed.

Lemma CheckedReceive_whole_frame_witness :
  0 < len json_a1 <= CheckedReceive.maxLength
  /\ json_Unmarshal_Message sampleLib json_a1 = Some Message.zero
  /\ CheckedReceive.step sampleLib (fresh 0)
       (ReadOk 1 (sendData_frame SerialJsonSend.calculateCRC16 json_a1))
     = Some (mkRecv [] 0 1, [Feedback "OK"; Printed Message.zero]).
Proof.
  split; [vm_compute; split; [reflexivity|discriminate]|].
  split; [reflexivity|].
  apply (CheckedReceive_whole_frame sampleLib json_a1 Message.zero 0 1).
  - vm_compute; split; [reflexivity|discriminate].
  - reflexivity.
Defined.

Lemma Checked_run_frame lib hdr n body : forall chunks sofar t,
  List.length hdr = 4%nat -> BigEndian.Uint32 hdr = Some n ->
  0 < n <= CheckedReceive.maxLength ->
  ~ In x0a body ->
  chunks <> [] ->
  Forall (fun c => snd c <> []) chunks ->
  sofar ++ List.concat (map snd chunks) = hdr ++ body ++ [x0a] ->
  forall res,
    CheckedReceive.frameStage lib
      (mkRecv (body ++ [x0a]) n (lastTime t chunks)) = Some res ->
    run (CheckedReceive.step lib) (absorbed n sofar t) (reads chunks) = Some res.
Proof.
  induction chunks as [|[now data] cs IH];
    intros sofar t Hh HU Hn Hb Hne Hall E res Hres; [easy|].
  apply Forall_cons_iff in Hall. destruct Hall as [Hd Hcs]. cbn [snd] in Hd.
  cbn [reads map fst snd run List.concat] in *.
  rewrite lastTime_step in Hres. cbn [fst] in Hres.
  destruct cs as [|c cs'].
  - cbn [map List.concat] in *. rewrite app_nil_r in E.
    rewrite (Checked_step_absorbed lib hdr (body ++ [x0a]) n Hh HU Hn
               sofar data [] t now); [|now rewrite app_nil_r|assumption].
    rewrite E.
    assert (L : (List.length (hdr ++ body ++ [x0a]) <? 4)%nat = false).
    { apply Nat.ltb_ge. rewrite length_app. lia. }
    rewrite L.
    rewrite <- Hh at 1. rewrite skipn_app, Nat.sub_diag, skipn_all. cbn [app skipn].
    unfold lastTime in Hres. cbn in Hres. rewrite Hres.
    destruct res as [st e]. cbn. now rewrite app_nil_r.
  - set (R := List.concat (map snd (c :: cs'))) in *.
    assert (HR : R <> []).
    { apply Forall_cons_iff in Hcs. destruct Hcs as [Hc0 _]. unfold R. cbn.
      destruct (snd c); [easy|discriminate]. }
    destruct (exists_last HR) as (R' & z & ER).
    assert (E' : (sofar ++ data) ++ R' = hdr ++ body /\ z = x0a).
    { rewrite ER in E.
      replace (sofar ++ data ++ R' ++ [z]) with (((sofar ++ data) ++ R') ++ [z]) in E
        by (now rewrite <- !app_assoc).
      replace (hdr ++ body ++ [x0a]) with ((hdr ++ body) ++ [x0a]) in E
        by (now rewrite <- app_assoc).
      now apply app_inj_tail in E. }
    destruct E' as [E' _].
    rewrite (Checked_step_wait lib hdr body n Hh HU Hn sofar data R' t now);
      [|now rewrite <- app_assoc in E'|assumption|].
    2:{ intros HI. apply Hb. eapply In_skipn_prefix; eauto. }
    fold (reads (c :: cs')).
    rewrite (IH (sofar ++ data) now Hh HU Hn Hb) with (res := res);
      [destruct res; reflexivity|discriminate|assumption| |assumption].
    now rewrite <- app_assoc.
Qed.

(** X17 (a frame of [sendData] cut into reads). When neither the payload
    nor its two checksum bytes contain a line feed, the frame written by
    serialJson/send/send.go for a payload of 1 to 10000 bytes that unmarshals
    into a [Message] is accepted by the program in utils.go however it is
    cut into non-empty reads: one OK is written, the message is printed once,
    and the state is cleared. *)
Theorem CheckedReceive_roundtrip lib P msg chunks t0 :
  0 < len P <= CheckedReceive.maxLength ->
  json_Unmarshal_Message lib P = Some msg ->
  ~ In x0a (P ++ BigEndian.PutUint16 (SerialJsonSend.calculateCRC16 P)) ->
  chunks <> [] ->
  Forall (fun c => snd c <> []) chunks ->
  List.concat (map snd chunks) = sendData_frame SerialJsonSend.calculateCRC16 P ->
  run (CheckedReceive.step lib) (fresh t0) (reads chunks)
  = Some (mkRecv [] 0 (lastTime t0 chunks), [Feedback "OK"; Printed msg]).
Proof.
  intros HP Hm Hno Hne Hall E. destruct (Checked_header P HP) as [U HU].
  unfold sendData_frame in E. rewrite U in E.
  change (fresh t0) with (absorbed (len P) [] t0).
  apply (Checked_run_frame lib (BigEndian.PutUint32 (len P)) (len P)
           (P ++ BigEndian.PutUint16 (SerialJsonSend.calculateCRC16 P)));
    try assumption; try reflexivity.
  - cbn [app]. rewrite E. now rewrite <- !app_assoc.
  - rewrite <- app_assoc.
    rewrite (Checked_frameStage_complete _ _ _ _ _ _
               (CheckedReceive.calculateCRC16 P));
      try reflexivity; try lia.
    + rewrite Z.eqb_refl. cbn [negb Buffer.ReadBytes].
      change (Byte.eqb x0a x0a) with true. cbn iota. now rewrite Hm.
    + apply Checked_Uint16_of_crc.
    + apply in_or_app. right. apply in_or_app. right. now left.
Qed.

Lemma CheckedReceive_roundtrip_witness :
  0 < len json_a1 <= CheckedReceive.maxLength
  /\ ~ In x0a (json_a1 ++ BigEndian.PutUint16 (SerialJsonSend.calculateCRC16 json_a1))
  /\ run (CheckedReceive.step sampleLib) (fresh 0)
       (reads (split3 (sendData_frame SerialJsonSend.calculateCRC16 json_a1)))
     = Some (mkRecv [] 0 3, [Feedback "OK"; Printed Message.zero]).
Proof.
  assert (N : ~ In x0a (json_a1 ++ BigEndian.PutUint16
                                     (SerialJsonSend.calculateCRC16 json_a1))).
  { vm_compute. intros H.
    repeat (destruct H as [H|H]; [discriminate H|]). exact H. }
  split; [vm_compute; split; [reflexivity|discriminate]|].
  split; [exact N|].
  apply (CheckedReceive_roundtrip sampleLib json_a1 Message.zero
           (split3 (sendData_frame SerialJsonSend.calculateCRC16 json_a1)) 0).
  - vm_compute; split; [reflexivity|discriminate].
  - reflexivity.
  - exact N.
  - discriminate.
  - repeat constructor; discriminate.
  - vm_compute. reflexivity.
Defined.

(** X18 (a line feed inside the frame). When the payload or its checksum
    bytes contain a line feed and the terminator arrives in a later read than
    the last checksum byte, the program in utils.go loses the frame without
    any answer: the search for a line feed succeeds on the payload, the
    checksum matches, [ReadBytes] then drains the buffer without finding the
    terminator, and the terminator that comes afterwards stays behind with
    the old length still pending. *)
Theorem line_feed_inside_frame_lost lib P t0 t1 t2 :
  0 < len P <= CheckedReceive.maxLength ->
  In x0a (P ++ BigEndian.PutUint16 (SerialJsonSend.calculateCRC16 P)) ->
  run (CheckedReceive.step lib) (fresh t0)
      [ReadOk t1 (BigEndian.PutUint32 (uint32 (len P)) ++ P
                  ++ BigEndian.PutUint16 (SerialJsonSend.calculateCRC16 P));
       ReadOk t2 [x0a]]
  = Some (mkRecv [x0a] (len P) t2, []).
Proof.
  intros HP HI. destruct (Checked_header P HP) as [U HU]. rewrite U.
  cbn [run].
  change (fresh t0) with (absorbed (len P) [] t0).
  rewrite (Checked_step_absorbed lib (BigEndian.PutUint32 (len P))
             (P ++ BigEndian.PutUint16 (SerialJsonSend.calculateCRC16 P))
             (len P) eq_refl HU HP [] _ [] t0 t1);
    [|now rewrite app_nil_r|discriminate].
  cbn [app List.length Nat.ltb Nat.leb skipn BigEndian.PutUint32].
  pose proof (Checked_frameStage_complete lib P
                (BigEndian.PutUint16 (SerialJsonSend.calculateCRC16 P)) []
                (len P) t1 (CheckedReceive.calculateCRC16 P)
                eq_refl (proj1 HP) eq_refl (Checked_Uint16_of_crc P)) as F.
  rewrite !app_nil_r in F. rewrite (F HI). clear F.
  rewrite Z.eqb_refl. cbn [negb Buffer.ReadBytes].
  unfold CheckedReceive.step.
  change (len [x0a] =? 0) with false. cbn iota.
  unfold Buffer.Write, Buffer.Len, Buffer.Next.
  cbn [buffer expectedLength app].
  replace (len P =? 0) with false by lia. cbn [andb].
  rewrite Checked_frameStage_wait; [reflexivity|].
  left. change (len [x0a]) with 1. lia.
Qed.

Lemma line_feed_inside_frame_lost_witness :
  0 < len [x7b; x0a; x7d] <= CheckedReceive.maxLength
  /\ In x0a ([x7b; x0a; x7d]
             ++ BigEndian.PutUint16 (SerialJsonSend.calculateCRC16 [x7b; x0a; x7d]))
  /\ run (CheckedReceive.step sampleLib) (fresh 0)
       [ReadOk 1 (BigEndian.PutUint32 (uint32 (len [x7b; x0a; x7d]))
                  ++ [x7b; x0a; x7d]
                  ++ BigEndian.PutUint16
                       (SerialJsonSend.calculateCRC16 [x7b; x0a; x7d]));
        ReadOk 2 [x0a]]
     = Some (mkRecv [x0a] (len [x7b; x0a; x7d]) 2, []).
Proof.
  split; [vm_compute; split; [reflexivity|discriminate]|].
  split; [right; left; reflexivity|].
  apply (line_feed_inside_frame_lost sampleLib [x7b; x0a; x7d] 0 1 2).
  - vm_compute; split; [reflexivity|discriminate].
  - right; left; reflexivity.
Defined.

(** X19 (frames of the library sender). [Send] of the serialcomm package
    ends its frame with the checksum. When payload and checksum contain no
    line feed, the program in utils.go never answers such a frame, however
    it is cut into non-empty reads: it keeps payload and checksum in its
    buffer and goes on waiting for a terminator. *)
Theorem library_frame_never_answered lib P chunks t0 :
  0 < len P <= CheckedReceive.maxLength ->
  ~ In x0a (P ++ BigEndian.PutUint16 (Serialcomm.calculateCRC16 P)) ->
  Forall (fun c => snd c <> []) chunks ->
  List.concat (map snd chunks) = Serialcomm.Send_frame P ->
  run (CheckedReceive.step lib) (fresh t0) (reads chunks)
  = Some (mkRecv (P ++ BigEndian.PutUint16 (Serialcomm.calculateCRC16 P))
                 (len P) (lastTime t0 chunks), []).
Proof.
  intros HP Hno Hall E. destruct (Checked_header P HP) as [U HU].
  unfold Serialcomm.Send_frame in E. rewrite U in E.
  change (fresh t0) with (absorbed (len P) [] t0).
  rewrite (Checked_run_wait lib (BigEndian.PutUint32 (len P)) (len P)
             (P ++ BigEndian.PutUint16 (Serialcomm.calculateCRC16 P))
             chunks [] t0 [] eq_refl HU HP Hno Hall).
  - cbn [app]. rewrite E. reflexivity.
  - cbn [app]. rewrite app_nil_r, E. reflexivity.
Qed.

Lemma library_frame_never_answered_witness :
  0 < len json_a1 <= CheckedReceive.maxLength
  /\ ~ In x0a (json_a1 ++ BigEndian.PutUint16 (Serialcomm.calculateCRC16 json_a1))
  /\ run (CheckedReceive.step sampleLib) (fresh 0)
       (reads (split3 (Serialcomm.Send_frame json_a1)))
     = Some (mkRecv (json_a1
                     ++ BigEndian.PutUint16 (Serialcomm.calculateCRC16 json_a1))
                    (len json_a1) 3, []).
Proof.
  assert (N : ~ In x0a (json_a1 ++ BigEndian.PutUint16
                                     (Serialcomm.calculateCRC16 json_a1))).
  { vm_compute. intros H.
    repeat (destruct H as [H|H]; [discriminate H|]). exact H. }
  split; [vm_compute; split; [reflexivity|discriminate]|].
  split; [exact N|].
  apply (library_frame_never_answered sampleLib json_a1
           (split3 (Serialcomm.Send_frame json_a1)) 0).
  - vm_compute; split; [reflexivity|discriminate].
  - exact N.
  - repeat constructor; discriminate.
  - vm_compute. reflexivity.
Defined.

(** ** Bytes between frames, and the bound of the configuration *)

Lemma step_length_rejected lib cfg buf data t now b0 b1 b2 b3 r :
  buf ++ data = b0 :: b1 :: b2 :: b3 :: r -> data <> [] ->
  (let n := b2z b3 + b2z b2 * 2^8 + b2z b1 * 2^16 + b2z b0 * 2^24 in
   Serialcomm.MaxFrameLength cfg < n \/ n = 0) ->
  Serialcomm.step lib cfg (mkRecv buf 0 t) (ReadOk now data)
  = Some (mkRecv [] 0 now, [Feedback "RETRY"]).
Proof.
  intros E Hd Hn. unfold Serialcomm.step.
  rewrite (len_nonempty data Hd).
  unfold Buffer.Write, Buffer.Len, Buffer.Next.
  cbn [buffer expectedLength Z.eqb andb]. rewrite E.
  replace (len (b0 :: b1 :: b2 :: b3 :: r) >=? 4) with true.
  2:{ symmetry. apply Z.geb_le. unfold len. cbn [List.length]. lia. }
  change (Z.to_nat 4) with 4%nat. cbn [firstn skipn]. rewrite Uint32_value.
  cbn zeta in Hn. unfold Serialcomm.MaxFrameLength in Hn.
  set (n := b2z b3 + b2z b2 * 2^8 + b2z b1 * 2^16 + b2z b0 * 2^24) in *.
  replace ((n >? uint32 (Serialcomm.MaxLength cfg)) || (n =? 0)) with true.
  - reflexivity.
  - symmetry. apply orb_true_iff. destruct Hn; [left|right]; lia.
Qed.

(** X20 (a stray byte poisons the next frame). A single byte that is
    left in the buffer while no length is pending, such as the terminator of
    a [sendData] frame that arrives in a read of its own after the frame was
    acknowledged, becomes the first length byte of whatever comes next: when
    that byte times 2^24 exceeds the bound, any following read of three bytes
    or more, a correct frame included, is thrown away and answered with
    RETRY. *)
Theorem stray_byte_rejects_next lib cfg b data t0 t1 t2 :
  Serialcomm.MaxFrameLength cfg < b2z b * 2 ^ 24 ->
  3 <= len data ->
  run (Serialcomm.step lib cfg) (fresh t0) [ReadOk t1 [b]; ReadOk t2 data]
  = Some (mkRecv [] 0 t2, [Feedback "RETRY"]).
Proof.
  intros Hb Hd. cbn [run].
  assert (S1 : Serialcomm.step lib cfg (fresh t0) (ReadOk t1 [b])
               = Some (mkRecv [b] 0 t1, [])) by reflexivity.
  rewrite S1.
  destruct data as [|d0 [|d1 [|d2 r]]];
    try (unfold len in Hd; cbn [List.length] in Hd; lia).
  rewrite (step_length_rejected lib cfg [b] (d0 :: d1 :: d2 :: r) t1 t2
             b d0 d1 d2 r eq_refl); [reflexivity|discriminate|].
  cbn zeta. left.
  pose proof (b2z_range d0). pose proof (b2z_range d1). pose proof (b2z_range d2).
  lia.
Qed.

Lemma stray_byte_rejects_next_witness :
  Serialcomm.MaxFrameLength demoConfig < b2z x0a * 2 ^ 24
  /\ 3 <= len (Serialcomm.Send_frame json_payload_e30)
  /\ run (Serialcomm.step sampleLib demoConfig) (fresh 0)
       [ReadOk 1 [x0a]; ReadOk 2 (Serialcomm.Send_frame json_payload_e30)]
     = Some (mkRecv [] 0 2, [Feedback "RETRY"]).
Proof.
  split; [reflexivity|]. split; [vm_compute; discriminate|].
  apply (stray_byte_rejects_next sampleLib demoConfig x0a
           (Serialcomm.Send_frame json_payload_e30) 0 1 2).
  - reflexivity.
  - vm_compute; discriminate.
Defined.

(** X21 (a configuration without a bound). When [uint32(MaxLength)] is
    zero, as it is for a [SerialConfig] whose [MaxLength] was left unset,
    the loop of [Start] rejects every length: the first read that completes
    four bytes is thrown away and answered with RETRY, whatever it holds. *)
Theorem unset_MaxLength_rejects_all lib cfg data t0 now :
  Serialcomm.MaxFrameLength cfg = 0 ->
  4 <= len data ->
  Serialcomm.step lib cfg (fresh t0) (ReadOk now data)
  = Some (mkRecv [] 0 now, [Feedback "RETRY"]).
Proof.
  intros H0 Hd.
  destruct data as [|d0 [|d1 [|d2 [|d3 r]]]];
    try (unfold len in Hd; cbn [List.length] in Hd; lia).
  apply (step_length_rejected lib cfg [] (d0 :: d1 :: d2 :: d3 :: r) t0 now
           d0 d1 d2 d3 r eq_refl); [discriminate|].
  cbn zeta. rewrite H0.
  pose proof (b2z_range d0). pose proof (b2z_range d1).
  pose proof (b2z_range d2). pose proof (b2z_range d3). lia.
Qed.

Lemma unset_MaxLength_rejects_all_witness :
  Serialcomm.MaxFrameLength (Serialcomm.mkConfig "COM7" 115200 300000000 0 true) = 0
  /\ 4 <= len (Serialcomm.Send_frame json_payload_e30)
  /\ Serialcomm.step sampleLib
       (Serialcomm.mkConfig "COM7" 115200 300000000 0 true) (fresh 0)
       (ReadOk 1 (Serialcomm.Send_frame json_payload_e30))
     = Some (mkRecv [] 0 1, [Feedback "RETRY"]).
Proof.
  split; [reflexivity|]. split; [vm_compute; discriminate|].
  apply (unset_MaxLength_rejects_all sampleLib
           (Serialcomm.mkConfig "COM7" 115200 300000000 0 true)
           (Serialcomm.Send_frame json_payload_e30) 0 1).
  - reflexivity.
  - vm_compute; discriminate.
Defined.
